(** * IREE GPU dialect: MultiMmaOp, its unrolling and folding patterns,
      shuffle lowering and forall fusion.

    A shallow embedding of
      compiler/Codegen/Dialect/GPU/IR/IREEGPUOps.cpp
      compiler/Codegen/Dialect/GPU/Transforms/Transforms.cpp
    Builder and rewriter services are modelled by explicit state passing;
    assertions and out-of-range indexing of the C++ code are the [Abort]
    outcome of the [Res] monad. *)

From Stdlib Require Import String ZArith Arith List Bool Lia.
Import ListNotations.

Set Implicit Arguments.

Local Open Scope Z_scope.

(* ================================================================== *)
(** ** Outcomes of code with assertions *)

Inductive Res (A : Type) : Type :=
| Ret (a : A)
| Abort.

Arguments Ret {A} a.
Arguments Abort {A}.

Definition bind {A B : Type} (m : Res A) (k : A -> Res B) : Res B :=
  match m with
  | Ret a => k a
  | Abort => Abort
  end.

Declare Scope res_scope.
Delimit Scope res_scope with res.
Notation "x <- m ;; k" := (bind m (fun x => k))
  (at level 100, m at next level, right associativity) : res_scope.
Notation "' pat <- m ;; k" := (bind m (fun x => match x with pat => k end))
  (at level 100, pat pattern, m at next level, right associativity) : res_scope.
Local Open Scope res_scope.

(** [assert(c)]. *)
Definition assert (c : bool) : Res unit :=
  if c then Ret tt else Abort.

(** [a[i]] on an ArrayRef / SmallVector: the index is asserted in range. *)
Definition index {A : Type} (l : list A) (i : Z) : Res A :=
  if i <? 0 then Abort
  else match nth_error l (Z.to_nat i) with
       | Some a => Ret a
       | None => Abort
       end.

(* ================================================================== *)
(** ** Types and values *)

Inductive ElementType : Type := f16 | bf16 | f32 | i8 | i32.

Definition ElementType_eqb (a b : ElementType) : bool :=
  match a, b with
  | f16, f16 | bf16, bf16 | f32, f32 | i8, i8 | i32, i32 => true
  | _, _ => false
  end.

(** RankedTensorType or VectorType. *)
Inductive Container : Type := TensorKind | VectorKind.

Record ShapedType : Type := mkShapedType {
  container : Container;
  getShape : list Z;
  getElementType : ElementType
}.

Definition getRank (t : ShapedType) : Z := Z.of_nat (length (getShape t)).

(** [ShapedType::kDynamic], the marker of a dynamic extent. *)
Definition kDynamic : Z := - 2 ^ 63.

Definition isDynamic (size : Z) : bool := size =? kDynamic.

Definition isDynamicShape (sizes : list Z) : bool := existsb isDynamic sizes.

(** An SSA value: a block argument or an operation result, named by the
    number of the owning operation. *)
Inductive ValueDef : Type :=
| BlockArgument (owner : nat) (argNumber : nat)
| OpResult (owner : nat) (resultNumber : nat).

Record Value : Type := mkValue {
  getDef : ValueDef;
  getType : ShapedType
}.

(* ================================================================== *)
(** ** Affine maps *)

Inductive AffineExprKind : Type := Add | Mul | Mod | FloorDiv | CeilDiv.

Inductive AffineExpr : Type :=
| AffineDimExpr (position : nat)
| AffineSymbolExpr (position : nat)
| AffineConstantExpr (value : Z)
| AffineBinaryOpExpr (kind : AffineExprKind) (lhs rhs : AffineExpr).

Definition AffineExprKind_eqb (a b : AffineExprKind) : bool :=
  match a, b with
  | Add, Add | Mul, Mul | Mod, Mod | FloorDiv, FloorDiv | CeilDiv, CeilDiv => true
  | _, _ => false
  end.

Fixpoint AffineExpr_eqb (a b : AffineExpr) : bool :=
  match a, b with
  | AffineDimExpr p, AffineDimExpr q => Nat.eqb p q
  | AffineSymbolExpr p, AffineSymbolExpr q => Nat.eqb p q
  | AffineConstantExpr v, AffineConstantExpr w => v =? w
  | AffineBinaryOpExpr k l r, AffineBinaryOpExpr k' l' r' =>
      AffineExprKind_eqb k k' && AffineExpr_eqb l l' && AffineExpr_eqb r r'
  | _, _ => false
  end.

Record AffineMap : Type := mkAffineMap {
  getNumDims : nat;
  getNumSymbols : nat;
  getResults : list AffineExpr
}.

Definition getNumResults (map : AffineMap) : nat := length (getResults map).

(** [AffineMap::get(context)], the map [() -> ()]. *)
Definition emptyAffineMap : AffineMap := mkAffineMap 0 0 [].

(** The positions of the results that are dimension expressions; [None] when
    some result is not a dimension expression. *)
Fixpoint dimPositions (results : list AffineExpr) : option (list nat) :=
  match results with
  | [] => Some []
  | AffineDimExpr p :: rest =>
      match dimPositions rest with
      | Some ps => Some (p :: ps)
      | None => None
      end
  | _ :: _ => None
  end.

Fixpoint noDuplicates (l : list nat) : bool :=
  match l with
  | [] => true
  | x :: rest => negb (existsb (Nat.eqb x) rest) && noDuplicates rest
  end.

(** Modelled from the spec: the affine-map library's projected-permutation
    query ("each a projected permutation of its input dimensions", "no
    compound expressions"), which is not under src/: no symbols, every result
    a dimension of the map, no dimension used twice. *)
Definition isProjectedPermutation (map : AffineMap) : bool :=
  Nat.eqb (getNumSymbols map) 0 &&
  match dimPositions (getResults map) with
  | Some ps => forallb (fun p => Nat.ltb p (getNumDims map)) ps && noDuplicates ps
  | None => false
  end.

(** Modelled from the spec: the affine-map library's permutation application,
    not under src/: result number [j] of the map, the dimension [d], selects
    entry [d] of the source. The library asserts a projected permutation and a
    source with one entry per input dimension. *)
Definition applyPermutationMap (m : AffineMap) (source : list Z) : Res (list Z) :=
  _ <- assert (isProjectedPermutation m) ;;
  _ <- assert (Nat.eqb (getNumDims m) (length source)) ;;
  match dimPositions (getResults m) with
  | Some ps => Ret (map (fun p => nth p source 0) ps)
  | None => Abort
  end.

(* ================================================================== *)
(** ** Diagnostics *)

(** What [emitOpError] and [notifyMatchFailure] report; the streamed operand
    number, counts and types are the constructor arguments. *)
Inductive Diagnostic : Type :=
| ExpectedIndexingMapForEachOperand
| ExpectedNoSymbols (index : nat)
| ExpectedNumberOfInputs (index : nat) (numIterators : nat)
| ExpectedFewerOutputs (index : nat) (rank : nat)
| ExpectedProjectedPermutation (index : nat)
| UnexpectedDynamicInnerDim (index : nat) (type : ShapedType)
| FailedToInferContractionDims
| LhsShapeMismatch
| RhsShapeMismatch
| AccumulatorShapeMismatch
| LhsElementTypeMismatch (actual expected : ElementType)
| RhsElementTypeMismatch (actual expected : ElementType)
| AccumulatorElementTypeMismatch (actual expected : ElementType)
| MatchFailure (reason : string)
| NoDiagnostic.

Inductive LogicalResult : Type :=
| success
| failure (d : Diagnostic).

Definition succeeded (r : LogicalResult) : bool :=
  match r with success => true | failure _ => false end.

Definition failed (r : LogicalResult) : bool := negb (succeeded r).

(* ================================================================== *)
(** ** MultiMmaOp *)

Inductive IteratorType : Type := parallel | reduction.

(** The intrinsic kind, [MmaInterfaceAttr]: the element type and the native
    vector type of each of the roles A, B and C. *)
Record MmaInterfaceAttr : Type := mkMmaInterfaceAttr {
  getABCElementTypes : ElementType * ElementType * ElementType;
  getABCVectorTypes : ShapedType * ShapedType * ShapedType
}.

Record MultiMmaOp : Type := mkMultiMmaOp {
  getLhs : Value;
  getRhs : Value;
  getAcc : Value;
  getResultType : ShapedType;
  getIndexingMapsArray : list AffineMap;
  getIteratorTypes : list IteratorType;
  getKind : MmaInterfaceAttr
}.

Definition getLhsType (op : MultiMmaOp) : ShapedType := getType (getLhs op).
Definition getRhsType (op : MultiMmaOp) : ShapedType := getType (getRhs op).
Definition getAccType (op : MultiMmaOp) : ShapedType := getType (getAcc op).

Definition getOperands (op : MultiMmaOp) : list Value :=
  [getLhs op; getRhs op; getAcc op].

Definition getOperand (op : MultiMmaOp) (i : nat) : Res Value :=
  index (getOperands op) (Z.of_nat i).

(** Modelled from the spec: the tensor-versus-vector semantics flag of the
    operation's query surface, declared with the operation and not under src/. *)
Definition hasTensorSemantics (op : MultiMmaOp) : bool :=
  match container (getResultType op) with
  | TensorKind => true
  | VectorKind => false
  end.

(** Modelled from the spec: the per-role outer rank, declared with the
    operation and not under src/: the number of results of the role's map,
    the remaining trailing dimensions of the operand being the inner ones. *)
Definition getOuterRank (op : MultiMmaOp) (role : nat) : Res nat :=
  m <- index (getIndexingMapsArray op) (Z.of_nat role) ;;
  Ret (getNumResults m).

Definition getLhsOuterRank (op : MultiMmaOp) : Res nat := getOuterRank op 0.
Definition getRhsOuterRank (op : MultiMmaOp) : Res nat := getOuterRank op 1.
Definition getAccOuterRank (op : MultiMmaOp) : Res nat := getOuterRank op 2.

(** Modelled from the spec: the inner shape of the accumulator, declared with
    the operation and not under src/: its shape without the outer dimensions. *)
Definition getAccInnerShape (op : MultiMmaOp) : Res (list Z) :=
  n <- getAccOuterRank op ;;
  Ret (skipn n (getShape (getAccType op))).

(** [getResultIndex]: the number of the first result equal to [targetExpr],
    or -1. *)
Fixpoint getResultIndexFrom (i : Z) (results : list AffineExpr)
    (targetExpr : AffineExpr) : Z :=
  match results with
  | [] => -1
  | e :: rest =>
      if AffineExpr_eqb targetExpr e then i
      else getResultIndexFrom (i + 1) rest targetExpr
  end.

Definition getResultIndex (m : AffineMap) (targetExpr : AffineExpr) : Z :=
  getResultIndexFrom 0 (getResults m) targetExpr.

(** One iteration of the loop of [MultiMmaOp::getIterationBounds], for
    iterator number [i] of kind [iteratorType]. *)
Definition iterationBound (op : MultiMmaOp) (i : nat)
    (iteratorType : IteratorType) : Res Z :=
  let lhsShape := getShape (getLhsType op) in
  let resType := getResultType op in
  let indexingMaps := getIndexingMapsArray op in
  let targetExpr := AffineDimExpr i in
  match iteratorType with
  | reduction =>
      m0 <- index indexingMaps 0 ;;
      let lhsDimIndex := getResultIndex m0 targetExpr in
      _ <- assert (lhsDimIndex >=? 0) ;;
      index lhsShape lhsDimIndex
  | parallel =>
      m2 <- index indexingMaps 2 ;;
      let resDimIndex := getResultIndex m2 targetExpr in
      _ <- assert (resDimIndex >=? 0) ;;
      index (getShape resType) resDimIndex
  end.

Fixpoint getIterationBoundsFrom (op : MultiMmaOp) (i : nat)
    (iteratorTypes : list IteratorType) : Res (list Z) :=
  match iteratorTypes with
  | [] => Ret []
  | it :: rest =>
      b <- iterationBound op i it ;;
      bs <- getIterationBoundsFrom op (S i) rest ;;
      Ret (b :: bs)
  end.

(** [MultiMmaOp::getIterationBounds]. *)
Definition getIterationBounds (op : MultiMmaOp) : Res (list Z) :=
  getIterationBoundsFrom op 0 (getIteratorTypes op).

(** [MultiMmaOp::getShapeForUnroll]. *)
Definition getShapeForUnroll (op : MultiMmaOp) : Res (option (list Z)) :=
  shape <- getIterationBounds op ;;
  Ret (Some shape).

(** [ArrayRef::take_back]. *)
Definition take_back {A : Type} (n : nat) (l : list A) : list A :=
  skipn (length l - n) l.

Section Verify.

(** [linalg::inferContractionDims] belongs to the linalg library: only its
    success or failure on the three maps matters to the verifier. *)
Variable inferContractionDims : list AffineMap -> bool.

(** The body of the loop over the indexing maps of [MultiMmaOp::verify];
    [None] when the map passes. *)
Definition verifyIndexingMap (op : MultiMmaOp) (numIterators : nat)
    (index : nat) (m : AffineMap) : Res (option Diagnostic) :=
  if negb (Nat.eqb (getNumSymbols m) 0) then Ret (Some (ExpectedNoSymbols index))
  else
    operand <- getOperand op index ;;
    let shapedType := getType operand in
    let rank := length (getShape shapedType) in
    if negb (Nat.eqb (getNumDims m) numIterators)
    then Ret (Some (ExpectedNumberOfInputs index numIterators))
    else if Nat.leb rank (getNumResults m)
    then Ret (Some (ExpectedFewerOutputs index rank))
    else if negb (isProjectedPermutation m)
    then Ret (Some (ExpectedProjectedPermutation index))
    else if existsb isDynamic
              (take_back (rank - getNumResults m) (getShape shapedType))
    then Ret (Some (UnexpectedDynamicInnerDim index shapedType))
    else Ret None.

Fixpoint verifyIndexingMapsFrom (op : MultiMmaOp) (numIterators : nat)
    (index : nat) (maps : list AffineMap) : Res (option Diagnostic) :=
  match maps with
  | [] => Ret None
  | m :: rest =>
      r <- verifyIndexingMap op numIterators index m ;;
      match r with
      | Some d => Ret (Some d)
      | None => verifyIndexingMapsFrom op numIterators (S index) rest
      end
  end.

(** The lambda [verifyOperandShape]; [true] is its [success()].
    [llvm::zip] stops at the shorter of the map's results and the shape. *)
Fixpoint verifyOperandShape (bounds : list Z) (results : list AffineExpr)
    (shape : list Z) : Res bool :=
  match results, shape with
  | dim :: results', size :: shape' =>
      match dim with
      | AffineDimExpr dimIdx =>
          b <- index bounds (Z.of_nat dimIdx) ;;
          if negb (size =? b) then Ret false
          else verifyOperandShape bounds results' shape'
      | _ => Abort
      end
  | _, _ => Ret true
  end.

(** [MultiMmaOp::verify]. *)
Definition verify (op : MultiMmaOp) : Res LogicalResult :=
  let lhsType := getLhsType op in
  let rhsType := getRhsType op in
  let accType := getAccType op in
  let indexingMaps := getIndexingMapsArray op in
  if negb (Nat.eqb (length indexingMaps) 3)
  then Ret (failure ExpectedIndexingMapForEachOperand)
  else
    let numIterators := length (getIteratorTypes op) in
    r <- verifyIndexingMapsFrom op numIterators 0 indexingMaps ;;
    match r with
    | Some d => Ret (failure d)
    | None =>
        if negb (inferContractionDims indexingMaps)
        then Ret (failure FailedToInferContractionDims)
        else
          bounds <- getIterationBounds op ;;
          m0 <- index indexingMaps 0 ;;
          m1 <- index indexingMaps 1 ;;
          m2 <- index indexingMaps 2 ;;
          l <- verifyOperandShape bounds (getResults m0) (getShape lhsType) ;;
          if negb l then Ret (failure LhsShapeMismatch)
          else
            r <- verifyOperandShape bounds (getResults m1) (getShape rhsType) ;;
            if negb r then Ret (failure RhsShapeMismatch)
            else
              a <- verifyOperandShape bounds (getResults m2) (getShape accType) ;;
              if negb a then Ret (failure AccumulatorShapeMismatch)
              else
                let '(lType, rType, aType) := getABCElementTypes (getKind op) in
                if negb (ElementType_eqb lType (getElementType lhsType))
                then Ret (failure (LhsElementTypeMismatch
                                     (getElementType lhsType) lType))
                else if negb (ElementType_eqb rType (getElementType rhsType))
                then Ret (failure (RhsElementTypeMismatch
                                     (getElementType rhsType) rType))
                else if negb (ElementType_eqb aType (getElementType accType))
                then Ret (failure (AccumulatorElementTypeMismatch
                                     (getElementType accType) aType))
                else Ret success
    end.

End Verify.

(** [MultiMmaOp::build], the overload taking the attributes: the result type
    is the accumulator's. *)
Definition build (lhs rhs acc : Value) (indexingMaps : list AffineMap)
    (iteratorTypes : list IteratorType) (kind : MmaInterfaceAttr) : MultiMmaOp :=
  mkMultiMmaOp lhs rhs acc (getType acc) indexingMaps iteratorTypes kind.

(** [mlir::clone(rewriter, op, newResultTypes, newOperands)], the utility of
    the structured-operations support library: it is handed the operation, the
    new result type and the new operands and nothing else; the copy keeps
    every attribute of the operation. *)
Definition clone (op : MultiMmaOp) (newResultType : ShapedType)
    (newOperands : list Value) : Res MultiMmaOp :=
  match newOperands with
  | [lhs; rhs; acc] =>
      Ret (mkMultiMmaOp lhs rhs acc newResultType (getIndexingMapsArray op)
                        (getIteratorTypes op) (getKind op))
  | _ => Abort
  end.

(* ================================================================== *)
(** ** Vector operations and the pattern rewriter *)

Inductive Operation : Type :=
| ExtractStridedSliceOp (operand : Value) (offsets sizes strides : list Z)
| InsertStridedSliceOp (source dest : Value) (offsets strides : list Z)
| ExtractOp (operand : Value) (position : list Z)
| BroadcastOp (resultType : ShapedType) (source : Value)
| ConstantZeroOp (type : ShapedType)
| MultiMma (op : MultiMmaOp).

(** The result type each operation infers or is given. A strided slice takes
    the sizes for the leading dimensions and keeps the others; an extraction
    drops one leading dimension per position. *)
Definition resultType (o : Operation) : ShapedType :=
  match o with
  | ExtractStridedSliceOp operand _ sizes _ =>
      let t := getType operand in
      mkShapedType VectorKind (sizes ++ skipn (length sizes) (getShape t))
                   (getElementType t)
  | InsertStridedSliceOp _ dest _ _ => getType dest
  | ExtractOp operand position =>
      let t := getType operand in
      mkShapedType VectorKind (skipn (length position) (getShape t))
                   (getElementType t)
  | BroadcastOp t _ => t
  | ConstantZeroOp t => t
  | MultiMma op => getResultType op
  end.

(** The rewriter: the operations created so far, in order, each with its
    number, and the value the matched operation has been replaced with. *)
Record PatternRewriter : Type := mkPatternRewriter {
  nextOpId : nat;
  created : list (nat * Operation);
  replacement : option Value
}.

(** [rewriter.create<Op>(...)]. *)
Definition create (rewriter : PatternRewriter) (o : Operation) : Value * PatternRewriter :=
  let id := nextOpId rewriter in
  (mkValue (OpResult id 0) (resultType o),
   mkPatternRewriter (S id) (created rewriter ++ [(id, o)]) (replacement rewriter)).

(** [rewriter.replaceOp(op, value)]. *)
Definition replaceOp (rewriter : PatternRewriter) (v : Value) : PatternRewriter :=
  mkPatternRewriter (nextOpId rewriter) (created rewriter) (Some v).

(** [rewriter.notifyMatchFailure(op, reason)]: the rewriter is untouched. *)
Definition notifyMatchFailure (rewriter : PatternRewriter) (reason : string)
    : Res (LogicalResult * PatternRewriter) :=
  Ret (failure (MatchFailure reason), rewriter).

(* ================================================================== *)
(** ** MultiMmaOp unit dim folding *)

(** The lambda [dropLeadUnitDims]. *)
Definition dropLeadUnitDims (rewriter : PatternRewriter) (operand : Value)
    (numDims : nat) : Value * PatternRewriter :=
  if Nat.eqb numDims 0 then (operand, rewriter)
  else
    let droppedDimIndices := repeat 0 numDims in
    create rewriter (ExtractOp operand droppedDimIndices).

Definition isOne (b : Z) : bool := b =? 1.

(** [DropMultiMmaUnitDimsPattern::matchAndRewrite]. *)
Definition DropMultiMmaUnitDimsPattern (mmaOp : MultiMmaOp)
    (rewriter : PatternRewriter) : Res (LogicalResult * PatternRewriter) :=
  if hasTensorSemantics mmaOp
  then notifyMatchFailure rewriter "unimplemented: unit dim dropping for tensor mma ops"
  else
    bounds <- getIterationBounds mmaOp ;;
    match bounds with
    | [] => notifyMatchFailure rewriter "no dimensions to fold"
    | _ :: _ =>
        if negb (forallb isOne bounds)
        then notifyMatchFailure rewriter "not all iteration bounds are unit"
        else
          lhsOuterRank <- getLhsOuterRank mmaOp ;;
          let '(newLhs, rewriter) := dropLeadUnitDims rewriter (getLhs mmaOp) lhsOuterRank in
          rhsOuterRank <- getRhsOuterRank mmaOp ;;
          let '(newRhs, rewriter) := dropLeadUnitDims rewriter (getRhs mmaOp) rhsOuterRank in
          accOuterRank <- getAccOuterRank mmaOp ;;
          let '(newAcc, rewriter) := dropLeadUnitDims rewriter (getAcc mmaOp) accOuterRank in
          let empty := emptyAffineMap in
          let '(newMmaOp, rewriter) :=
            create rewriter
              (MultiMma (build newLhs newRhs newAcc [empty; empty; empty] []
                               (getKind mmaOp))) in
          let '(broadcast, rewriter) :=
            create rewriter (BroadcastOp (getResultType mmaOp) newMmaOp) in
          Ret (success, replaceOp rewriter broadcast)
    end.

(* ================================================================== *)
(** ** MultiMmaOp unrolling *)

Record UnrollVectorOptions : Type := mkUnrollVectorOptions {
  filterConstraint : option (MultiMmaOp -> LogicalResult);
  nativeShape : option (MultiMmaOp -> option (list Z));
  traversalOrderCallback : option (MultiMmaOp -> option (list Z))
}.

(** [getUnrollOrder]. *)
Definition getUnrollOrder (numLoops : nat) (op : MultiMmaOp)
    (options : UnrollVectorOptions) : list Z :=
  let loopOrder := map Z.of_nat (seq 0 numLoops) in
  match traversalOrderCallback options with
  | Some callback =>
      match callback op with
      | Some order => order
      | None => loopOrder
      end
  | None => loopOrder
  end.

(** The division of the aligned extents: [None] when one does not divide. *)
Fixpoint divideExtents (shape subShape : list Z) : option (list Z) :=
  match shape, subShape with
  | size :: shape', subSize :: subShape' =>
      if negb (Z.rem size subSize =? 0) then None
      else match divideExtents shape' subShape' with
           | Some ratio => Some (Z.quot size subSize :: ratio)
           | None => None
           end
  | _, _ => Some []
  end.

(** Modelled from the spec: the shape-ratio helper of the support library,
    not under src/ ("the shape ratio must be exactly divisible per-dimension
    (non-divisible ratios are a hard failure, not silently rounded)"). The
    sub-shape is aligned with the trailing extents of the shape; leading
    extents without a partner are kept. *)
Definition computeShapeRatio (shape subShape : list Z) : option (list Z) :=
  if Nat.ltb (length shape) (length subShape) then None
  else
    let lead := (length shape - length subShape)%nat in
    match divideExtents (skipn lead shape) subShape with
    | Some ratio => Some (firstn lead shape ++ ratio)
    | None => None
    end.

(** Suffix products: the stride of each position of a row-major space. *)
Fixpoint computeStrides (sizes : list Z) : list Z :=
  match sizes with
  | [] => []
  | _ :: rest => fold_right Z.mul 1 rest :: computeStrides rest
  end.

Fixpoint delinearize (linearIndex : Z) (strides : list Z) : list Z :=
  match strides with
  | [] => []
  | stride :: rest =>
      Z.quot linearIndex stride :: delinearize (Z.rem linearIndex stride) rest
  end.

Definition isPermutationVector (order : list Z) : bool :=
  forallb (fun i => existsb (Z.eqb (Z.of_nat i)) order) (seq 0 (length order)).

(** Position of [x] in the permutation vector. *)
Fixpoint positionOf (x : Z) (order : list Z) : nat :=
  match order with
  | [] => 0
  | y :: rest => if x =? y then 0%nat else S (positionOf x rest)
  end.

(** Modelled from the spec: the tile enumeration of the support library, not
    under src/ ("enumerate every integer coordinate of the bounds tiled by the
    target shape", in the given loop order, [loopOrder] listing the iterator
    positions from the outermost to the innermost loop). *)
Definition StaticTileOffsetRange (shape tileShape loopOrder : list Z)
    : Res (list (list Z)) :=
  match computeShapeRatio shape tileShape with
  | None => Abort
  | Some shapeRatio =>
      _ <- assert (isPermutationVector loopOrder &&
                   Nat.eqb (length loopOrder) (length shape)) ;;
      let paddedTileShape :=
        repeat 1 (length shape - length tileShape) ++ tileShape in
      let maxLinearIndex := fold_right Z.mul 1 shapeRatio in
      let permuted := map (fun i => nth (Z.to_nat i) shapeRatio 1) loopOrder in
      let sliceStrides := computeStrides permuted in
      Ret (map (fun linearIndex =>
                  let coords := delinearize (Z.of_nat linearIndex) sliceStrides in
                  map (fun i =>
                         nth (positionOf (Z.of_nat i) loopOrder) coords 0 *
                         nth i paddedTileShape 1)
                      (seq 0 (length shape)))
               (seq 0 (Z.to_nat maxLinearIndex)))
  end.

(** Equality of offset vectors, [OffsetMapInfo::isEqual]. *)
Fixpoint isEqual (lhs rhs : list Z) : bool :=
  match lhs, rhs with
  | [], [] => true
  | x :: lhs', y :: rhs' => (x =? y) && isEqual lhs' rhs'
  | _, _ => false
  end.

(** [accCache], an [llvm::MapVector]: the entries in insertion order. *)
Definition AccCache : Type := list (list Z * Value).

(** [accCache.find(key)]. *)
Fixpoint cacheFind (accCache : AccCache) (key : list Z) : option Value :=
  match accCache with
  | [] => None
  | (k, v) :: rest => if isEqual k key then Some v else cacheFind rest key
  end.

(** [accCache[key] = value]: an entry already present is overwritten where it
    stands, a new one is appended. *)
Fixpoint cacheSet (accCache : AccCache) (key : list Z) (value : Value) : AccCache :=
  match accCache with
  | [] => [(key, value)]
  | (k, v) :: rest =>
      if isEqual k key then (k, value) :: rest
      else (k, v) :: cacheSet rest key value
  end.

(** [cast<VectorType>(type)]. *)
Definition castVectorType (t : ShapedType) : Res ShapedType :=
  match container t with
  | VectorKind => Ret t
  | TensorKind => Abort
  end.

Section UnrollTile.

Variable mmaOp : MultiMmaOp.
Variable targetShape : list Z.
Variables lhsPermutationMap rhsPermutationMap accPermutationMap : AffineMap.
Variable innerAccShape : list Z.
Variable dstVecType : ShapedType.

(** The lambda [extractOperand]; the slice is returned instead of stored in
    [slicesOperands]. *)
Definition extractOperand (rewriter : PatternRewriter) (operand : Value)
    (permutationMap : AffineMap) (operandOffets : list Z)
    : Res (Value * PatternRewriter) :=
  operandShape <- applyPermutationMap permutationMap targetShape ;;
  let operandStrides := repeat 1 (length operandOffets) in
  Ret (create rewriter
         (ExtractStridedSliceOp operand operandOffets operandShape operandStrides)).

(** The body of the loop over the tile offsets. It returns [newOp] and its
    result with the rewriter and the cache. *)
Definition unrollTile (offsets : list Z) (state : PatternRewriter * AccCache)
    : Res (MultiMmaOp * Value * (PatternRewriter * AccCache)) :=
  let '(rewriter, accCache) := state in
  lhsOffets <- applyPermutationMap lhsPermutationMap offsets ;;
  '(lhsSlice, rewriter) <-
     extractOperand rewriter (getLhs mmaOp) lhsPermutationMap lhsOffets ;;
  rhsOffets <- applyPermutationMap rhsPermutationMap offsets ;;
  '(rhsSlice, rewriter) <-
     extractOperand rewriter (getRhs mmaOp) rhsPermutationMap rhsOffets ;;
  accOffets <- applyPermutationMap accPermutationMap offsets ;;
  '(accSlice, rewriter) <-
     match cacheFind accCache accOffets with
     | Some cached => Ret (cached, rewriter)
     | None => extractOperand rewriter (getAcc mmaOp) accPermutationMap accOffets
     end ;;
  dstShape <- applyPermutationMap accPermutationMap targetShape ;;
  let dstShape := dstShape ++ innerAccShape in
  let targetType := mkShapedType VectorKind dstShape (getElementType dstVecType) in
  newOp <- clone mmaOp targetType [lhsSlice; rhsSlice; accSlice] ;;
  let '(newResult, rewriter) := create rewriter (MultiMma newOp) in
  dstOffets <- applyPermutationMap accPermutationMap offsets ;;
  Ret (newOp, newResult, (rewriter, cacheSet accCache dstOffets newResult)).

(** The loop over the tile offsets; the operations cloned for the tiles are
    collected in order. *)
Fixpoint unrollTiles (tiles : list (list Z)) (state : PatternRewriter * AccCache)
    : Res (list (MultiMmaOp * Value) * (PatternRewriter * AccCache)) :=
  match tiles with
  | [] => Ret ([], state)
  | offsets :: rest =>
      '(newOp, newResult, state) <- unrollTile offsets state ;;
      '(newOps, state) <- unrollTiles rest state ;;
      Ret ((newOp, newResult) :: newOps, state)
  end.

(** The loop assembling the accumulator from the cache. *)
Fixpoint assemble (entries : AccCache) (result : Value) (rewriter : PatternRewriter)
    : Value * PatternRewriter :=
  match entries with
  | [] => (result, rewriter)
  | (offsets, partialResult) :: rest =>
      let dstStrides := repeat 1 (length offsets + length innerAccShape) in
      let fullOffsets := offsets ++ repeat 0 (length innerAccShape) in
      let '(result, rewriter) :=
        create rewriter
          (InsertStridedSliceOp partialResult result fullOffsets dstStrides) in
      assemble rest result rewriter
  end.

End UnrollTile.

(** [UnrollMultiMmaPattern::matchAndRewrite]. *)
Definition UnrollMultiMmaPattern (options : UnrollVectorOptions)
    (mmaOp : MultiMmaOp) (rewriter : PatternRewriter)
    : Res (LogicalResult * PatternRewriter) :=
  if match filterConstraint options with
     | Some filter => failed (filter mmaOp)
     | None => false
     end
  then notifyMatchFailure rewriter "unrolling filter"
  else
    match nativeShape options with
    | None => Abort
    | Some nativeShapeFn =>
        maybeUnrollShape <- getShapeForUnroll mmaOp ;;
        match maybeUnrollShape with
        | None => notifyMatchFailure rewriter "unexpected failure to get unroll shape"
        | Some unrollShape =>
            match nativeShapeFn mmaOp with
            | None => notifyMatchFailure rewriter "unspecified native unroll shape"
            | Some targetShape =>
                match computeShapeRatio unrollShape targetShape with
                | None =>
                    notifyMatchFailure rewriter
                      "operation unroll shape not divisible by target shape"
                | Some shapeRatio =>
                    if forallb isOne shapeRatio
                    then notifyMatchFailure rewriter
                           "operation already unrolled to native shape"
                    else
                      dstVecType <- castVectorType (getResultType mmaOp) ;;
                      let originalSize := unrollShape in
                      let loopOrder :=
                        getUnrollOrder (length (getIteratorTypes mmaOp)) mmaOp options in
                      lhsPermutationMap <- index (getIndexingMapsArray mmaOp) 0 ;;
                      rhsPermutationMap <- index (getIndexingMapsArray mmaOp) 1 ;;
                      accPermutationMap <- index (getIndexingMapsArray mmaOp) 2 ;;
                      innerAccShape <- getAccInnerShape mmaOp ;;
                      tiles <- StaticTileOffsetRange originalSize targetShape loopOrder ;;
                      '(_, (rewriter, accCache)) <-
                         unrollTiles mmaOp targetShape lhsPermutationMap
                           rhsPermutationMap accPermutationMap innerAccShape
                           dstVecType tiles (rewriter, []) ;;
                      let '(result, rewriter) :=
                        create rewriter (ConstantZeroOp dstVecType) in
                      let '(result, rewriter) :=
                        assemble innerAccShape accCache result rewriter in
                      Ret (success, replaceOp rewriter result)
                end
            end
        end
    end.

(* ================================================================== *)
(** ** Sample operations *)

Module Samples.

Definition d (i : nat) : AffineExpr := AffineDimExpr i.

Definition vec (shape : list Z) (t : ElementType) : ShapedType :=
  mkShapedType VectorKind shape t.

Definition mfma : MmaInterfaceAttr :=
  mkMmaInterfaceAttr (f16, f16, f32) (vec [4] f16, vec [4] f16, vec [4] f32).

(** Matrix multiplication over (i, j, k). *)
Definition lhsMap : AffineMap := mkAffineMap 3 0 [d 0; d 2].
Definition rhsMap : AffineMap := mkAffineMap 3 0 [d 2; d 1].
Definition accMap : AffineMap := mkAffineMap 3 0 [d 0; d 1].

Definition arg (n : nat) (t : ShapedType) : Value := mkValue (BlockArgument 0 n) t.

(** lhs 2x3 tiles, rhs 3x5 tiles, acc 2x5 tiles of 4 elements. *)
Definition matmul : MultiMmaOp :=
  mkMultiMmaOp (arg 0 (vec [2; 3; 4] f16)) (arg 1 (vec [3; 5; 4] f16))
               (arg 2 (vec [2; 5; 4] f32)) (vec [2; 5; 4] f32)
               [lhsMap; rhsMap; accMap] [parallel; parallel; reduction] mfma.

(** The same maps with iterator 1 declared a reduction: it is not among the
    results of the lhs map. *)
Definition badKinds : MultiMmaOp :=
  mkMultiMmaOp (arg 0 (vec [2; 3; 4] f16)) (arg 1 (vec [3; 5; 4] f16))
               (arg 2 (vec [2; 5; 4] f32)) (vec [2; 5; 4] f32)
               [lhsMap; rhsMap; accMap] [parallel; reduction; reduction] mfma.

(** A row of dot products over (i, k): i parallel, k a reduction. *)
Definition dot : MultiMmaOp :=
  mkMultiMmaOp (arg 0 (vec [2; 2; 4] f16)) (arg 1 (vec [2; 4] f16))
               (arg 2 (vec [2; 4] f32)) (vec [2; 4] f32)
               [mkAffineMap 2 0 [d 0; d 1]; mkAffineMap 2 0 [d 1]; mkAffineMap 2 0 [d 0]]
               [parallel; reduction] mfma.

(** Unrolling options with a fixed native shape and the default order. *)
Definition unrollTo (target : list Z) : UnrollVectorOptions :=
  mkUnrollVectorOptions None (Some (fun _ => Some target)) None.

Definition emptyRewriter : PatternRewriter := mkPatternRewriter 100 [] None.

(** The rewriter a pattern leaves on a sample, [emptyRewriter] when the
    pattern does not return. *)
Definition rewriterAfter (r : Res (LogicalResult * PatternRewriter)) : PatternRewriter :=
  match r with
  | Ret (_, rewriter) => rewriter
  | Abort => emptyRewriter
  end.

(** [dot] unrolled to the native shape [1, 1]. *)
Definition dotUnrolled : PatternRewriter :=
  rewriterAfter (UnrollMultiMmaPattern (unrollTo [1; 1]) dot emptyRewriter).

(** The operation cloned for the first tile of [dot]. *)
Definition dotFirstTile : MultiMmaOp :=
  match nth_error (created dotUnrolled) 3 with
  | Some (_, MultiMma op) => op
  | _ => dot
  end.

(** The maps of the matrix multiplication with iterator 0, an output of the
    accumulator map, declared a reduction. *)
Definition reductionInAcc : MultiMmaOp :=
  mkMultiMmaOp (arg 0 (vec [2; 3; 4] f16)) (arg 1 (vec [3; 5; 4] f16))
               (arg 2 (vec [2; 5; 4] f32)) (vec [2; 5; 4] f32)
               [lhsMap; rhsMap; accMap] [reduction; parallel; reduction] mfma.

(** A matrix multiplication already at the native shape: every bound is 1. *)
Definition unitMatmul : MultiMmaOp :=
  mkMultiMmaOp (arg 0 (vec [1; 1; 4] f16)) (arg 1 (vec [1; 1; 4] f16))
               (arg 2 (vec [1; 1; 4] f32)) (vec [1; 1; 4] f32)
               [lhsMap; rhsMap; accMap] [parallel; parallel; reduction] mfma.

End Samples.

(* ================================================================== *)
(** ** Vocabulary of the specification of the MultiMmaOp *)

(** Output number [j] of the map is the one matching dimension [d]: the
    first result that is the dimension expression [d]. *)
Definition matchingOutput (m : AffineMap) (d j : nat) : Prop :=
  nth_error (getResults m) j = Some (AffineDimExpr d) /\
  forall j', (j' < j)%nat -> nth_error (getResults m) j' <> Some (AffineDimExpr d).

(** [b] is the shape entry of [shape] at the output of map number [role]
    matching dimension [i]. *)
Definition shapeEntryAtMatchingOutput (op : MultiMmaOp) (role : nat)
    (shape : list Z) (i : nat) (b : Z) : Prop :=
  exists m j, nth_error (getIndexingMapsArray op) role = Some m /\
              matchingOutput m i j /\ nth_error shape j = Some b.

(** The bound of iterator position [i]: read from the lhs map and shape for a
    reduction, from the accumulator map and the result shape otherwise. *)
Definition boundAt (op : MultiMmaOp) (i : nat) (it : IteratorType) (b : Z) : Prop :=
  match it with
  | reduction => shapeEntryAtMatchingOutput op 0 (getShape (getLhsType op)) i b
  | parallel => shapeEntryAtMatchingOutput op 2 (getShape (getResultType op)) i b
  end.

(** The trailing, inner dimensions of the operand, those past the outputs of
    its map, are statically sized. *)
Definition innerDimsStatic (t : ShapedType) (m : AffineMap) : Prop :=
  forall j size, (getNumResults m <= j)%nat ->
    nth_error (getShape t) j = Some size -> size <> kDynamic.

(** Legality of one indexing map against its operand's type. *)
Definition mapLegal (numIterators : nat) (t : ShapedType) (m : AffineMap) : Prop :=
  getNumSymbols m = 0%nat /\
  isProjectedPermutation m = true /\
  getNumDims m = numIterators /\
  (getNumResults m < length (getShape t))%nat /\
  innerDimsStatic t m.

(** The outer shape of the operand, read through its map, matches the bounds
    dimension by dimension. *)
Definition outerShapeMatches (bounds : list Z) (t : ShapedType) (m : AffineMap) : Prop :=
  forall j d size,
    nth_error (getResults m) j = Some (AffineDimExpr d) ->
    nth_error (getShape t) j = Some size ->
    nth_error bounds d = Some size.

(** Each operand's element type is the intrinsic kind's type for its role. *)
Definition elementTypesMatch (op : MultiMmaOp) : Prop :=
  getABCElementTypes (getKind op) =
  (getElementType (getLhsType op), getElementType (getRhsType op),
   getElementType (getAccType op)).

(** The conditions of the verifier, as the specification lists them. *)
Definition Verified (inferContractionDims : list AffineMap -> bool)
    (op : MultiMmaOp) : Prop :=
  length (getIndexingMapsArray op) = 3%nat /\
  (forall i m, nth_error (getIndexingMapsArray op) i = Some m ->
     exists v, nth_error (getOperands op) i = Some v /\
               mapLegal (length (getIteratorTypes op)) (getType v) m) /\
  inferContractionDims (getIndexingMapsArray op) = true /\
  (exists bounds, getIterationBounds op = Ret bounds /\
     forall i m v, nth_error (getIndexingMapsArray op) i = Some m ->
       nth_error (getOperands op) i = Some v ->
       outerShapeMatches bounds (getType v) m) /\
  elementTypesMatch op.

(* ================================================================== *)
(** ** Vocabulary of the specification of the folding and unrolling patterns *)

(** The value an operation created under number [id] defines. *)
Definition resultOf (id : nat) (o : Operation) : Value :=
  mkValue (OpResult id 0) (resultType o).

(** What unit-dimension folding emits for operands of outer rank 2: one
    extraction at position [0, 0] per operand, the operation re-issued on the
    extracted operands with empty maps and no iterator, and the broadcast of
    its result to the original result type. *)
Definition foldedOuterRank2 (mmaOp : MultiMmaOp) (n : nat) : list (nat * Operation) :=
  let newLhs := ExtractOp (getLhs mmaOp) [0; 0] in
  let newRhs := ExtractOp (getRhs mmaOp) [0; 0] in
  let newAcc := ExtractOp (getAcc mmaOp) [0; 0] in
  let newMmaOp :=
    MultiMma (mkMultiMmaOp (resultOf n newLhs) (resultOf (n + 1) newRhs)
                (resultOf (n + 2) newAcc) (resultType newAcc)
                [emptyAffineMap; emptyAffineMap; emptyAffineMap] []
                (getKind mmaOp)) in
  [(n, newLhs); (n + 1, newRhs); (n + 2, newAcc); (n + 3, newMmaOp);
   (n + 4, BroadcastOp (getResultType mmaOp) (resultOf (n + 3) newMmaOp))]%nat.

(** The slice of [operand] a tile takes at [offsets], of the target shape
    read through the operand's map. *)
Definition sliceOp (operand : Value) (offsets sizes : list Z) : Operation :=
  ExtractStridedSliceOp operand offsets sizes (repeat 1 (length offsets)).

(** The type of the operation cloned for a tile. *)
Definition tileType (innerAccShape : list Z) (dstVecType : ShapedType)
    (dstShape : list Z) : ShapedType :=
  mkShapedType VectorKind (dstShape ++ innerAccShape) (getElementType dstVecType).

(** The operation cloned for a tile whose lhs and rhs slices are created under
    the numbers [n] and [n + 1], on the accumulator slice [accSlice]: the
    attributes are those of [mmaOp]. *)
Definition tileOp (mmaOp : MultiMmaOp) (innerAccShape : list Z)
    (dstVecType : ShapedType) (n : nat)
    (lhsOffets lhsShape rhsOffets rhsShape dstShape : list Z)
    (accSlice : Value) : MultiMmaOp :=
  mkMultiMmaOp (resultOf n (sliceOp (getLhs mmaOp) lhsOffets lhsShape))
               (resultOf (S n) (sliceOp (getRhs mmaOp) rhsOffets rhsShape))
               accSlice (tileType innerAccShape dstVecType dstShape)
               (getIndexingMapsArray mmaOp) (getIteratorTypes mmaOp) (getKind mmaOp).

(** One entry per processed tile: the accumulator-space offsets of the tile,
    the operation cloned for it and the result of that operation. *)
Definition TileTrace : Type := list (list Z * MultiMmaOp * Value).

Definition traceKey (x : list Z * MultiMmaOp * Value) : list Z := fst (fst x).
Definition traceOp (x : list Z * MultiMmaOp * Value) : MultiMmaOp := snd (fst x).
Definition traceResult (x : list Z * MultiMmaOp * Value) : Value := snd x.

(** The partial result memoized for the accumulator offsets [key] once the
    tiles of the trace have been processed: the result of the last of them
    with these offsets. *)
Fixpoint memoized (trace : TileTrace) (key : list Z) : option Value :=
  match trace with
  | [] => None
  | x :: rest =>
      match memoized rest key with
      | Some later => Some later
      | None => if isEqual (traceKey x) key then Some (traceResult x) else None
      end
  end.

(** The cache a trace leaves, from the cache [accCache]. *)
Definition cacheAfter (trace : TileTrace) (accCache : AccCache) : AccCache :=
  fold_left (fun c x => cacheSet c (traceKey x) (traceResult x)) trace accCache.

(** Two tile coordinates differ only in reduction-kind dimensions. *)
Definition differOnlyInReductionDims (iteratorTypes : list IteratorType)
    (c1 c2 : list Z) : Prop :=
  length c1 = length c2 /\
  forall d, nth_error iteratorTypes d <> Some reduction ->
            nth_error c1 d = nth_error c2 d.

(** No reduction-kind dimension is among the outputs of the map. *)
Definition noReductionAmongOutputs (iteratorTypes : list IteratorType)
    (m : AffineMap) : Prop :=
  forall d, In (AffineDimExpr d) (getResults m) ->
            nth_error iteratorTypes d <> Some reduction.

(** [InsertChain start inserts final]: the operations are strided insertions,
    the first into [start], each next one into the result of the one before,
    and [final] is the result of the last one ([start] when there is none). *)
Inductive InsertChain : Value -> list (nat * Operation) -> Value -> Prop :=
| InsertChain_nil (start : Value) : InsertChain start [] start
| InsertChain_cons (start final source : Value) (id : nat)
    (offsets strides : list Z) (rest : list (nat * Operation)) :
    InsertChain (resultOf id (InsertStridedSliceOp source start offsets strides))
                rest final ->
    InsertChain start
      ((id, InsertStridedSliceOp source start offsets strides) :: rest) final.

(** The source and the offsets of a strided insertion. *)
Definition insertedAt (o : nat * Operation) : option (Value * list Z) :=
  match snd o with
  | InsertStridedSliceOp source _ offsets _ => Some (source, offsets)
  | _ => None
  end.

(** What the loop does for one tile [x], the cache being [before] and
    [newCreated] the operations the loop creates: the accumulator operand of
    the cloned operation is the cached value for the tile's accumulator
    offsets, or else a fresh slice of the original accumulator at these
    offsets; the tile's result is the result of the cloned operation; the
    cloned operation has the attributes of [mmaOp]. *)
Definition tileEntry (mmaOp : MultiMmaOp) (targetShape : list Z)
    (lhsPermutationMap accPermutationMap : AffineMap) (innerAccShape : list Z)
    (dstVecType : ShapedType) (before : AccCache)
    (newCreated : list (nat * Operation)) (x : list Z * MultiMmaOp * Value) : Prop :=
  match cacheFind before (traceKey x) with
  | Some cached => getAcc (traceOp x) = cached
  | None =>
      exists id sizes,
        getAcc (traceOp x) =
          resultOf id (sliceOp (getAcc mmaOp) (traceKey x) sizes) /\
        In (id, sliceOp (getAcc mmaOp) (traceKey x) sizes) newCreated
  end /\
  (exists id, traceResult x = resultOf id (MultiMma (traceOp x)) /\
              In (id, MultiMma (traceOp x)) newCreated) /\
  (exists n lhsOffets lhsShape rhsOffets rhsShape dstShape,
     traceOp x = tileOp mmaOp innerAccShape dstVecType n lhsOffets lhsShape
                        rhsOffets rhsShape dstShape (getAcc (traceOp x)) /\
     applyPermutationMap lhsPermutationMap targetShape = Ret lhsShape /\
     applyPermutationMap accPermutationMap targetShape = Ret dstShape).

(** The operations cloned for the tiles among the operations created, in
    the order of their creation, each with the value it defines. *)
Fixpoint tileOperations (ops : list (nat * Operation)) : list (MultiMmaOp * Value) :=
  match ops with
  | [] => []
  | (id, o) :: rest =>
      match o with
      | MultiMma op => (op, resultOf id o) :: tileOperations rest
      | _ => tileOperations rest
      end
  end.

(** What the loop does for the tile at [offsets], [memo] being the value the
    memo table holds for the accumulator offsets of the tile when the tile is
    reached and [newCreated] the operations created. The slices of the lhs
    and of the rhs, at the offsets of the tile read through their maps and of
    the target shape read through the same maps, are created under the numbers
    [n] and [n + 1]. The accumulator operand is the memoized value, or else
    the slice of the original accumulator at the accumulator offsets of the
    tile, created under the number [n + 2]. The operation [traceOp x] of the
    tile is the clone of [mmaOp] on these three operands, of the native result
    type. *)
Definition tileStep (mmaOp : MultiMmaOp) (targetShape : list Z)
    (lhsPermutationMap rhsPermutationMap accPermutationMap : AffineMap)
    (innerAccShape : list Z) (dstVecType : ShapedType) (memo : option Value)
    (newCreated : list (nat * Operation)) (offsets : list Z)
    (x : list Z * MultiMmaOp * Value) : Prop :=
  exists n lhsOffets lhsShape rhsOffets rhsShape dstShape,
    applyPermutationMap lhsPermutationMap offsets = Ret lhsOffets /\
    applyPermutationMap lhsPermutationMap targetShape = Ret lhsShape /\
    applyPermutationMap rhsPermutationMap offsets = Ret rhsOffets /\
    applyPermutationMap rhsPermutationMap targetShape = Ret rhsShape /\
    applyPermutationMap accPermutationMap offsets = Ret (traceKey x) /\
    applyPermutationMap accPermutationMap targetShape = Ret dstShape /\
    In (n, sliceOp (getLhs mmaOp) lhsOffets lhsShape) newCreated /\
    In (S n, sliceOp (getRhs mmaOp) rhsOffets rhsShape) newCreated /\
    match memo with
    | Some cached => getAcc (traceOp x) = cached
    | None =>
        getAcc (traceOp x) =
          resultOf (S (S n)) (sliceOp (getAcc mmaOp) (traceKey x) dstShape) /\
        In (S (S n), sliceOp (getAcc mmaOp) (traceKey x) dstShape) newCreated
    end /\
    traceOp x =
      tileOp mmaOp innerAccShape dstVecType n lhsOffets lhsShape rhsOffets rhsShape
             dstShape (getAcc (traceOp x)).

(* ================================================================== *)
(** * Operations with regions: shuffle lowering and forall fusion *)

Module Regions.

(** Values are named by their definition; types are kept where the code
    copies them. *)
Abbreviation Value := ValueDef.

Definition Value_eqb (a b : Value) : bool :=
  match a, b with
  | BlockArgument o i, BlockArgument o' i' => Nat.eqb o o' && Nat.eqb i i'
  | OpResult o i, OpResult o' i' => Nat.eqb o o' && Nat.eqb i i'
  | _, _ => false
  end.

(** [OpFoldResult]: an integer attribute or a value. *)
Inductive OpFoldResult : Type :=
| Attr (value : Z)
| Val (v : Value).

(** An index computed by composed [affine.apply]s, over constants and values:
    [IMulAdd d0 d1 d2] is the map [d0 * d1 + d2] applied to its operands. *)
Inductive IndexExpr : Type :=
| IConst (c : Z)
| IValue (v : Value)
| IMulAdd (d0 d1 d2 : IndexExpr).

Definition ofOpFoldResult (x : OpFoldResult) : IndexExpr :=
  match x with
  | Attr c => IConst c
  | Val v => IValue v
  end.

#[warnings="-register-all"]
Inductive Operation : Type :=
| ConstantIndexOp (id : nat) (value : Z)
| AffineApplyOp (id : nat) (expr : IndexExpr)
| AffineDelinearizeIndexOp (id : nat) (linearIndex : Value) (basis : list Value)
| ExtractSliceOp (id : nat) (type : ShapedType) (source : Value)
    (offsets sizes strides : list OpFoldResult)
| InsertSliceOp (id : nat) (source dest : Value)
    (offsets sizes strides : list OpFoldResult)
| ParallelInsertSliceOp (id : nat) (source dest : Value)
    (offsets sizes strides : list OpFoldResult)
| InParallelOp (id : nat) (yieldingOps : list Operation)
| ShuffleTensorOp (id : nat) (type : ShapedType) (source dest : Value)
    (offsets sizes strides : list OpFoldResult) (body : list Operation)
| YieldOp (id : nat) (value : Value)
| ValueBarrierOp (id : nat) (input : Value)
| OtherOp (id : nat) (name : string) (operands : list Value)
    (body : list Operation).

Definition opId (o : Operation) : nat :=
  match o with
  | ConstantIndexOp id _ | AffineApplyOp id _ | AffineDelinearizeIndexOp id _ _
  | ExtractSliceOp id _ _ _ _ _ | InsertSliceOp id _ _ _ _ _
  | ParallelInsertSliceOp id _ _ _ _ _ | InParallelOp id _
  | ShuffleTensorOp id _ _ _ _ _ _ _ | YieldOp id _ | ValueBarrierOp id _
  | OtherOp id _ _ _ => id
  end.

(** [op->getResult(i)]. *)
Definition getResult (o : Operation) (i : nat) : Value := OpResult (opId o) i.

(** The argument [i] of the entry block of the region of operation [id]. *)
Definition getArgument (id : nat) (i : nat) : Value := BlockArgument id i.

(** ** Replacing uses *)

Section ReplaceUses.

Variable f : Value -> Value.

Definition mapOpFoldResult (x : OpFoldResult) : OpFoldResult :=
  match x with
  | Attr c => Attr c
  | Val v => Val (f v)
  end.

Fixpoint mapIndexExpr (e : IndexExpr) : IndexExpr :=
  match e with
  | IConst c => IConst c
  | IValue v => IValue (f v)
  | IMulAdd d0 d1 d2 => IMulAdd (mapIndexExpr d0) (mapIndexExpr d1) (mapIndexExpr d2)
  end.

(** The operands of the operation itself. *)
Definition mapOperands (o : Operation) : Operation :=
  match o with
  | ConstantIndexOp id c => ConstantIndexOp id c
  | AffineApplyOp id e => AffineApplyOp id (mapIndexExpr e)
  | AffineDelinearizeIndexOp id v basis =>
      AffineDelinearizeIndexOp id (f v) (map f basis)
  | ExtractSliceOp id t source offsets sizes strides =>
      ExtractSliceOp id t (f source) (map mapOpFoldResult offsets)
        (map mapOpFoldResult sizes) (map mapOpFoldResult strides)
  | InsertSliceOp id source dest offsets sizes strides =>
      InsertSliceOp id (f source) (f dest) (map mapOpFoldResult offsets)
        (map mapOpFoldResult sizes) (map mapOpFoldResult strides)
  | ParallelInsertSliceOp id source dest offsets sizes strides =>
      ParallelInsertSliceOp id (f source) (f dest) (map mapOpFoldResult offsets)
        (map mapOpFoldResult sizes) (map mapOpFoldResult strides)
  | InParallelOp id yielding => InParallelOp id yielding
  | ShuffleTensorOp id t source dest offsets sizes strides body =>
      ShuffleTensorOp id t (f source) (f dest) (map mapOpFoldResult offsets)
        (map mapOpFoldResult sizes) (map mapOpFoldResult strides) body
  | YieldOp id v => YieldOp id (f v)
  | ValueBarrierOp id v => ValueBarrierOp id (f v)
  | OtherOp id name operands body => OtherOp id name (map f operands) body
  end.

(** The operands of the operation and of every operation nested in it, the
    operations numbered in [except] being left as they are. *)
Fixpoint mapUses (except : list nat) (o : Operation) : Operation :=
  let top := fun o' : Operation =>
    if existsb (Nat.eqb (opId o')) except then o' else mapOperands o' in
  match o with
  | InParallelOp id yielding =>
      top (InParallelOp id (map (mapUses except) yielding))
  | ShuffleTensorOp id t source dest offsets sizes strides body =>
      top (ShuffleTensorOp id t source dest offsets sizes strides
             (map (mapUses except) body))
  | OtherOp id name operands body =>
      top (OtherOp id name operands (map (mapUses except) body))
  | _ => top o
  end.

End ReplaceUses.

(** [from] becomes [to]. *)
Definition substitute (from to : Value) (v : Value) : Value :=
  if Value_eqb v from then to else v.

(** The block arguments of the region of operation [owner] become the
    replacement values, in order. *)
Definition substituteArguments (owner : nat) (replacements : list Value)
    (v : Value) : Value :=
  match v with
  | BlockArgument o i =>
      if Nat.eqb o owner then nth i replacements v else v
  | OpResult _ _ => v
  end.

(** ** Uses *)

Fixpoint valuesOfIndexExpr (e : IndexExpr) : list Value :=
  match e with
  | IConst _ => []
  | IValue v => [v]
  | IMulAdd d0 d1 d2 =>
      valuesOfIndexExpr d0 ++ valuesOfIndexExpr d1 ++ valuesOfIndexExpr d2
  end.

Definition valuesOfOpFoldResult (x : OpFoldResult) : list Value :=
  match x with
  | Attr _ => []
  | Val v => [v]
  end.

(** [op->getOperands()]: the values the operation itself reads. *)
Definition operandsOf (o : Operation) : list Value :=
  match o with
  | ConstantIndexOp _ _ => []
  | AffineApplyOp _ e => valuesOfIndexExpr e
  | AffineDelinearizeIndexOp _ v basis => v :: basis
  | ExtractSliceOp _ _ source offsets sizes strides =>
      source :: flat_map valuesOfOpFoldResult offsets ++
      flat_map valuesOfOpFoldResult sizes ++ flat_map valuesOfOpFoldResult strides
  | InsertSliceOp _ source dest offsets sizes strides =>
      source :: dest :: flat_map valuesOfOpFoldResult offsets ++
      flat_map valuesOfOpFoldResult sizes ++ flat_map valuesOfOpFoldResult strides
  | ParallelInsertSliceOp _ source dest offsets sizes strides =>
      source :: dest :: flat_map valuesOfOpFoldResult offsets ++
      flat_map valuesOfOpFoldResult sizes ++ flat_map valuesOfOpFoldResult strides
  | InParallelOp _ _ => []
  | ShuffleTensorOp _ _ source dest offsets sizes strides _ =>
      source :: dest :: flat_map valuesOfOpFoldResult offsets ++
      flat_map valuesOfOpFoldResult sizes ++ flat_map valuesOfOpFoldResult strides
  | YieldOp _ v => [v]
  | ValueBarrierOp _ v => [v]
  | OtherOp _ _ operands _ => operands
  end.

(** The operation, or an operation nested in it, reads the value. *)
Fixpoint usesValue (v : Value) (o : Operation) : bool :=
  existsb (Value_eqb v) (operandsOf o) ||
  match o with
  | InParallelOp _ yielding => existsb (usesValue v) yielding
  | ShuffleTensorOp _ _ _ _ _ _ _ body => existsb (usesValue v) body
  | OtherOp _ _ _ body => existsb (usesValue v) body
  | _ => false
  end.

(** [op->getNumResults()]; an operation of another kind is taken with one
    result. *)
Definition numResultsOf (o : Operation) : nat :=
  match o with
  | YieldOp _ _ | InParallelOp _ _ | ParallelInsertSliceOp _ _ _ _ _ _ => 0
  | AffineDelinearizeIndexOp _ _ basis => length basis
  | _ => 1
  end.

(** ** The rewriter *)

(** The block the rewrite works in and the operation whose region it is; the
    number of the next operation; the operations outside the block: those
    around it, and those created at an insertion point that is not in the
    block (in an enclosing block, or in a block that has been erased); the
    numbers of the operations erased that were not in the block; and what a
    listener is notified of: every operation created, as it was created, and
    every block inlined and then erased, with its owner and the values given
    for its arguments. *)
Record Rewriter : Type := mkRewriter {
  nextId : nat;
  blockOwner : nat;
  block : list Operation;
  elsewhere : list Operation;
  erased : list nat;
  created : list Operation;
  inlined : list (nat * list Value)
}.

Definition setBlock (ops : list Operation) (rewriter : Rewriter) : Rewriter :=
  mkRewriter (nextId rewriter) (blockOwner rewriter) ops (elsewhere rewriter)
    (erased rewriter) (created rewriter) (inlined rewriter).

(** Where the next operation is created. *)
Inductive InsertionPoint : Type :=
| Before (id : nat)
| After (id : nat)
| StartOfBlock (owner : nat).

Fixpoint insertBefore (target : nat) (new : list Operation) (ops : list Operation)
    : option (list Operation) :=
  match ops with
  | [] => None
  | o :: rest =>
      if Nat.eqb (opId o) target then Some (new ++ o :: rest)
      else match insertBefore target new rest with
           | Some rest' => Some (o :: rest')
           | None => None
           end
  end.

Fixpoint insertAfter (target : nat) (new : list Operation) (ops : list Operation)
    : option (list Operation) :=
  match ops with
  | [] => None
  | o :: rest =>
      if Nat.eqb (opId o) target then Some (o :: new ++ rest)
      else match insertAfter target new rest with
           | Some rest' => Some (o :: rest')
           | None => None
           end
  end.

(** At the start of the body of the shuffle numbered [owner]. *)
Fixpoint insertAtStart (owner : nat) (new : list Operation) (ops : list Operation)
    : option (list Operation) :=
  match ops with
  | [] => None
  | o :: rest =>
      match o with
      | ShuffleTensorOp id t source dest offsets sizes strides body =>
          if Nat.eqb id owner
          then Some (ShuffleTensorOp id t source dest offsets sizes strides
                       (new ++ body) :: rest)
          else match insertAtStart owner new rest with
               | Some rest' => Some (o :: rest')
               | None => None
               end
      | _ => match insertAtStart owner new rest with
             | Some rest' => Some (o :: rest')
             | None => None
             end
      end
  end.

(** The block of the region of [owner] has been erased: blocks are erased
    once inlined. *)
Definition blockErased (owner : nat) (rewriter : Rewriter) : bool :=
  existsb (fun entry => Nat.eqb (fst entry) owner) (inlined rewriter).

(** The operations are inserted at the point when it lies in the block, and
    recorded as created elsewhere when it does not. *)
Definition insertAt (point : InsertionPoint) (new : list Operation)
    (rewriter : Rewriter) : Rewriter :=
  let placed :=
    match point with
    | Before id => insertBefore id new (block rewriter)
    | After id => insertAfter id new (block rewriter)
    | StartOfBlock owner =>
        if blockErased owner rewriter then None
        else if Nat.eqb owner (blockOwner rewriter)
        then Some (new ++ block rewriter)
        else insertAtStart owner new (block rewriter)
    end in
  match placed with
  | Some ops => setBlock ops rewriter
  | None => mkRewriter (nextId rewriter) (blockOwner rewriter) (block rewriter)
              (elsewhere rewriter ++ new) (erased rewriter)
              (created rewriter) (inlined rewriter)
  end.

(** [rewriter.create<Op>(...)] at the insertion point: the operation is built
    from its number. *)
Definition create (point : InsertionPoint) (mk : nat -> Operation)
    (rewriter : Rewriter) : Operation * Rewriter :=
  let o := mk (nextId rewriter) in
  let rewriter := insertAt point [o] rewriter in
  (o, mkRewriter (S (nextId rewriter)) (blockOwner rewriter) (block rewriter)
        (elsewhere rewriter) (erased rewriter) (created rewriter ++ [o])
        (inlined rewriter)).

(** The operation numbered [id] is the operation or is nested in it. *)
Fixpoint containsOp (id : nat) (o : Operation) : bool :=
  Nat.eqb (opId o) id ||
  match o with
  | InParallelOp _ yielding => existsb (containsOp id) yielding
  | ShuffleTensorOp _ _ _ _ _ _ _ body => existsb (containsOp id) body
  | OtherOp _ _ _ body => existsb (containsOp id) body
  | _ => false
  end.

(** The operation without the operation numbered [id] nested in it. *)
Fixpoint removeNested (id : nat) (o : Operation) : Operation :=
  let keep := fun o' : Operation => negb (Nat.eqb (opId o') id) in
  match o with
  | InParallelOp i yielding =>
      InParallelOp i (filter keep (map (removeNested id) yielding))
  | ShuffleTensorOp i t source dest offsets sizes strides body =>
      ShuffleTensorOp i t source dest offsets sizes strides
        (filter keep (map (removeNested id) body))
  | OtherOp i name operands body =>
      OtherOp i name operands (filter keep (map (removeNested id) body))
  | _ => o
  end.

Definition removeOp (id : nat) (ops : list Operation) : list Operation :=
  filter (fun o => negb (Nat.eqb (opId o) id)) (map (removeNested id) ops).

(** [op->use_empty()] for the operation numbered [id], of [numResults]
    results: no operation, in the block or outside, reads one of its
    results. *)
Definition use_empty (id numResults : nat) (rewriter : Rewriter) : bool :=
  forallb (fun i => negb (existsb (usesValue (OpResult id i))
                                  (block rewriter ++ elsewhere rewriter)))
          (seq 0 numResults).

(** [rewriter.eraseOp(op)], which asserts that the operation has no uses: the
    operation leaves the block; an operation that is not in the block is
    recorded as erased. *)
Definition eraseOp (id numResults : nat) (rewriter : Rewriter) : Res Rewriter :=
  _ <- assert (use_empty id numResults rewriter) ;;
  Ret (if existsb (containsOp id) (block rewriter)
       then setBlock (removeOp id (block rewriter)) rewriter
       else mkRewriter (nextId rewriter) (blockOwner rewriter) (block rewriter)
              (elsewhere rewriter) (erased rewriter ++ [id]) (created rewriter)
              (inlined rewriter)).

(** [rewriter.replaceAllUsesExcept(from, to, exceptedUser)], and
    [replaceAllUsesWith] when nothing is excepted. *)
Definition replaceAllUsesExcept (from to : Value) (except : list nat)
    (rewriter : Rewriter) : Rewriter :=
  mkRewriter (nextId rewriter) (blockOwner rewriter)
    (map (mapUses (substitute from to) except) (block rewriter))
    (map (mapUses (substitute from to) except) (elsewhere rewriter))
    (erased rewriter) (created rewriter) (inlined rewriter).

(** The operation numbered [id], in the operation or nested in it. *)
Fixpoint findIn (id : nat) (o : Operation) : option Operation :=
  let among := fix among (ops : list Operation) : option Operation :=
    match ops with
    | [] => None
    | o' :: rest =>
        match findIn id o' with
        | Some found => Some found
        | None => among rest
        end
    end in
  if Nat.eqb (opId o) id then Some o
  else match o with
       | InParallelOp _ yielding => among yielding
       | ShuffleTensorOp _ _ _ _ _ _ _ body => among body
       | OtherOp _ _ _ body => among body
       | _ => None
       end.

Fixpoint findOp (id : nat) (ops : list Operation) : option Operation :=
  match ops with
  | [] => None
  | o :: rest =>
      match findIn id o with
      | Some found => Some found
      | None => findOp id rest
      end
  end.

(** [g] applied to the operation numbered [id], wherever it is nested. *)
Fixpoint updateOp (id : nat) (g : Operation -> Operation) (o : Operation)
    : Operation :=
  let o' :=
    match o with
    | InParallelOp i yielding => InParallelOp i (map (updateOp id g) yielding)
    | ShuffleTensorOp i t source dest offsets sizes strides body =>
        ShuffleTensorOp i t source dest offsets sizes strides
          (map (updateOp id g) body)
    | OtherOp i name operands body =>
        OtherOp i name operands (map (updateOp id g) body)
    | _ => o
    end in
  if Nat.eqb (opId o) id then g o' else o'.

(** Before the operation numbered [target], wherever it is nested. *)
Fixpoint insertBeforeIn (target : nat) (new : list Operation) (o : Operation)
    : Operation :=
  let among := fix among (ops : list Operation) : list Operation :=
    match ops with
    | [] => []
    | o' :: rest =>
        if Nat.eqb (opId o') target then new ++ o' :: rest
        else insertBeforeIn target new o' :: among rest
    end in
  match o with
  | InParallelOp i yielding => InParallelOp i (among yielding)
  | ShuffleTensorOp i t source dest offsets sizes strides body =>
      ShuffleTensorOp i t source dest offsets sizes strides (among body)
  | OtherOp i name operands body => OtherOp i name operands (among body)
  | _ => o
  end.

Fixpoint insertBeforeNested (target : nat) (new : list Operation)
    (ops : list Operation) : list Operation :=
  match ops with
  | [] => []
  | o :: rest =>
      if Nat.eqb (opId o) target then new ++ o :: rest
      else insertBeforeIn target new o :: insertBeforeNested target new rest
  end.

(** [rewriter.moveOpBefore(op, existingOp)]: the operation, as the block has
    it, leaves its place and is put before the existing operation. *)
Definition moveOpBefore (op : Operation) (existingOp : nat) (rewriter : Rewriter)
    : Rewriter :=
  let current :=
    match findOp (opId op) (block rewriter) with
    | Some found => found
    | None => op
    end in
  setBlock (insertBeforeNested existingOp [current]
              (removeOp (opId op) (block rewriter))) rewriter.

(** [rewriter.setInsertionPointAfterValue(value)]: after the defining
    operation, or at the start of the block owning the argument. *)
Definition insertionPointAfterValue (v : Value) : InsertionPoint :=
  match v with
  | OpResult id _ => After id
  | BlockArgument owner _ => StartOfBlock owner
  end.

(** [op->getOperand(0)]. *)
Definition getOperand0 (o : Operation) : Res Value :=
  match o with
  | AffineDelinearizeIndexOp _ v _ => Ret v
  | ExtractSliceOp _ _ source _ _ _ => Ret source
  | InsertSliceOp _ source _ _ _ _ => Ret source
  | ParallelInsertSliceOp _ source _ _ _ _ => Ret source
  | ShuffleTensorOp _ _ source _ _ _ _ _ => Ret source
  | YieldOp _ v => Ret v
  | ValueBarrierOp _ v => Ret v
  | OtherOp _ _ (v :: _) _ => Ret v
  | AffineApplyOp _ (IValue v) => Ret v
  | _ => Abort
  end.

(** [block->getTerminator()]: the last operation of the block. *)
Definition getTerminator (body : list Operation) : Res Operation :=
  match rev body with
  | terminator :: _ => Ret terminator
  | [] => Abort
  end.

(** Sets the body of the shuffle numbered [id]; the other operations are left
    as they are. *)
Definition setShuffleBody (id : nat) (body : list Operation) (o : Operation)
    : Operation :=
  match o with
  | ShuffleTensorOp id' t source dest offsets sizes strides body' =>
      if Nat.eqb id' id
      then ShuffleTensorOp id' t source dest offsets sizes strides body
      else o
  | _ => o
  end.

(** [rewriter.inlineBlockBefore(body, op, argValues)] for the body of the
    operation [owner] of the block: the arguments of the body are replaced by
    the values, its operations move before the operation [before], and the
    emptied body block is erased. *)
Definition inlineBlockBefore (owner : nat) (body : list Operation)
    (before : nat) (argValues : list Value) (rewriter : Rewriter) : Rewriter :=
  let moved := map (mapUses (substituteArguments owner argValues) []) body in
  let rewriter := insertAt (Before before) moved rewriter in
  mkRewriter (nextId rewriter) (blockOwner rewriter)
    (map (setShuffleBody owner []) (block rewriter))
    (elsewhere rewriter) (erased rewriter) (created rewriter)
    (inlined rewriter ++ [(owner, argValues)]).

(* ================================================================== *)
(** ** ShuffleTensor lowering *)

(** The shuffle the pattern matched. *)
Record ShuffleTensor : Type := mkShuffleTensor {
  shuffleId : nat;
  shuffleType : ShapedType;
  getSource : Value;
  getDest : Value;
  getMixedOffsets : list OpFoldResult;
  getMixedSizes : list OpFoldResult;
  getMixedStrides : list OpFoldResult;
  getBody : list Operation
}.

Definition shuffleOperation (s : ShuffleTensor) : Operation :=
  ShuffleTensorOp (shuffleId s) (shuffleType s) (getSource s) (getDest s)
    (getMixedOffsets s) (getMixedSizes s) (getMixedStrides s) (getBody s).

(** [LowerShuffleTensor::matchAndRewrite]; the insertion point of a pattern
    is before the matched operation. *)
Definition LowerShuffleTensor (shuffleOp : ShuffleTensor) (rewriter : Rewriter)
    : Res (LogicalResult * Rewriter) :=
  let here := Before (shuffleId shuffleOp) in
  (* Step 1. Insert the source slice into the intermediate tensor. *)
  let sourceOffsets := getMixedOffsets shuffleOp in
  let sourceSizes := getMixedSizes shuffleOp in
  let sourceStrides := getMixedStrides shuffleOp in
  let '(insertedSlice, rewriter) :=
    create here
      (fun id => InsertSliceOp id (getSource shuffleOp) (getDest shuffleOp)
                   sourceOffsets sourceSizes sourceStrides) rewriter in
  (* Step 2. Synchronize the workers. *)
  let '(writeBarrier, rewriter) :=
    create here (fun id => ValueBarrierOp id (getResult insertedSlice 0)) rewriter in
  terminator <- getTerminator (getBody shuffleOp) ;;
  replacement <- getOperand0 terminator ;;
  let rewriter :=
    inlineBlockBefore (shuffleId shuffleOp) (getBody shuffleOp)
      (shuffleId shuffleOp) [getResult writeBarrier 0] rewriter in
  let point := insertionPointAfterValue replacement in
  (* Step 3. Synchronize the read value. *)
  let '(barrier, rewriter) :=
    create point (fun id => ValueBarrierOp id replacement) rewriter in
  let rewriter :=
    replaceAllUsesExcept (OpResult (shuffleId shuffleOp) 0) (getResult barrier 0)
      [] rewriter in
  rewriter <- eraseOp (opId terminator) (numResultsOf terminator) rewriter ;;
  Ret (success, rewriter).

(* ================================================================== *)
(** ** Forall fusion *)

(** The device mapping attributes of the axes of a loop. *)
Inductive DeviceMappingAttr : Type :=
| GPUThreadMappingAttr (dim : nat)
| GPUWarpMappingAttr (dim : nat)
| GPUBlockMappingAttr (dim : nat).

Definition DeviceMappingAttr_eqb (a b : DeviceMappingAttr) : bool :=
  match a, b with
  | GPUThreadMappingAttr x, GPUThreadMappingAttr y
  | GPUWarpMappingAttr x, GPUWarpMappingAttr y
  | GPUBlockMappingAttr x, GPUBlockMappingAttr y => Nat.eqb x y
  | _, _ => false
  end.

Fixpoint ArrayAttr_eqb (a b : list DeviceMappingAttr) : bool :=
  match a, b with
  | [], [] => true
  | x :: a', y :: b' => DeviceMappingAttr_eqb x y && ArrayAttr_eqb a' b'
  | _, _ => false
  end.

Definition isaGPUThreadMappingAttr (a : DeviceMappingAttr) : bool :=
  match a with GPUThreadMappingAttr _ => true | _ => false end.

Definition isaGPUWarpMappingAttr (a : DeviceMappingAttr) : bool :=
  match a with GPUWarpMappingAttr _ => true | _ => false end.

(** Modelled from the spec: the worker-parallel region, [scf.forall], whose
    declaration is not under src/: static bounds and steps with [kDynamic]
    where the entry is a value, the values of the dynamic entries, the mapping
    label of the axes, the outputs, the number of results and the body, whose
    block takes the induction variables and then one argument per output and
    ends with the [scf.forall.in_parallel] terminator. *)
Record ForallOp : Type := mkForallOp {
  forallId : nat;
  getStaticLowerBound : list Z;
  getStaticUpperBound : list Z;
  getStaticStep : list Z;
  getDynamicLowerBound : list Value;
  getDynamicUpperBound : list Value;
  getDynamicStep : list Value;
  getMappingAttr : list DeviceMappingAttr;
  getOutputs : list Value;
  getNumResults : nat;
  forallBody : list Operation
}.

Definition getRank (loop : ForallOp) : nat := length (getStaticLowerBound loop).

Definition getInductionVars (loop : ForallOp) : list Value :=
  map (getArgument (forallId loop)) (seq 0 (getRank loop)).

Definition getNumArguments (loop : ForallOp) : nat :=
  (getRank loop + length (getOutputs loop))%nat.

(** [getMixedValues]: the static entries as attributes, the next dynamic
    value at each [kDynamic]. *)
Fixpoint getMixedValues (staticValues : list Z) (dynamicValues : list Value)
    : Res (list OpFoldResult) :=
  match staticValues with
  | [] => Ret []
  | value :: rest =>
      if isDynamic value
      then match dynamicValues with
           | v :: dynamicValues' =>
               mixed <- getMixedValues rest dynamicValues' ;;
               Ret (Val v :: mixed)
           | [] => Abort
           end
      else mixed <- getMixedValues rest dynamicValues ;;
           Ret (Attr value :: mixed)
  end.

Definition getMixedLowerBound (loop : ForallOp) : Res (list OpFoldResult) :=
  getMixedValues (getStaticLowerBound loop) (getDynamicLowerBound loop).
Definition getMixedUpperBound (loop : ForallOp) : Res (list OpFoldResult) :=
  getMixedValues (getStaticUpperBound loop) (getDynamicUpperBound loop).
Definition getMixedStep (loop : ForallOp) : Res (list OpFoldResult) :=
  getMixedValues (getStaticStep loop) (getDynamicStep loop).

(** A signed 64-bit result. *)
Definition wrap64 (z : Z) : Z := (z + 2 ^ 63) mod 2 ^ 64 - 2 ^ 63.

(** [mlir::ceilDiv] of the support library, on the truncating division of
    C++; it asserts a divisor that is not 0. *)
Definition ceilDiv (lhs rhs : Z) : Res Z :=
  _ <- assert (negb (rhs =? 0)) ;;
  let x := if rhs >? 0 then -1 else 1 in
  Ret (if negb (lhs =? 0) && Bool.eqb (lhs >? 0) (rhs >? 0)
       then Z.quot (lhs + x) rhs + 1
       else - Z.quot (- lhs) rhs).

(** The loop of [getTripCount]; [llvm::zip_equal] asserts ranges of one
    length. *)
Fixpoint tripCountFrom (tripCount : Z) (lbs ubs steps : list Z) : Res Z :=
  match lbs, ubs, steps with
  | [], [], [] => Ret tripCount
  | lb :: lbs', ub :: ubs', step :: steps' =>
      count <- ceilDiv (wrap64 (ub - lb)) step ;;
      tripCountFrom (wrap64 (tripCount * count)) lbs' ubs' steps'
  | _, _, _ => Abort
  end.

(** [getTripCount]; [None] is its [failure()]. *)
Definition getTripCount (loop : ForallOp) : Res (option Z) :=
  let lbs := getStaticLowerBound loop in
  let ubs := getStaticUpperBound loop in
  let steps := getStaticStep loop in
  if isDynamicShape lbs || isDynamicShape ubs || isDynamicShape steps
  then Ret None
  else
    tripCount <- tripCountFrom 1 lbs ubs steps ;;
    Ret (Some tripCount).

(** The lambda [checkMappingTypes]. *)
Definition checkMappingTypes (array : list DeviceMappingAttr) : bool :=
  forallb isaGPUThreadMappingAttr array || forallb isaGPUWarpMappingAttr array.

(** [compareWorkerCountsAndTypes]; [true] is its [success()]. *)
Definition compareWorkerCountsAndTypes (producer consumer : ForallOp) : Res bool :=
  producerTripCount <- getTripCount producer ;;
  consumerTripCount <- getTripCount consumer ;;
  match producerTripCount, consumerTripCount with
  | Some p, Some c =>
      if negb (p =? c) then Ret false
      else if negb (ArrayAttr_eqb (getMappingAttr producer) (getMappingAttr consumer))
              || negb (checkMappingTypes (getMappingAttr producer))
              || negb (checkMappingTypes (getMappingAttr consumer))
      then Ret false
      else Ret true
  | _, _ => Ret false
  end.

Definition isExtractSlice (o : Operation) : bool :=
  match o with ExtractSliceOp _ _ _ _ _ _ => true | _ => false end.

(** [consumerChain.back()]. *)
Definition back (consumerChain : list Operation) : option Operation :=
  match rev consumerChain with
  | o :: _ => Some o
  | [] => None
  end.


(** [affine::makeComposedFoldedAffineApply] of the affine dialect utilities,
    on the map [d0 * d1 + d2] and the operands [linearId], [workerCount] and
    [inductionVar]. The id so far is kept with the expression, over constants
    and values, of the [affine.apply] that defines it (the value itself when
    none does): attributes are folded into the map and the map is composed
    with that expression. When the product [linearId * workerCount] folds to
    0 the map is the identity on the induction variable: the apply folds to
    the variable and no operation is created; otherwise the composed apply is
    created. *)
Definition foldsToInductionVar (linearId workerCount : OpFoldResult) : bool :=
  match linearId, workerCount with
  | Attr id, Attr count => id * count =? 0
  | Attr id, Val _ => id =? 0
  | Val _, Attr count => count =? 0
  | Val _, Val _ => false
  end.

Definition makeComposedFoldedAffineApply (point : InsertionPoint)
    (linearId : OpFoldResult * IndexExpr) (workerCount : OpFoldResult)
    (inductionVar : Value) (rewriter : Rewriter)
    : (OpFoldResult * IndexExpr) * Rewriter :=
  if foldsToInductionVar (fst linearId) workerCount
  then ((Val inductionVar, IValue inductionVar), rewriter)
  else
    let composed :=
      IMulAdd (snd linearId) (ofOpFoldResult workerCount) (IValue inductionVar) in
    let '(o, rewriter) := create point (fun id => AffineApplyOp id composed) rewriter in
    ((Val (getResult o 0), composed), rewriter).

(** The loop over the induction variables and the worker counts that computes
    the linear id. *)
Fixpoint computeLinearId (point : InsertionPoint)
    (linearId : OpFoldResult * IndexExpr) (axes : list (Value * OpFoldResult))
    (rewriter : Rewriter) : (OpFoldResult * IndexExpr) * Rewriter :=
  match axes with
  | [] => (linearId, rewriter)
  | (inductionVar, workerCount) :: rest =>
      let '(linearId, rewriter) :=
        makeComposedFoldedAffineApply point linearId workerCount inductionVar
                                      rewriter in
      computeLinearId point linearId rest rewriter
  end.

(** [getValueOrCreateConstantIndexOp]: the value, or a constant index created
    for the attribute. *)
Definition getValueOrCreateConstantIndexOp (point : InsertionPoint)
    (linearId : OpFoldResult) (rewriter : Rewriter) : Value * Rewriter :=
  match linearId with
  | Val v => (v, rewriter)
  | Attr c =>
      let '(o, rewriter) := create point (fun id => ConstantIndexOp id c) rewriter in
      (getResult o 0, rewriter)
  end.

(** The loop creating one constant index per worker count. *)
Fixpoint createRanges (point : InsertionPoint) (workerCounts : list Z)
    (rewriter : Rewriter) : list Value * Rewriter :=
  match workerCounts with
  | [] => ([], rewriter)
  | workerCount :: rest =>
      let '(o, rewriter) :=
        create point (fun id => ConstantIndexOp id workerCount) rewriter in
      let '(ranges, rewriter) := createRanges point rest rewriter in
      (getResult o 0 :: ranges, rewriter)
  end.

(** [replaceConsumerChain]. *)
Definition replaceConsumerChain (point : InsertionPoint) (rewriter : Rewriter)
    (source : Value) (parallelInsert : Operation)
    (consumerChain : list Operation) : Res Rewriter :=
  match back consumerChain, parallelInsert with
  | Some (ExtractSliceOp sliceId sliceType _ _ _ _ as extractSlice),
    ParallelInsertSliceOp _ piSource piDest piOffsets piSizes piStrides =>
      let '(shuffleOp, rewriter) :=
        create point
          (fun id => ShuffleTensorOp id sliceType piSource piDest piOffsets
                       piSizes piStrides []) rewriter in
      let '(terminator, rewriter) :=
        create (StartOfBlock (opId shuffleOp))
          (fun id => YieldOp id (getResult extractSlice 0)) rewriter in
      let rewriter :=
        fold_left (fun rw consumer => moveOpBefore consumer (opId terminator) rw)
                  consumerChain rewriter in
      let rewriter :=
        match consumerChain with
        | first :: _ =>
            setBlock
              (map (updateOp (opId first)
                      (mapOperands
                         (substitute source (getArgument (opId shuffleOp) 0))))
                   (block rewriter)) rewriter
        | [] => rewriter
        end in
      Ret (replaceAllUsesExcept (getResult extractSlice 0) (getResult shuffleOp 0)
             [opId terminator] rewriter)
  | _, _ => Abort
  end.

Section FuseForall.

(** The integer constant that defines a value, when one does. *)
Variable getConstantIntValue : Value -> option Z.

Definition isConstantIntValue (val : OpFoldResult) (cmp : Z) : bool :=
  match val with
  | Attr c => c =? cmp
  | Val v => match getConstantIntValue v with
             | Some c => c =? cmp
             | None => false
             end
  end.

(** The lambda [isAll]. *)
Definition isAll (array : list OpFoldResult) (cmp : Z) : bool :=
  forallb (fun val => isConstantIntValue val cmp) array.

(** The checks of [fuseForallIntoSlice] on the bounds: the steps and the
    lower bounds of both loops. *)
Definition boundsAreNormalized (producer consumer : ForallOp) : Res bool :=
  producerStep <- getMixedStep producer ;;
  if negb (isAll producerStep 1) then Ret false
  else
    producerLowerBound <- getMixedLowerBound producer ;;
    if negb (isAll producerLowerBound 0) then Ret false
    else
      consumerStep <- getMixedStep consumer ;;
      if negb (isAll consumerStep 1) then Ret false
      else
        consumerLowerBound <- getMixedLowerBound consumer ;;
        Ret (isAll consumerLowerBound 0).

(** The rewrite of [fuseForallIntoSlice], once the checks have passed. *)
Definition fuseRewrite (rewriter : Rewriter) (producer consumer : ForallOp)
    (consumerChain : list Operation) (slice : Operation) : Res Rewriter :=
  let here := Before (opId slice) in
  (* Step 1. Compute the producer IDs in terms of the consumer IDs. *)
  workerCounts <- getMixedUpperBound consumer ;;
  _ <- assert (Nat.eqb (length (getInductionVars consumer)) (length workerCounts)) ;;
  let '(linearId, rewriter) :=
    computeLinearId here (Attr 0, IConst 0)
      (combine (getInductionVars consumer) workerCounts) rewriter in
  let '(linearThreadIdVal, rewriter) :=
    getValueOrCreateConstantIndexOp here (fst linearId) rewriter in
  let '(ranges, rewriter) :=
    createRanges here (getStaticUpperBound producer) rewriter in
  let '(delinearize, rewriter) :=
    create here (fun id => AffineDelinearizeIndexOp id linearThreadIdVal ranges)
      rewriter in
  let newIds := map (getResult delinearize) (seq 0 (length ranges)) in
  (* Step 2. Inline the region of the producer. *)
  let bbArgReplacements := newIds ++ getOutputs producer in
  terminator <- getTerminator (forallBody producer) ;;
  _ <- assert (Nat.eqb (length bbArgReplacements) (getNumArguments producer)) ;;
  let rewriter :=
    inlineBlockBefore (forallId producer) (forallBody producer) (opId slice)
      bbArgReplacements rewriter in
  let terminator :=
    mapUses (substituteArguments (forallId producer) bbArgReplacements) []
      terminator in
  match terminator with
  | InParallelOp terminatorId (parallelInsert :: _) =>
      rewriter <-
        replaceConsumerChain (After terminatorId) rewriter
          (OpResult (forallId producer) 0) parallelInsert consumerChain ;;
      rewriter <- eraseOp (opId parallelInsert) (numResultsOf parallelInsert)
                          rewriter ;;
      rewriter <- eraseOp terminatorId 0 rewriter ;;
      rewriter <- eraseOp (forallId producer) (getNumResults producer) rewriter ;;
      Ret rewriter
  | _ => Abort
  end.

(** [fuseForallIntoSlice]. *)
Definition fuseForallIntoSlice (rewriter : Rewriter) (producer consumer : ForallOp)
    (consumerChain : list Operation) : Res (LogicalResult * Rewriter) :=
  match back consumerChain with
  | None => Ret (failure NoDiagnostic, rewriter)
  | Some slice =>
      if negb (isExtractSlice slice) then Ret (failure NoDiagnostic, rewriter)
      else if negb (Nat.eqb (getNumResults producer) 1)
      then Ret (failure NoDiagnostic, rewriter)
      else
        compared <- compareWorkerCountsAndTypes producer consumer ;;
        if negb compared then Ret (failure NoDiagnostic, rewriter)
        else
          normalized <- boundsAreNormalized producer consumer ;;
          if negb normalized then Ret (failure NoDiagnostic, rewriter)
          else
            rewriter <- fuseRewrite rewriter producer consumer consumerChain slice ;;
            Ret (success, rewriter)
  end.

End FuseForall.

(* ================================================================== *)
(** ** Vocabulary of the specification of the fusion *)

(** The loop has one lower bound, one upper bound and one step per axis. *)
Definition ranked (loop : ForallOp) : Prop :=
  length (getStaticUpperBound loop) = length (getStaticLowerBound loop) /\
  length (getStaticStep loop) = length (getStaticLowerBound loop).






(** The operations nested in the operation. *)
Definition nestedOps (o : Operation) : list Operation :=
  match o with
  | InParallelOp _ yielding => yielding
  | ShuffleTensorOp _ _ _ _ _ _ _ body => body
  | OtherOp _ _ _ body => body
  | _ => []
  end.

(** The numbers of the operation and of the operations nested in it. *)
Fixpoint allIds (o : Operation) : list nat :=
  opId o ::
  match o with
  | InParallelOp _ yielding => flat_map allIds yielding
  | ShuffleTensorOp _ _ _ _ _ _ _ body => flat_map allIds body
  | OtherOp _ _ _ body => flat_map allIds body
  | _ => []
  end.






(** ** Samples *)

Definition tensor4 : ShapedType := mkShapedType TensorKind [4] f32.

(** A block with the definitions of a source, a destination and an offset,
    the shuffle and a user of its result. *)
Definition blockAround (shuffleOp : ShuffleTensor) : list Operation :=
  [OtherOp 1 "source" [] []; OtherOp 2 "dest" [] []; OtherOp 3 "offset" [] [];
   shuffleOperation shuffleOp; OtherOp 20 "user" [OpResult 10 0] []].

Definition rewriterAround (shuffleOp : ShuffleTensor) : Rewriter :=
  mkRewriter 100 0 (blockAround shuffleOp) [] [] [] [].

(** A shuffle whose body reads a slice of the assembled tensor back. *)
Definition readBack : ShuffleTensor :=
  mkShuffleTensor 10 tensor4 (OpResult 1 0) (OpResult 2 0)
    [Val (OpResult 3 0)] [Attr 4] [Attr 1]
    [ExtractSliceOp 11 tensor4 (BlockArgument 10 0) [Attr 0] [Attr 4] [Attr 1];
     YieldOp 12 (OpResult 11 0)].

(** A shuffle whose body yields its block argument unchanged. *)
Definition identityShuffle : ShuffleTensor :=
  mkShuffleTensor 10 tensor4 (OpResult 1 0) (OpResult 2 0)
    [Val (OpResult 3 0)] [Attr 4] [Attr 1]
    [YieldOp 12 (BlockArgument 10 0)].

(** A producer over 4 threads: each worker computes a value from its id and
    writes it as one slice of the shared output. *)
Definition producer4 : ForallOp :=
  mkForallOp 30 [0] [4] [1] [] [] [] [GPUThreadMappingAttr 0] [OpResult 5 0] 1
    [OtherOp 31 "compute" [BlockArgument 30 0] [];
     InParallelOp 32
       [ParallelInsertSliceOp 33 (OpResult 31 0) (BlockArgument 30 1)
          [Val (BlockArgument 30 0)] [Attr 1] [Attr 1]]].

Definition slice41 : Operation :=
  ExtractSliceOp 41 tensor4 (OpResult 30 0) [Val (BlockArgument 40 0)] [Attr 1] [Attr 1].

(** A consumer over 4 threads whose body extracts a slice of the producer's
    result and uses it. *)
Definition consumer4 : ForallOp :=
  mkForallOp 40 [0] [4] [1] [] [] [] [GPUThreadMappingAttr 0] [OpResult 6 0] 1
    [slice41; OtherOp 42 "user" [OpResult 41 0] [];
     InParallelOp 43
       [ParallelInsertSliceOp 44 (OpResult 42 0) (BlockArgument 40 1)
          [Val (BlockArgument 40 0)] [Attr 1] [Attr 1]]].

(** The rewriter on the body of [consumer4]. *)
Definition consumerRewriter : Rewriter :=
  mkRewriter 100 40 (forallBody consumer4) [] [] [] [].

(** No value of the samples is defined by a constant. *)
Definition noConstants (v : Value) : option Z := None.

(** [consumer4] mapped to warps. *)
Definition consumerWarps : ForallOp :=
  mkForallOp 40 [0] [4] [1] [] [] [] [GPUWarpMappingAttr 0] [OpResult 6 0] 1
    (forallBody consumer4).



(* ================================================================== *)
(** ** Building a shuffle *)

(** [dispatchIndexOpFoldResults]: an attribute goes to the static entries; a
    value goes to the dynamic entries and leaves [kDynamic] among the static
    ones. *)
Fixpoint dispatchIndexOpFoldResults (ofrs : list OpFoldResult) : list Value * list Z :=
  match ofrs with
  | [] => ([], [])
  | ofr :: rest =>
      let '(dynamicVec, staticVec) := dispatchIndexOpFoldResults rest in
      match ofr with
      | Attr c => (dynamicVec, c :: staticVec)
      | Val v => (v :: dynamicVec, kDynamic :: staticVec)
      end
  end.

(** A shuffle as it is built: the result type, the operands, the static
    entries, and the block of its region, with the types of its arguments. *)
Record ShuffleTensorState : Type := mkShuffleTensorState {
  stateResultType : ShapedType;
  stateSource : Value;
  stateDest : Value;
  getOffsets : list Value;
  getSizes : list Value;
  getStrides : list Value;
  getStaticOffsets : list Z;
  getStaticSizes : list Z;
  getStaticStrides : list Z;
  blockArgumentTypes : list ShapedType;
  blockOperations : list Operation
}.

(** [ShuffleTensorOp::build] with mixed static and dynamic entries and an
    empty body; [destType] is the type of [dest]. *)
Definition ShuffleTensorOp_build (resultType : ShapedType) (source dest : Value)
    (destType : ShapedType) (offsets sizes strides : list OpFoldResult)
    : ShuffleTensorState :=
  let '(dynamicOffsets, staticOffsets) := dispatchIndexOpFoldResults offsets in
  let '(dynamicSizes, staticSizes) := dispatchIndexOpFoldResults sizes in
  let '(dynamicStrides, staticStrides) := dispatchIndexOpFoldResults strides in
  mkShuffleTensorState resultType source dest dynamicOffsets dynamicSizes
    dynamicStrides staticOffsets staticSizes staticStrides [destType] [].

(** The mixed entries of a built shuffle, read back. *)
Definition stateMixedOffsets (state : ShuffleTensorState) : Res (list OpFoldResult) :=
  getMixedValues (getStaticOffsets state) (getOffsets state).
Definition stateMixedSizes (state : ShuffleTensorState) : Res (list OpFoldResult) :=
  getMixedValues (getStaticSizes state) (getSizes state).
Definition stateMixedStrides (state : ShuffleTensorState) : Res (list OpFoldResult) :=
  getMixedValues (getStaticStrides state) (getStrides state).

End Regions.

(* ================================================================== *)
(** * Lowering to the intrinsic and vectorization of the MultiMmaOp *)

(** The operation unit-dimension folding re-issues for the sample
    [unitMatmul]. *)
Definition foldedUnitMatmul : MultiMmaOp :=
  match nth_error (created
                     (Samples.rewriterAfter
                        (DropMultiMmaUnitDimsPattern Samples.unitMatmul
                                                     Samples.emptyRewriter))) 3 with
  | Some (_, MultiMma op) => op
  | _ => Samples.unitMatmul
  end.

Module Lowering.

(** [Type::operator==] on shaped types. *)
Definition ShapedType_eqb (a b : ShapedType) : bool :=
  match container a, container b with
  | TensorKind, TensorKind | VectorKind, VectorKind => true
  | _, _ => false
  end && isEqual (getShape a) (getShape b) &&
  ElementType_eqb (getElementType a) (getElementType b).

(** A scalar value, such as the padding of a read. *)
Record Scalar : Type := mkScalar {
  scalarDef : ValueDef;
  scalarType : ElementType
}.

(** The operations the lowering and the vectorization create. The constant
    is the zero of its element type. *)
Inductive Operation : Type :=
| ShapeCastOp (resultType : ShapedType) (source : Value)
| IntrinsicOp (kind : MmaInterfaceAttr) (resultType : ShapedType) (a b c : Value)
| ConstantOp (type : ElementType)
| ConstantIndexOp (value : Z)
| TransferReadOp (resultType : ShapedType) (source : Value) (padding : Scalar)
| TransferWriteOp (vector source : Value) (indices : list ValueDef)
    (inBounds : list bool)
| MultiMma (op : MultiMmaOp).

Record PatternRewriter : Type := mkPatternRewriter {
  nextOpId : nat;
  created : list (nat * Operation);
  replacement : option Value
}.

(** [rewriter.create<Op>(...)]: the definition of the result. *)
Definition create (rewriter : PatternRewriter) (o : Operation)
    : ValueDef * PatternRewriter :=
  let id := nextOpId rewriter in
  (OpResult id 0,
   mkPatternRewriter (S id) (created rewriter ++ [(id, o)]) (replacement rewriter)).

(** [rewriter.replaceOp(op, value)]. *)
Definition replaceOp (rewriter : PatternRewriter) (v : Value) : PatternRewriter :=
  mkPatternRewriter (nextOpId rewriter) (created rewriter) (Some v).

(** [rewriter.notifyMatchFailure(op, reason)]. *)
Definition notifyMatchFailure (rewriter : PatternRewriter) (reason : string)
    : Res (LogicalResult * PatternRewriter) :=
  Ret (failure (MatchFailure reason), rewriter).

Section LowerMultiMma.

(** Modelled from the spec: the builder of the intrinsic kind, declared with
    the kind and not under src/ ("a builder that emits the concrete hardware
    call given operands already cast to native shape",
    [buildOp(ctx, resultType, a, b, c) -> value]). Whether it succeeds on
    given operands is the kind's affair. *)
Variable canBuild : MmaInterfaceAttr -> ShapedType -> Value -> Value -> Value -> bool.

Definition buildMmaOperation (kind : MmaInterfaceAttr) (rewriter : PatternRewriter)
    (resultType : ShapedType) (a b c : Value) : option (Value * PatternRewriter) :=
  if canBuild kind resultType a b c
  then let '(d, rewriter) := create rewriter (IntrinsicOp kind resultType a b c) in
       Some (mkValue d resultType, rewriter)
  else None.

(** The three conditional casts of [LowerMultiMmaPattern]: the operand is
    cast when its type is not the native vector type of its role. *)
Definition castToNative (rewriter : PatternRewriter) (operand : Value)
    (vectorType : ShapedType) : Value * PatternRewriter :=
  if negb (ShapedType_eqb (getType operand) vectorType)
  then let '(d, rewriter) := create rewriter (ShapeCastOp vectorType operand) in
       (mkValue d vectorType, rewriter)
  else (operand, rewriter).

(** [LowerMultiMmaPattern::matchAndRewrite]. *)
Definition LowerMultiMmaPattern (mmaOp : MultiMmaOp) (rewriter : PatternRewriter)
    : Res (LogicalResult * PatternRewriter) :=
  if hasTensorSemantics mmaOp
  then notifyMatchFailure rewriter "lowering to concrete op requires vector semantics"
  else
    bounds <- getIterationBounds mmaOp ;;
    match bounds with
    | _ :: _ => notifyMatchFailure rewriter "must be a single mma operation"
    | [] =>
        let '(lhsVectorType, rhsVectorType, accVectorType) :=
          getABCVectorTypes (getKind mmaOp) in
        let '(aCast, rewriter) := castToNative rewriter (getLhs mmaOp) lhsVectorType in
        let '(bCast, rewriter) := castToNative rewriter (getRhs mmaOp) rhsVectorType in
        let '(cCast, rewriter) := castToNative rewriter (getAcc mmaOp) accVectorType in
        match buildMmaOperation (getKind mmaOp) rewriter (getType cCast)
                                aCast bCast cCast with
        | None => Abort
        | Some (concreteMmaOp, rewriter) =>
            let resultType := getType (getAcc mmaOp) in
            let '(d, rewriter) :=
              create rewriter (ShapeCastOp resultType concreteMmaOp) in
            Ret (success, replaceOp rewriter (mkValue d resultType))
        end
    end.

End LowerMultiMma.

(** [ShapedType::hasStaticShape]. *)
Definition hasStaticShape (t : ShapedType) : bool := negb (isDynamicShape (getShape t)).

Section Vectorize.

(** [vector::createReadOrMaskedRead] of the vector utilities, called with
    [useInBoundsInsteadOfMasking]: the read of the source as a vector of the
    given shape, padded with the given value. What it creates is the
    utility's affair. *)
Variable createReadOrMaskedRead :
  PatternRewriter -> Value -> list Z -> Scalar -> Value * PatternRewriter.

(** [rewriter.create<arith::ConstantOp>(loc, rewriter.getZeroAttr(type))]. *)
Definition createZero (rewriter : PatternRewriter) (type : ElementType)
    : Scalar * PatternRewriter :=
  let '(d, rewriter) := create rewriter (ConstantOp type) in
  (mkScalar d type, rewriter).

(** [vectorizeStaticMultiMmaOp]. *)
Definition vectorizeStaticMultiMmaOp (rewriter : PatternRewriter) (mmaOp : MultiMmaOp)
    : Res (LogicalResult * PatternRewriter) :=
  if negb (hasTensorSemantics mmaOp) then Ret (failure NoDiagnostic, rewriter)
  else if negb (hasStaticShape (getLhsType mmaOp)) ||
          negb (hasStaticShape (getRhsType mmaOp)) ||
          negb (hasStaticShape (getAccType mmaOp))
  then notifyMatchFailure rewriter "non-static shape for vectorization"
  else
    (* Construct the (never used) zero padding value for each operand. *)
    let '(lhsPadValue, rewriter) :=
      createZero rewriter (getElementType (getLhsType mmaOp)) in
    let '(rhsPadValue, rewriter) :=
      createZero rewriter (getElementType (getRhsType mmaOp)) in
    let resultElementType := getElementType (getResultType mmaOp) in
    let '(accPadValue, rewriter) := createZero rewriter resultElementType in
    let '(lhs, rewriter) :=
      createReadOrMaskedRead rewriter (getLhs mmaOp) (getShape (getLhsType mmaOp))
                             lhsPadValue in
    let '(rhs, rewriter) :=
      createReadOrMaskedRead rewriter (getRhs mmaOp) (getShape (getRhsType mmaOp))
                             rhsPadValue in
    let '(acc, rewriter) :=
      createReadOrMaskedRead rewriter (getAcc mmaOp) (getShape (getAccType mmaOp))
                             accPadValue in
    let newMmaOp :=
      build lhs rhs acc (getIndexingMapsArray mmaOp) (getIteratorTypes mmaOp)
            (getKind mmaOp) in
    let '(d, rewriter) := create rewriter (MultiMma newMmaOp) in
    let newResult := mkValue d (getResultType newMmaOp) in
    (* Create the write back to a tensor. *)
    let rank := length (getShape (getResultType mmaOp)) in
    let '(zero, rewriter) := create rewriter (ConstantIndexOp 0) in
    let '(d, rewriter) :=
      create rewriter
        (TransferWriteOp newResult (getAcc mmaOp) (repeat zero rank)
                         (repeat true rank)) in
    Ret (success, replaceOp rewriter (mkValue d (getType (getAcc mmaOp)))).

End Vectorize.

(** A reader for the samples: one [vector.transfer_read] of the source, of
    the given shape and of the type of the padding. *)
Definition sampleRead (rewriter : PatternRewriter) (source : Value)
    (readShape : list Z) (padValue : Scalar) : Value * PatternRewriter :=
  let t := mkShapedType VectorKind readShape (scalarType padValue) in
  let '(d, rewriter) := create rewriter (TransferReadOp t source padValue) in
  (mkValue d t, rewriter).

Definition emptyRewriter : PatternRewriter := mkPatternRewriter 200 [] None.

(** The matrix multiplication of the samples on tensors. *)
Definition tensorMatmul : MultiMmaOp :=
  let tensor := fun shape t => mkShapedType TensorKind shape t in
  mkMultiMmaOp (Samples.arg 0 (tensor [2; 3; 4] f16)) (Samples.arg 1 (tensor [3; 5; 4] f16))
               (Samples.arg 2 (tensor [2; 5; 4] f32)) (tensor [2; 5; 4] f32)
               [Samples.lhsMap; Samples.rhsMap; Samples.accMap]
               [parallel; parallel; reduction] Samples.mfma.

End Lowering.

(* ================================================================== *)
(** * Properties *)

Unset Implicit Arguments.

(** ** The [Res] monad and equality tests *)

Lemma bind_Ret_inv {A B : Type} (m : Res A) (k : A -> Res B) (b : B) :
  bind m k = Ret b -> exists a, m = Ret a /\ k a = Ret b.
Proof.
  destruct m as [a|]; simpl; intros H; [exists a; auto | discriminate].
Qed.

Lemma assert_Ret_inv (c : bool) (u : unit) : assert c = Ret u -> c = true.
Proof. destruct c; simpl; [reflexivity | discriminate]. Qed.

Lemma index_Ret_inv {A : Type} (l : list A) (i : Z) (a : A) :
  index l i = Ret a -> 0 <= i /\ nth_error l (Z.to_nat i) = Some a.
Proof.
  unfold index. destruct (Z.ltb_spec i 0) as [Hlt|Hge]; [discriminate|].
  destruct (nth_error l (Z.to_nat i)) eqn:E; [|discriminate].
  intros H; inversion H; subst; auto.
Qed.

Lemma index_of_nat {A : Type} (l : list A) (n : nat) (a : A) :
  nth_error l n = Some a -> index l (Z.of_nat n) = Ret a.
Proof.
  intros H. unfold index.
  destruct (Z.ltb_spec (Z.of_nat n) 0) as [Hlt|Hge]; [lia|].
  rewrite Nat2Z.id, H. reflexivity.
Qed.

Lemma ElementType_eqb_eq (a b : ElementType) :
  ElementType_eqb a b = true <-> a = b.
Proof. destruct a, b; simpl; split; intros H; try reflexivity; discriminate. Qed.

Lemma AffineExpr_eqb_eq (a b : AffineExpr) : AffineExpr_eqb a b = true <-> a = b.
Proof.
  revert b. induction a as [p|p|v|k l IHl r IHr]; intros [q|q|w|k' l' r']; simpl;
    try (split; intros H; discriminate).
  - rewrite Nat.eqb_eq. split; intros H; [subst|inversion H]; reflexivity.
  - rewrite Nat.eqb_eq. split; intros H; [subst|inversion H]; reflexivity.
  - rewrite Z.eqb_eq. split; intros H; [subst|inversion H]; reflexivity.
  - rewrite !andb_true_iff, IHl, IHr. split.
    + intros [[Hk ->] ->]. destruct k, k'; simpl in Hk; try discriminate; reflexivity.
    + intros H; inversion H; subst. repeat split. destruct k'; reflexivity.
Qed.

(** ** Sample runs *)

Module SampleRuns.
Import Samples.

Example matmul_bounds : getIterationBounds matmul = Ret [2; 5; 3].
Proof. reflexivity. Qed.

Example badKinds_bounds : getIterationBounds badKinds = Abort.
Proof. reflexivity. Qed.

Example matmul_verify : verify (fun _ => true) matmul = Ret success.
Proof. reflexivity. Qed.

Example matmul_verify_contraction :
  verify (fun _ => false) matmul = Ret (failure FailedToInferContractionDims).
Proof. reflexivity. Qed.

End SampleRuns.

(* ================================================================== *)
(** ** Iteration bounds *)

Lemma getResultIndexFrom_spec (results : list AffineExpr) (target : AffineExpr) :
  forall i, 0 <= i ->
  (getResultIndexFrom i results target = -1 /\
   forall j, nth_error results j <> Some target) \/
  (exists j, getResultIndexFrom i results target = i + Z.of_nat j /\
             nth_error results j = Some target /\
             forall j', (j' < j)%nat -> nth_error results j' <> Some target).
Proof.
  induction results as [|e rest IH]; intros i Hi; simpl.
  - left. split; [reflexivity|]. intros [|j]; discriminate.
  - destruct (AffineExpr_eqb target e) eqn:E.
    + apply AffineExpr_eqb_eq in E. subst e. right. exists 0%nat.
      repeat split; [lia | intros j' Hj'; lia].
    + assert (Hne : target <> e).
      { intros ->. assert (AffineExpr_eqb e e = true) by (apply AffineExpr_eqb_eq; reflexivity).
        congruence. }
      destruct (IH (i + 1)) as [[Hr Hno]|[j [Hr [Hj Hfirst]]]]; [lia| |].
      * left. split; [exact Hr|]. intros [|j]; simpl; [congruence | apply Hno].
      * right. exists (S j). repeat split; [lia | exact Hj |].
        intros [|j'] Hlt; simpl; [congruence | apply Hfirst; lia].
Qed.

Lemma matchingOutput_unique (m : AffineMap) (d j1 j2 : nat) :
  matchingOutput m d j1 -> matchingOutput m d j2 -> j1 = j2.
Proof.
  intros [H1 F1] [H2 F2].
  destruct (Nat.lt_trichotomy j1 j2) as [Hlt|[Heq|Hgt]]; [|exact Heq|].
  - exfalso. exact (F2 j1 Hlt H1).
  - exfalso. exact (F1 j2 Hgt H2).
Qed.

Lemma getResultIndex_found (m : AffineMap) (d : nat) (r : Z) :
  getResultIndex m (AffineDimExpr d) = r -> 0 <= r ->
  matchingOutput m d (Z.to_nat r).
Proof.
  unfold getResultIndex. intros Hr Hpos.
  destruct (getResultIndexFrom_spec (getResults m) (AffineDimExpr d) 0) as
    [[Hm _]|[j [Hj [Hn Hf]]]]; [lia | lia |].
  rewrite Hj in Hr. subst r. simpl. rewrite Nat2Z.id. split; assumption.
Qed.

Lemma getResultIndex_matching (m : AffineMap) (d j : nat) :
  matchingOutput m d j -> getResultIndex m (AffineDimExpr d) = Z.of_nat j.
Proof.
  intros Hm. unfold getResultIndex.
  destruct (getResultIndexFrom_spec (getResults m) (AffineDimExpr d) 0) as
    [[_ Hno]|[j' [Hj' [Hn Hf]]]]; [lia | |].
  - exfalso. destruct Hm as [Hm _]. exact (Hno j Hm).
  - rewrite Hj'. simpl. f_equal.
    apply (matchingOutput_unique m d); [split; assumption | exact Hm].
Qed.

Lemma index_nth_error {A : Type} (l : list A) (n : nat) (a : A) :
  index l (Z.of_nat n) = Ret a <-> nth_error l n = Some a.
Proof.
  split; [|apply index_of_nat].
  intros H. apply index_Ret_inv in H. rewrite Nat2Z.id in H. apply H.
Qed.

Lemma shapeEntry_code (op : MultiMmaOp) (role : nat) (shape : list Z) (i : nat) (b : Z) :
  (m <- index (getIndexingMapsArray op) (Z.of_nat role) ;;
   _ <- assert (getResultIndex m (AffineDimExpr i) >=? 0) ;;
   index shape (getResultIndex m (AffineDimExpr i))) = Ret b
  <-> shapeEntryAtMatchingOutput op role shape i b.
Proof.
  split.
  - intros H. apply bind_Ret_inv in H. destruct H as [m [Hm H]].
    apply bind_Ret_inv in H. destruct H as [u [Ha H]].
    apply assert_Ret_inv in Ha. apply Z.geb_le in Ha.
    apply index_Ret_inv in H. destruct H as [_ H].
    exists m, (Z.to_nat (getResultIndex m (AffineDimExpr i))).
    apply index_nth_error in Hm.
    repeat split; try assumption; apply (getResultIndex_found m i _ eq_refl Ha).
  - intros [m [j [Hm [Hmatch Hb]]]].
    apply index_nth_error in Hm. rewrite Hm. simpl.
    rewrite (getResultIndex_matching m i j Hmatch).
    assert (Hge : (Z.of_nat j >=? 0) = true) by (apply Z.geb_le; lia).
    rewrite Hge. simpl. apply index_nth_error. exact Hb.
Qed.

Lemma iterationBound_spec (op : MultiMmaOp) (i : nat) (it : IteratorType) (b : Z) :
  iterationBound op i it = Ret b <-> boundAt op i it b.
Proof.
  destruct it; simpl.
  - apply (shapeEntry_code op 2 (getShape (getResultType op)) i b).
  - apply (shapeEntry_code op 0 (getShape (getLhsType op)) i b).
Qed.

Lemma getIterationBoundsFrom_spec (op : MultiMmaOp) (its : list IteratorType) :
  forall (i : nat) (bounds : list Z),
  getIterationBoundsFrom op i its = Ret bounds <->
  (length bounds = length its /\
   forall k it, nth_error its k = Some it ->
     exists b, nth_error bounds k = Some b /\ boundAt op (i + k) it b).
Proof.
  induction its as [|it rest IH]; intros i bounds; simpl.
  - split.
    + intros H. inversion H. split; [reflexivity|]. intros [|k] it'; discriminate.
    + intros [Hlen _]. destruct bounds; [reflexivity | discriminate].
  - split.
    + intros H. apply bind_Ret_inv in H. destruct H as [b [Hb H]].
      apply bind_Ret_inv in H. destruct H as [bs [Hbs H]].
      inversion H; subst bounds. apply IH in Hbs. destruct Hbs as [Hlen Hall].
      split; [simpl; congruence|].
      intros [|k] it' Hk; simpl in Hk.
      * inversion Hk; subst it'. exists b. split; [reflexivity|].
        rewrite Nat.add_0_r. apply iterationBound_spec. exact Hb.
      * destruct (Hall k it' Hk) as [b' [Hn Hbd]]. exists b'. split; [exact Hn|].
        replace (i + S k)%nat with (S i + k)%nat by lia. exact Hbd.
    + intros [Hlen Hall]. destruct bounds as [|b bs]; [discriminate|].
      destruct (Hall 0%nat it eq_refl) as [b0 [Hb0 Hbd]].
      simpl in Hb0. inversion Hb0; subst b0.
      rewrite Nat.add_0_r in Hbd. apply iterationBound_spec in Hbd. rewrite Hbd. simpl.
      assert (Hrest : getIterationBoundsFrom op (S i) rest = Ret bs).
      { apply IH. split; [simpl in Hlen; congruence|].
        intros k it' Hk. destruct (Hall (S k) it' Hk) as [b' [Hn Hb']].
        exists b'. split; [exact Hn|].
        replace (S i + k)%nat with (i + S k)%nat by lia. exact Hb'. }
      rewrite Hrest. reflexivity.
Qed.

(** C5. The sequence derived by [getIterationBounds] is exactly the one with
    one entry per iterator position, in declared order, whose entry at a
    reduction position is the lhs shape entry at the lhs map output matching
    that dimension, and at a parallel position the result shape entry at the
    accumulator map output matching that dimension. *)
Theorem getIterationBounds_spec (op : MultiMmaOp) (bounds : list Z) :
  getIterationBounds op = Ret bounds <->
  (length bounds = length (getIteratorTypes op) /\
   forall i it, nth_error (getIteratorTypes op) i = Some it ->
     exists b, nth_error bounds i = Some b /\ boundAt op i it b).
Proof.
  unfold getIterationBounds. apply (getIterationBoundsFrom_spec op (getIteratorTypes op) 0).
Qed.

(* ================================================================== *)
(** ** The verifier *)

Lemma existsb_skipn_false {A : Type} (f : A -> bool) (l : list A) :
  forall k, existsb f (skipn k l) = false <->
  (forall j x, (k <= j)%nat -> nth_error l j = Some x -> f x = false).
Proof.
  induction l as [|a l IH]; intros k.
  - rewrite skipn_nil. simpl. split; [|reflexivity].
    intros _ [|j] x _ Hx; discriminate.
  - destruct k as [|k].
    + simpl. rewrite orb_false_iff. split.
      * intros [Ha Hl] [|j] x _ Hx; simpl in Hx.
        -- inversion Hx; subst; exact Ha.
        -- apply (proj1 (IH 0%nat) Hl j x); [lia | exact Hx].
      * intros H. split; [apply (H 0%nat a); [lia | reflexivity]|].
        apply (IH 0%nat). intros j x _ Hx. apply (H (S j) x); [lia | exact Hx].
    + simpl. rewrite IH. split.
      * intros H [|j] x Hk Hx; [lia|]. simpl in Hx. apply (H j x); [lia | exact Hx].
      * intros H j x Hk Hx. apply (H (S j) x); [lia | exact Hx].
Qed.

Lemma isDynamic_false (size : Z) : isDynamic size = false <-> size <> kDynamic.
Proof. unfold isDynamic. apply Z.eqb_neq. Qed.

Lemma dimPositions_In (results : list AffineExpr) (ps : list nat) :
  dimPositions results = Some ps ->
  forall e, In e results -> exists p, e = AffineDimExpr p.
Proof.
  revert ps. induction results as [|e0 rest IH]; intros ps H e Hin; [destruct Hin|].
  simpl in H. destruct e0 as [p| | |]; try discriminate.
  destruct (dimPositions rest) as [ps'|] eqn:E; [|discriminate].
  destruct Hin as [<-|Hin]; [exists p; reflexivity | exact (IH ps' eq_refl e Hin)].
Qed.

Lemma isProjectedPermutation_dims (m : AffineMap) :
  isProjectedPermutation m = true ->
  forall e, In e (getResults m) -> exists p, e = AffineDimExpr p.
Proof.
  unfold isProjectedPermutation. intros H.
  apply andb_true_iff in H. destruct H as [_ H].
  destruct (dimPositions (getResults m)) as [ps|] eqn:E; [|discriminate].
  exact (dimPositions_In _ ps E).
Qed.

Lemma verifyIndexingMap_None (op : MultiMmaOp) (n i : nat) (m : AffineMap) :
  verifyIndexingMap op n i m = Ret None <->
  exists v, nth_error (getOperands op) i = Some v /\ mapLegal n (getType v) m.
Proof.
  unfold verifyIndexingMap, mapLegal, getOperand, getNumResults.
  destruct (Nat.eqb_spec (getNumSymbols m) 0) as [Hs|Hs]; simpl.
  2:{ split; [discriminate|]. intros [v [_ [Hs' _]]]. contradiction. }
  destruct (nth_error (getOperands op) i) as [v|] eqn:Hv.
  2:{ split.
      - intros H. apply bind_Ret_inv in H. destruct H as [v [Hv' _]].
        apply index_nth_error in Hv'. congruence.
      - intros [v [Hv' _]]. discriminate. }
  rewrite (index_of_nat _ _ _ Hv). simpl.
  destruct (Nat.eqb_spec (getNumDims m) n) as [Hd|Hd]; simpl.
  2:{ split; [discriminate|]. intros [v' [Hv' [_ [_ [Hd' _]]]]]. contradiction. }
  destruct (Nat.leb_spec (length (getShape (getType v))) (length (getResults m)))
    as [Hr|Hr].
  { split; [discriminate|]. intros [v' [Hv' [_ [_ [_ [Hr' _]]]]]].
    inversion Hv'; subst v'. lia. }
  destruct (isProjectedPermutation m) eqn:Hp; simpl.
  2:{ split; [discriminate|]. intros [v' [_ [_ [Hp' _]]]]. discriminate. }
  unfold take_back.
  replace (length (getShape (getType v)) -
           (length (getShape (getType v)) - length (getResults m)))%nat
    with (length (getResults m)) by lia.
  destruct (existsb isDynamic (skipn (length (getResults m)) (getShape (getType v))))
    eqn:Hdyn.
  - split; [discriminate|]. intros [v' [Hv' [_ [_ [_ [_ Hin]]]]]].
    inversion Hv'; subst v'.
    assert (Hf : existsb isDynamic
                   (skipn (length (getResults m)) (getShape (getType v))) = false).
    { apply existsb_skipn_false. intros j x Hj Hx. apply isDynamic_false.
      exact (Hin j x Hj Hx). }
    congruence.
  - split; [|reflexivity]. intros _. exists v. repeat split; try assumption.
    intros j size Hj Hx. apply isDynamic_false.
    exact (proj1 (existsb_skipn_false isDynamic _ _) Hdyn j size Hj Hx).
Qed.

Lemma verifyIndexingMapsFrom_None (op : MultiMmaOp) (n : nat) (maps : list AffineMap) :
  forall i,
  verifyIndexingMapsFrom op n i maps = Ret None <->
  (forall k m, nth_error maps k = Some m ->
     exists v, nth_error (getOperands op) (i + k) = Some v /\ mapLegal n (getType v) m).
Proof.
  induction maps as [|m0 rest IH]; intros i; simpl.
  - split; [|reflexivity]. intros _ [|k] m; discriminate.
  - split.
    + intros H. apply bind_Ret_inv in H. destruct H as [r [Hr H]].
      destruct r as [d|]; [discriminate|].
      apply verifyIndexingMap_None in Hr. pose proof (proj1 (IH (S i)) H) as H'.
      intros [|k] m Hk; simpl in Hk.
      * inversion Hk; subst m. rewrite Nat.add_0_r. exact Hr.
      * replace (i + S k)%nat with (S i + k)%nat by lia. exact (H' k m Hk).
    + intros H.
      assert (H0 : verifyIndexingMap op n i m0 = Ret None).
      { apply verifyIndexingMap_None. rewrite <- (Nat.add_0_r i). exact (H 0%nat m0 eq_refl). }
      rewrite H0. simpl. apply (proj2 (IH (S i))). intros k m Hk.
      replace (S i + k)%nat with (i + S k)%nat by lia. exact (H (S k) m Hk).
Qed.

Lemma verifyOperandShape_true (bounds : list Z) (results : list AffineExpr) :
  forall shape,
  verifyOperandShape bounds results shape = Ret true ->
  forall j d size, nth_error results j = Some (AffineDimExpr d) ->
    nth_error shape j = Some size -> nth_error bounds d = Some size.
Proof.
  induction results as [|e rest IH]; intros shape H j d size Hr Hs.
  - destruct j; discriminate.
  - destruct shape as [|s shape']; [destruct j; discriminate|].
    simpl in H. destruct e as [p| | |]; try discriminate.
    apply bind_Ret_inv in H. destruct H as [b [Hb H]].
    apply index_nth_error in Hb.
    destruct (Z.eqb_spec s b) as [Heq|Hne]; simpl in H; [|discriminate].
    destruct j as [|j]; simpl in Hr, Hs.
    + inversion Hr; inversion Hs; subst. exact Hb.
    + exact (IH shape' H j d size Hr Hs).
Qed.

Lemma verifyOperandShape_complete (bounds : list Z) (results : list AffineExpr) :
  forall shape,
  (forall e, In e results -> exists p, e = AffineDimExpr p) ->
  (forall j d size, nth_error results j = Some (AffineDimExpr d) ->
     nth_error shape j = Some size -> nth_error bounds d = Some size) ->
  verifyOperandShape bounds results shape = Ret true.
Proof.
  induction results as [|e rest IH]; intros shape Hdims H; [reflexivity|].
  destruct shape as [|s shape']; [reflexivity|].
  destruct (Hdims e (or_introl eq_refl)) as [p ->]. simpl.
  rewrite (index_of_nat _ _ _ (H 0%nat p s eq_refl eq_refl)). simpl.
  rewrite Z.eqb_refl. simpl. apply IH.
  - intros e He. apply Hdims. right. exact He.
  - intros j d size Hr Hs. exact (H (S j) d size Hr Hs).
Qed.

Section VerifyProperties.

Variable inferContractionDims : list AffineMap -> bool.

Lemma ElementType_eqb_refl (t : ElementType) : ElementType_eqb t t = true.
Proof. apply ElementType_eqb_eq. reflexivity. Qed.

Lemma verify_sound (op : MultiMmaOp) :
  verify inferContractionDims op = Ret success -> Verified inferContractionDims op.
Proof.
  unfold verify, Verified.
  destruct (Nat.eqb_spec (length (getIndexingMapsArray op)) 3) as [Hlen|Hlen];
    simpl; [|discriminate].
  intros H. apply bind_Ret_inv in H. destruct H as [r [Hr H]].
  destruct r as [d|]; [discriminate|].
  destruct (inferContractionDims (getIndexingMapsArray op)) eqn:Hinfer;
    simpl in H; [|discriminate].
  apply bind_Ret_inv in H. destruct H as [bounds [Hb H]].
  apply bind_Ret_inv in H. destruct H as [m0 [Hm0 H]].
  apply bind_Ret_inv in H. destruct H as [m1 [Hm1 H]].
  apply bind_Ret_inv in H. destruct H as [m2 [Hm2 H]].
  apply (index_nth_error _ 0%nat) in Hm0.
  apply (index_nth_error _ 1%nat) in Hm1.
  apply (index_nth_error _ 2%nat) in Hm2.
  apply bind_Ret_inv in H. destruct H as [l [Hl H]].
  destruct l; simpl in H; [|discriminate].
  apply bind_Ret_inv in H. destruct H as [r [Hrr H]].
  destruct r; simpl in H; [|discriminate].
  apply bind_Ret_inv in H. destruct H as [a [Ha H]].
  destruct a; simpl in H; [|discriminate].
  destruct (getABCElementTypes (getKind op)) as [[lType rType] aType] eqn:Hty.
  destruct (ElementType_eqb lType (getElementType (getLhsType op))) eqn:El;
    simpl in H; [|discriminate].
  destruct (ElementType_eqb rType (getElementType (getRhsType op))) eqn:Er;
    simpl in H; [|discriminate].
  destruct (ElementType_eqb aType (getElementType (getAccType op))) eqn:Ea;
    simpl in H; [|discriminate].
  apply ElementType_eqb_eq in El, Er, Ea.
  split; [exact Hlen|]. split.
  { intros i m Hm.
    exact (proj1 (verifyIndexingMapsFrom_None op _ _ 0%nat) Hr i m Hm). }
  split; [reflexivity|]. split.
  { exists bounds. split; [exact Hb|].
    intros i m v Hm Hv.
    assert (Hi : (i < 3)%nat).
    { rewrite <- Hlen. apply nth_error_Some. congruence. }
    unfold outerShapeMatches.
    destruct i as [|[|[|i]]]; [| | |lia]; simpl in Hv; inversion Hv; subst v.
    - rewrite Hm0 in Hm. inversion Hm; subst m.
      exact (verifyOperandShape_true _ _ _ Hl).
    - rewrite Hm1 in Hm. inversion Hm; subst m.
      exact (verifyOperandShape_true _ _ _ Hrr).
    - rewrite Hm2 in Hm. inversion Hm; subst m.
      exact (verifyOperandShape_true _ _ _ Ha). }
  unfold elementTypesMatch. rewrite Hty. congruence.
Qed.

Lemma verify_complete (op : MultiMmaOp) :
  Verified inferContractionDims op -> verify inferContractionDims op = Ret success.
Proof.
  unfold verify, Verified.
  intros [Hlen [Hmaps [Hinfer [[bounds [Hb Hshape]] Hty]]]].
  rewrite Hlen. simpl.
  rewrite (proj2 (verifyIndexingMapsFrom_None op _ _ 0%nat) Hmaps). simpl.
  rewrite Hinfer. simpl. rewrite Hb. simpl.
  destruct (getIndexingMapsArray op) as [|m0 [|m1 [|m2 [|]]]]; try discriminate Hlen.
  simpl.
  assert (Hop : forall i m v, nth_error [m0; m1; m2] i = Some m ->
            nth_error (getOperands op) i = Some v ->
            verifyOperandShape bounds (getResults m) (getShape (getType v)) = Ret true).
  { intros i m v Hm Hv. apply verifyOperandShape_complete.
    - destruct (Hmaps i m Hm) as [v' [_ [_ [Hp _]]]].
      exact (isProjectedPermutation_dims m Hp).
    - exact (Hshape i m v Hm Hv). }
  unfold getLhsType, getRhsType, getAccType.
  rewrite (Hop 0%nat m0 (getLhs op) eq_refl eq_refl). simpl.
  rewrite (Hop 1%nat m1 (getRhs op) eq_refl eq_refl). simpl.
  rewrite (Hop 2%nat m2 (getAcc op) eq_refl eq_refl). simpl.
  unfold elementTypesMatch in Hty. rewrite Hty.
  unfold getLhsType, getRhsType, getAccType.
  rewrite !ElementType_eqb_refl. reflexivity.
Qed.

(** C1. Verification succeeds if and only if: there are exactly three
    indexing maps; every map has no symbols, is a projected permutation, has
    as many input dimensions as there are iterator kinds, has fewer outputs
    than its operand's rank, the trailing inner dimensions of the operand
    being static; contraction-dimension inference over the maps succeeds;
    every operand's outer shape, read through its map, matches the derived
    iteration bounds; and the element types are those of the intrinsic kind. *)
Theorem verify_spec (op : MultiMmaOp) :
  verify inferContractionDims op = Ret success <-> Verified inferContractionDims op.
Proof.
  split; [apply verify_sound | apply verify_complete].
Qed.

End VerifyProperties.

(* ================================================================== *)
(** ** Unrolling: rejected shapes *)

Lemma divideExtents_None (shape subShape : list Z) :
  length shape = length subShape ->
  ~ Forall2 (fun size subSize => Z.rem size subSize = 0) shape subShape ->
  divideExtents shape subShape = None.
Proof.
  revert subShape. induction shape as [|size shape IH]; intros [|subSize subShape] Hlen Hnot;
    try discriminate.
  - exfalso. apply Hnot. constructor.
  - simpl. destruct (Z.eqb_spec (Z.rem size subSize) 0) as [Hz|Hz]; simpl; [|reflexivity].
    rewrite IH; [reflexivity | simpl in Hlen; lia |].
    intros HF. apply Hnot. constructor; assumption.
Qed.

Lemma divideExtents_ones (shape subShape : list Z) :
  Forall2 (fun size subSize => Z.rem size subSize = 0 /\ Z.quot size subSize = 1)
          shape subShape ->
  exists ratio, divideExtents shape subShape = Some ratio /\ forallb isOne ratio = true.
Proof.
  induction 1 as [|size subSize shape subShape [Hr Hq] HF [ratio [IH1 IH2]]].
  - exists []. split; reflexivity.
  - exists (1 :: ratio). simpl. rewrite Hr, Hq, IH1. simpl. split; [reflexivity | exact IH2].
Qed.

Lemma computeShapeRatio_same_length (shape subShape : list Z) :
  length subShape = length shape ->
  computeShapeRatio shape subShape = divideExtents shape subShape.
Proof.
  intros Hlen. unfold computeShapeRatio.
  rewrite Hlen, Nat.ltb_irrefl, Nat.sub_diag. simpl.
  destruct (divideExtents shape subShape); reflexivity.
Qed.

(** C4. The unrolling pattern fails with a match failure, the rewriter being
    left as it was, whenever some iteration bound is not exactly divisible by
    the extent of the target shape at its dimension, and whenever every
    per-dimension ratio is one; so a success implies exact divisibility. *)
Theorem unroll_rejects (options : UnrollVectorOptions) (mmaOp : MultiMmaOp)
    (rewriter : PatternRewriter) (shapeFn : MultiMmaOp -> option (list Z))
    (targetShape bounds : list Z) :
  nativeShape options = Some shapeFn ->
  shapeFn mmaOp = Some targetShape ->
  getIterationBounds mmaOp = Ret bounds ->
  length targetShape = length bounds ->
  (~ Forall2 (fun b t => Z.rem b t = 0) bounds targetShape) \/
  Forall2 (fun b t => Z.rem b t = 0 /\ Z.quot b t = 1) bounds targetShape ->
  exists reason,
    UnrollMultiMmaPattern options mmaOp rewriter =
    Ret (failure (MatchFailure reason), rewriter).
Proof.
  intros Hn Hs Hb Hlen Hcase. unfold UnrollMultiMmaPattern, notifyMatchFailure.
  destruct (match filterConstraint options with
            | Some filter => failed (filter mmaOp)
            | None => false
            end); [eexists; reflexivity|].
  rewrite Hn. unfold getShapeForUnroll. rewrite Hb. simpl. rewrite Hs.
  rewrite (computeShapeRatio_same_length _ _ Hlen).
  destruct Hcase as [Hnd|Hones].
  - rewrite (divideExtents_None _ _ (eq_sym Hlen) Hnd). eexists; reflexivity.
  - destruct (divideExtents_ones _ _ Hones) as [ratio [Hr Hall]].
    rewrite Hr, Hall. eexists; reflexivity.
Qed.

Lemma unroll_rejects_witness :
  exists reason,
    UnrollMultiMmaPattern (Samples.unrollTo [3; 1]) Samples.dot Samples.emptyRewriter =
    Ret (failure (MatchFailure reason), Samples.emptyRewriter).
Proof.
  apply (unroll_rejects (Samples.unrollTo [3; 1]) Samples.dot Samples.emptyRewriter
           (fun _ => Some [3; 1]) [3; 1] [2; 2]);
    try reflexivity.
  left. intros H. inversion H as [|b t bs ts Hrem HF]; subst. discriminate Hrem.
Defined.

(* ================================================================== *)
(** ** Unit dimension folding *)

Lemma forallb_isOne (bounds : list Z) :
  forallb isOne bounds = true <-> Forall (fun b => b = 1) bounds.
Proof.
  rewrite forallb_forall, Forall_forall. unfold isOne.
  split; intros H b Hb; [apply Z.eqb_eq | apply Z.eqb_eq]; auto.
Qed.

Lemma outer_dims_unit (bounds : list Z) (t : ShapedType) (m : AffineMap) :
  Forall (fun b => b = 1) bounds ->
  isProjectedPermutation m = true ->
  outerShapeMatches bounds t m ->
  (getNumResults m <= length (getShape t))%nat ->
  firstn (getNumResults m) (getShape t) = repeat 1 (getNumResults m).
Proof.
  intros Hones Hperm Hmatch Hlen.
  apply nth_error_ext. intros j.
  destruct (Nat.lt_ge_cases j (getNumResults m)) as [Hj|Hj].
  - rewrite nth_error_firstn.
    destruct (Nat.ltb_spec j (getNumResults m)) as [_|Hge]; [|lia].
    rewrite (nth_error_repeat _ Hj).
    destruct (nth_error (getResults m) j) as [e|] eqn:He.
    2:{ apply nth_error_None in He. unfold getNumResults in Hj. lia. }
    destruct (isProjectedPermutation_dims m Hperm e (nth_error_In _ _ He)) as [p ->].
    destruct (nth_error (getShape t) j) as [size|] eqn:Hs.
    2:{ apply nth_error_None in Hs. lia. }
    pose proof (Hmatch j p size He Hs) as Hb.
    rewrite Forall_forall in Hones.
    rewrite (Hones size (nth_error_In _ _ Hb)). reflexivity.
  - rewrite nth_error_firstn.
    destruct (Nat.ltb_spec j (getNumResults m)) as [Hlt|_]; [lia|].
    symmetry. apply nth_error_None. rewrite repeat_length. exact Hj.
Qed.

Section DropUnitDims.

Variable inferContractionDims : list AffineMap -> bool.

(** C6. On a verified operation, unit-dimension folding applies exactly when
    the operation has no tensor semantics and its derived bounds are non-empty
    and all ones, and otherwise fails leaving the rewriter as it was. When it
    applies and every operand has outer rank 2, the two leading dimensions of
    each operand are unit and are dropped by one extraction at [0, 0]; the
    operation is re-issued on the extracted operands with empty indexing maps
    and an empty iterator list, so that it derives no bound, and its result,
    of the accumulator's inner shape, is broadcast to the original result
    type, the broadcast replacing the operation. *)
Theorem dropUnitDims_spec (mmaOp : MultiMmaOp) (rewriter : PatternRewriter)
    (bounds : list Z) :
  verify inferContractionDims mmaOp = Ret success ->
  getIterationBounds mmaOp = Ret bounds ->
  ((exists rewriter', DropMultiMmaUnitDimsPattern mmaOp rewriter = Ret (success, rewriter'))
   <-> (hasTensorSemantics mmaOp = false /\ bounds <> [] /\
        Forall (fun b => b = 1) bounds)) /\
  (forall d rewriter',
     DropMultiMmaUnitDimsPattern mmaOp rewriter = Ret (failure d, rewriter') ->
     rewriter' = rewriter) /\
  (hasTensorSemantics mmaOp = false -> bounds <> [] ->
   Forall (fun b => b = 1) bounds ->
   Forall (fun m => getNumResults m = 2%nat) (getIndexingMapsArray mmaOp) ->
   let n := nextOpId rewriter in
   let newMmaOp := mkMultiMmaOp
                     (resultOf n (ExtractOp (getLhs mmaOp) [0; 0]))
                     (resultOf (n + 1) (ExtractOp (getRhs mmaOp) [0; 0]))
                     (resultOf (n + 2) (ExtractOp (getAcc mmaOp) [0; 0]))
                     (resultType (ExtractOp (getAcc mmaOp) [0; 0]))
                     [emptyAffineMap; emptyAffineMap; emptyAffineMap] []
                     (getKind mmaOp) in
   DropMultiMmaUnitDimsPattern mmaOp rewriter =
     Ret (success,
          mkPatternRewriter (n + 5) (created rewriter ++ foldedOuterRank2 mmaOp n)
            (Some (resultOf (n + 4)
                     (BroadcastOp (getResultType mmaOp)
                                  (resultOf (n + 3) (MultiMma newMmaOp)))))) /\
   Forall (fun v => firstn 2 (getShape (getType v)) = [1; 1]) (getOperands mmaOp) /\
   getShape (getResultType newMmaOp) = skipn 2 (getShape (getAccType mmaOp)) /\
   getIterationBounds newMmaOp = Ret []).
Proof.
  intros Hver Hb. apply verify_sound in Hver.
  destruct Hver as [Hlen [Hmaps [_ [[bounds' [Hb' Hshape]] _]]]].
  rewrite Hb in Hb'. inversion Hb'; subst bounds'. clear Hb'.
  destruct (getIndexingMapsArray mmaOp) as [|m0 [|m1 [|m2 [|]]]] eqn:Emaps;
    try discriminate Hlen.
  assert (Hrank : forall role, getOuterRank mmaOp role =
                    match nth_error [m0; m1; m2] role with
                    | Some m => Ret (getNumResults m)
                    | None => Abort
                    end).
  { intros role. unfold getOuterRank. rewrite Emaps.
    destruct (nth_error [m0; m1; m2] role) as [m|] eqn:E.
    - rewrite (index_of_nat _ _ _ E). reflexivity.
    - unfold index. destruct (Z.ltb_spec (Z.of_nat role) 0) as [Hl|Hl]; [reflexivity|].
      rewrite Nat2Z.id, E. reflexivity. }
  unfold DropMultiMmaUnitDimsPattern, notifyMatchFailure,
    getLhsOuterRank, getRhsOuterRank, getAccOuterRank.
  rewrite Hb, !Hrank. simpl.
  destruct (hasTensorSemantics mmaOp) eqn:Htensor.
  { split; [|split].
    - split; [intros [rw' H]; discriminate | intros [H _]; discriminate].
    - intros d rw' H. inversion H. reflexivity.
    - intros H; discriminate. }
  destruct bounds as [|b bs].
  { split; [|split].
    - split; [intros [rw' H]; discriminate | intros [_ [H _]]; contradiction].
    - intros d rw' H. inversion H. reflexivity.
    - intros _ H; contradiction. }
  destruct (forallb isOne (b :: bs)) eqn:Hones; simpl.
  2:{ split; [|split].
      - split; [intros [rw' H]; discriminate|].
        intros [_ [_ H]]. apply forallb_isOne in H. congruence.
      - intros d rw' H. inversion H. reflexivity.
      - intros _ _ H. apply forallb_isOne in H. congruence. }
  apply forallb_isOne in Hones.
  split; [|split].
  - split.
    + intros _. repeat split; [discriminate | exact Hones].
    + intros _.
      destruct (dropLeadUnitDims rewriter (getLhs mmaOp) (getNumResults m0)) as [v0 r0].
      destruct (dropLeadUnitDims r0 (getRhs mmaOp) (getNumResults m1)) as [v1 r1].
      destruct (dropLeadUnitDims r1 (getAcc mmaOp) (getNumResults m2)) as [v2 r2].
      eexists. reflexivity.
  - intros d rw'.
    destruct (dropLeadUnitDims rewriter (getLhs mmaOp) (getNumResults m0)) as [v0 r0].
    destruct (dropLeadUnitDims r0 (getRhs mmaOp) (getNumResults m1)) as [v1 r1].
    destruct (dropLeadUnitDims r1 (getAcc mmaOp) (getNumResults m2)) as [v2 r2].
    intros H; discriminate.
  - intros _ _ _ Hranks.
    inversion Hranks as [|? ? H0 Hr1]; subst.
    inversion Hr1 as [|? ? H1 Hr2]; subst.
    inversion Hr2 as [|? ? H2 _]; subst.
    rewrite H0, H1, H2. cbv zeta.
    replace (nextOpId rewriter + 1)%nat with (S (nextOpId rewriter)) by lia.
    replace (nextOpId rewriter + 2)%nat with (S (S (nextOpId rewriter))) by lia.
    replace (nextOpId rewriter + 3)%nat with (S (S (S (nextOpId rewriter)))) by lia.
    replace (nextOpId rewriter + 4)%nat with (S (S (S (S (nextOpId rewriter))))) by lia.
    replace (nextOpId rewriter + 5)%nat
      with (S (S (S (S (S (nextOpId rewriter)))))) by lia.
    unfold dropLeadUnitDims, create, replaceOp, foldedOuterRank2, resultOf, build. simpl.
    replace (nextOpId rewriter + 1)%nat with (S (nextOpId rewriter)) by lia.
    replace (nextOpId rewriter + 2)%nat with (S (S (nextOpId rewriter))) by lia.
    replace (nextOpId rewriter + 3)%nat with (S (S (S (nextOpId rewriter)))) by lia.
    replace (nextOpId rewriter + 4)%nat with (S (S (S (S (nextOpId rewriter))))) by lia.
    split; [|split; [|split]].
    + rewrite <- !app_assoc. reflexivity.
    + assert (Hop : forall i m v, nth_error [m0; m1; m2] i = Some m ->
                nth_error (getOperands mmaOp) i = Some v ->
                getNumResults m = 2%nat ->
                firstn 2 (getShape (getType v)) = [1; 1]).
      { intros i m v Hm Hv H2r.
        destruct (Hmaps i m Hm) as [v' [Hv' [_ [Hp [_ [Hlt _]]]]]].
        rewrite Hv in Hv'. inversion Hv'; subst v'.
        pose proof (outer_dims_unit (b :: bs) (getType v) m Hones Hp
                      (Hshape i m v Hm Hv) (Nat.lt_le_incl _ _ Hlt)) as Hu.
        rewrite H2r in Hu. exact Hu. }
      unfold getOperands. repeat constructor.
      * exact (Hop 0%nat m0 _ eq_refl eq_refl H0).
      * exact (Hop 1%nat m1 _ eq_refl eq_refl H1).
      * exact (Hop 2%nat m2 _ eq_refl eq_refl H2).
    + reflexivity.
    + reflexivity.
Qed.

End DropUnitDims.

Lemma dropUnitDims_spec_witness :
  exists rewriter',
    DropMultiMmaUnitDimsPattern Samples.unitMatmul Samples.emptyRewriter =
    Ret (success, rewriter').
Proof.
  assert (Hverify : verify (fun _ => true) Samples.unitMatmul = Ret success)
    by (vm_compute; reflexivity).
  assert (Hbounds : getIterationBounds Samples.unitMatmul = Ret [1; 1; 1])
    by (vm_compute; reflexivity).
  apply (proj2 (proj1 (dropUnitDims_spec (fun _ => true) Samples.unitMatmul
                         Samples.emptyRewriter [1; 1; 1] Hverify Hbounds))).
  split; [reflexivity|]. split; [discriminate|]. repeat constructor.
Defined.

(* ================================================================== *)
(** ** Unrolling: one tile *)

Section UnrollTileProperties.

Variable mmaOp : MultiMmaOp.
Variable targetShape : list Z.
Variables lhsPermutationMap rhsPermutationMap accPermutationMap : AffineMap.
Variable innerAccShape : list Z.
Variable dstVecType : ShapedType.

Abbreviation unrollTile' :=
  (unrollTile mmaOp targetShape lhsPermutationMap rhsPermutationMap
              accPermutationMap innerAccShape dstVecType).
Abbreviation unrollTiles' :=
  (unrollTiles mmaOp targetShape lhsPermutationMap rhsPermutationMap
               accPermutationMap innerAccShape dstVecType).
Abbreviation tileOp' := (tileOp mmaOp innerAccShape dstVecType).

Lemma unrollTile_inv (offsets : list Z) (rewriter : PatternRewriter) (accCache : AccCache)
    (newOp : MultiMmaOp) (newResult : Value) (state' : PatternRewriter * AccCache) :
  unrollTile' offsets (rewriter, accCache) = Ret (newOp, newResult, state') ->
  exists lhsOffets lhsShape rhsOffets rhsShape accOffets dstShape,
    applyPermutationMap lhsPermutationMap offsets = Ret lhsOffets /\
    applyPermutationMap lhsPermutationMap targetShape = Ret lhsShape /\
    applyPermutationMap rhsPermutationMap offsets = Ret rhsOffets /\
    applyPermutationMap rhsPermutationMap targetShape = Ret rhsShape /\
    applyPermutationMap accPermutationMap offsets = Ret accOffets /\
    applyPermutationMap accPermutationMap targetShape = Ret dstShape /\
    let n := nextOpId rewriter in
    let lhsOp := sliceOp (getLhs mmaOp) lhsOffets lhsShape in
    let rhsOp := sliceOp (getRhs mmaOp) rhsOffets rhsShape in
    let accOp := sliceOp (getAcc mmaOp) accOffets dstShape in
    match cacheFind accCache accOffets with
    | Some cached =>
        newOp = tileOp' n lhsOffets lhsShape rhsOffets rhsShape dstShape cached /\
        newResult = resultOf (S (S n)) (MultiMma newOp) /\
        state' = (mkPatternRewriter (S (S (S n)))
                    (created rewriter ++
                     [(n, lhsOp); (S n, rhsOp); (S (S n), MultiMma newOp)])
                    (replacement rewriter),
                  cacheSet accCache accOffets newResult)
    | None =>
        newOp = tileOp' n lhsOffets lhsShape rhsOffets rhsShape dstShape
                        (resultOf (S (S n)) accOp) /\
        newResult = resultOf (S (S (S n))) (MultiMma newOp) /\
        state' = (mkPatternRewriter (S (S (S (S n))))
                    (created rewriter ++
                     [(n, lhsOp); (S n, rhsOp); (S (S n), accOp);
                      (S (S (S n)), MultiMma newOp)])
                    (replacement rewriter),
                  cacheSet accCache accOffets newResult)
    end.
Proof.
  unfold unrollTile, extractOperand. intros H.
  destruct (applyPermutationMap lhsPermutationMap offsets) as [lhsOffets|] eqn:E1;
    simpl in H; [|discriminate].
  destruct (applyPermutationMap lhsPermutationMap targetShape) as [lhsShape|] eqn:E2;
    simpl in H; [|discriminate].
  destruct (applyPermutationMap rhsPermutationMap offsets) as [rhsOffets|] eqn:E3;
    simpl in H; [|discriminate].
  destruct (applyPermutationMap rhsPermutationMap targetShape) as [rhsShape|] eqn:E4;
    simpl in H; [|discriminate].
  destruct (applyPermutationMap accPermutationMap offsets) as [accOffets|] eqn:E5;
    simpl in H; [|discriminate].
  exists lhsOffets, lhsShape, rhsOffets, rhsShape, accOffets.
  destruct (cacheFind accCache accOffets) as [cached|] eqn:Ec; simpl in H.
  - destruct (applyPermutationMap accPermutationMap targetShape) as [dstShape|] eqn:E6;
      simpl in H; [|discriminate].
    exists dstShape. repeat (split; [reflexivity|]). simpl.
    inversion H; subst. unfold tileOp, tileType, resultOf, sliceOp. simpl.
    repeat split. rewrite <- !app_assoc. reflexivity.
  - destruct (applyPermutationMap accPermutationMap targetShape) as [dstShape|] eqn:E6;
      simpl in H; [|discriminate].
    exists dstShape. repeat (split; [reflexivity|]). simpl.
    inversion H; subst. unfold tileOp, tileType, resultOf, sliceOp. simpl.
    repeat split. rewrite <- !app_assoc. reflexivity.
Qed.

End UnrollTileProperties.

(* ================================================================== *)
(** ** Unrolling: the attributes and the bounds of the operation of a tile *)

Lemma applyPermutationMap_inv (m : AffineMap) (source out : list Z) :
  applyPermutationMap m source = Ret out ->
  isProjectedPermutation m = true /\ getNumDims m = length source /\
  exists ps, dimPositions (getResults m) = Some ps /\
             out = map (fun p => nth p source 0) ps.
Proof.
  unfold applyPermutationMap. intros H.
  apply bind_Ret_inv in H. destruct H as [u [Hp H]]. apply assert_Ret_inv in Hp.
  apply bind_Ret_inv in H. destruct H as [u' [Hn H]]. apply assert_Ret_inv in Hn.
  apply Nat.eqb_eq in Hn.
  destruct (dimPositions (getResults m)) as [ps|]; [|discriminate].
  inversion H. repeat split; try assumption. exists ps. split; reflexivity.
Qed.

Lemma dimPositions_nth_error (results : list AffineExpr) :
  forall ps, dimPositions results = Some ps ->
  forall j d, nth_error results j = Some (AffineDimExpr d) -> nth_error ps j = Some d.
Proof.
  induction results as [|e rest IH]; intros ps H j d Hj; [destruct j; discriminate|].
  simpl in H. destruct e as [p| | |]; try discriminate.
  destruct (dimPositions rest) as [ps'|] eqn:E; [|discriminate].
  inversion H; subst ps. destruct j as [|j]; simpl in *.
  - inversion Hj; reflexivity.
  - exact (IH ps' eq_refl j d Hj).
Qed.

Lemma isProjectedPermutation_lt (m : AffineMap) (ps : list nat) :
  isProjectedPermutation m = true -> dimPositions (getResults m) = Some ps ->
  forall p, In p ps -> (p < getNumDims m)%nat.
Proof.
  unfold isProjectedPermutation. intros H E p Hp. rewrite E in H.
  apply andb_true_iff in H. destruct H as [_ H].
  apply andb_true_iff in H. destruct H as [H _].
  rewrite forallb_forall in H. apply Nat.ltb_lt. exact (H p Hp).
Qed.

Lemma permuted_entry (m : AffineMap) (source out rest : list Z) (i j : nat) :
  applyPermutationMap m source = Ret out -> matchingOutput m i j ->
  (i < length source)%nat /\ nth_error (out ++ rest) j = nth_error source i.
Proof.
  intros H [Hj _]. apply applyPermutationMap_inv in H.
  destruct H as [Hp [Hn [ps [Eps ->]]]].
  pose proof (dimPositions_nth_error _ ps Eps j i Hj) as Hi.
  assert (Hlt : (i < length source)%nat).
  { rewrite <- Hn. apply (isProjectedPermutation_lt m ps Hp Eps). exact (nth_error_In _ _ Hi). }
  split; [exact Hlt|].
  rewrite nth_error_app1.
  2:{ rewrite length_map. apply nth_error_Some. congruence. }
  rewrite (map_nth_error _ _ _ Hi). symmetry. apply nth_error_nth'. exact Hlt.
Qed.

Section TileBounds.

Variable mmaOp : MultiMmaOp.
Variable targetShape : list Z.
Variables lhsPermutationMap accPermutationMap : AffineMap.
Variable innerAccShape : list Z.
Variable dstVecType : ShapedType.

Hypothesis lhsMap_at : nth_error (getIndexingMapsArray mmaOp) 0 = Some lhsPermutationMap.
Hypothesis accMap_at : nth_error (getIndexingMapsArray mmaOp) 2 = Some accPermutationMap.

Lemma tileOp_boundAt (n : nat) (lhsOffets lhsShape rhsOffets rhsShape dstShape : list Z)
    (accSlice : Value) (i : nat) (it : IteratorType) (b : Z) :
  applyPermutationMap lhsPermutationMap targetShape = Ret lhsShape ->
  applyPermutationMap accPermutationMap targetShape = Ret dstShape ->
  boundAt mmaOp i it b ->
  exists t, nth_error targetShape i = Some t /\
    boundAt (tileOp mmaOp innerAccShape dstVecType n lhsOffets lhsShape rhsOffets
                    rhsShape dstShape accSlice) i it t.
Proof.
  intros Hl Ha Hb.
  destruct it; simpl in Hb; destruct Hb as [m [j [Hm [Hmatch _]]]].
  - rewrite accMap_at in Hm. inversion Hm; subst m.
    destruct (permuted_entry _ _ _ innerAccShape i j Ha Hmatch) as [Hlt He].
    destruct (nth_error targetShape i) as [t|] eqn:Et.
    2:{ apply nth_error_None in Et. lia. }
    exists t. split; [reflexivity|].
    simpl. exists accPermutationMap, j. repeat split; try apply Hmatch.
    + exact accMap_at.
    + simpl. exact He.
  - rewrite lhsMap_at in Hm. inversion Hm; subst m.
    destruct (permuted_entry _ _ _
                (skipn (length lhsShape) (getShape (getType (getLhs mmaOp))))
                i j Hl Hmatch) as [Hlt He].
    destruct (nth_error targetShape i) as [t|] eqn:Et.
    2:{ apply nth_error_None in Et. lia. }
    exists t. split; [reflexivity|].
    simpl. exists lhsPermutationMap, j. repeat split; try apply Hmatch.
    + exact lhsMap_at.
    + simpl. exact He.
Qed.

Lemma tileOp_bounds (n : nat) (lhsOffets lhsShape rhsOffets rhsShape dstShape : list Z)
    (accSlice : Value) (bounds : list Z) :
  applyPermutationMap lhsPermutationMap targetShape = Ret lhsShape ->
  applyPermutationMap accPermutationMap targetShape = Ret dstShape ->
  getIterationBounds mmaOp = Ret bounds ->
  (length targetShape <= length bounds)%nat ->
  getIterationBounds
    (tileOp mmaOp innerAccShape dstVecType n lhsOffets lhsShape rhsOffets rhsShape
            dstShape accSlice) = Ret targetShape.
Proof.
  intros Hl Ha Hb Hlen.
  unfold getIterationBounds in Hb.
  apply (proj1 (getIterationBoundsFrom_spec mmaOp (getIteratorTypes mmaOp) 0 bounds))
    in Hb.
  destruct Hb as [Hblen Hball].
  assert (Hevery : forall i it, nth_error (getIteratorTypes mmaOp) i = Some it ->
            exists t, nth_error targetShape i = Some t /\
              boundAt (tileOp mmaOp innerAccShape dstVecType n lhsOffets lhsShape
                              rhsOffets rhsShape dstShape accSlice) i it t).
  { intros i it Hi. destruct (Hball i it Hi) as [b [_ Hbd]].
    exact (tileOp_boundAt n lhsOffets lhsShape rhsOffets rhsShape dstShape accSlice
             i it b Hl Ha Hbd). }
  unfold getIterationBounds.
  apply (proj2 (getIterationBoundsFrom_spec _ _ 0%nat targetShape)).
  simpl. split; [|exact Hevery].
  apply Nat.le_antisymm; [lia|].
  destruct (Nat.eq_dec (length (getIteratorTypes mmaOp)) 0) as [H0|H0]; [lia|].
  destruct (nth_error (getIteratorTypes mmaOp)
              (length (getIteratorTypes mmaOp) - 1)) as [it0|] eqn:E.
  2:{ apply nth_error_None in E. lia. }
  destruct (Hevery _ it0 E) as [t [Ht _]].
  assert (length (getIteratorTypes mmaOp) - 1 < length targetShape)%nat
    by (apply nth_error_Some; congruence).
  lia.
Qed.

End TileBounds.

(* ================================================================== *)
(** ** Unrolling: the memo table *)

Lemma isEqual_eq (lhs rhs : list Z) : isEqual lhs rhs = true <-> lhs = rhs.
Proof.
  revert rhs. induction lhs as [|x lhs IH]; intros [|y rhs]; simpl;
    try (split; [discriminate | discriminate]); [split; reflexivity|].
  rewrite andb_true_iff, Z.eqb_eq, IH. split.
  - intros [-> ->]. reflexivity.
  - intros H. inversion H. split; reflexivity.
Qed.

Lemma isEqual_refl (key : list Z) : isEqual key key = true.
Proof. apply isEqual_eq. reflexivity. Qed.

Lemma isEqual_neq (lhs rhs : list Z) : lhs <> rhs -> isEqual lhs rhs = false.
Proof.
  intros H. destruct (isEqual lhs rhs) eqn:E; [|reflexivity].
  apply isEqual_eq in E. contradiction.
Qed.

Lemma cacheFind_cacheSet (accCache : AccCache) (k key : list Z) (v : Value) :
  cacheFind (cacheSet accCache k v) key =
  if isEqual k key then Some v else cacheFind accCache key.
Proof.
  induction accCache as [|[k0 v0] rest IH]; simpl.
  - reflexivity.
  - destruct (isEqual k0 k) eqn:E0; simpl.
    + apply isEqual_eq in E0. subst k0. destruct (isEqual k key); reflexivity.
    + destruct (isEqual k0 key) eqn:E1.
      * apply isEqual_eq in E1. subst k0.
        destruct (isEqual k key) eqn:E2; [|reflexivity].
        apply isEqual_eq in E2. subst k. rewrite isEqual_refl in E0. discriminate.
      * exact IH.
Qed.

Lemma cacheFind_cacheAfter (trace : TileTrace) :
  forall (accCache : AccCache) (key : list Z),
  cacheFind (cacheAfter trace accCache) key =
  match memoized trace key with
  | Some v => Some v
  | None => cacheFind accCache key
  end.
Proof.
  induction trace as [|x rest IH]; intros accCache key; simpl; [reflexivity|].
  unfold cacheAfter in *. simpl. rewrite IH.
  destruct (memoized rest key); [reflexivity|].
  rewrite cacheFind_cacheSet. destruct (isEqual (traceKey x) key); reflexivity.
Qed.

Lemma cacheSet_keys (accCache : AccCache) (k : list Z) (v : Value) :
  map fst (cacheSet accCache k v) =
  if existsb (fun e => isEqual (fst e) k) accCache
  then map fst accCache else map fst accCache ++ [k].
Proof.
  induction accCache as [|[k0 v0] rest IH]; simpl; [reflexivity|].
  destruct (isEqual k0 k) eqn:E; simpl; [reflexivity|].
  rewrite IH. destruct (existsb (fun e => isEqual (fst e) k) rest); reflexivity.
Qed.

Lemma cacheSet_NoDup (accCache : AccCache) (k : list Z) (v : Value) :
  NoDup (map fst accCache) -> NoDup (map fst (cacheSet accCache k v)).
Proof.
  intros Hnd. rewrite cacheSet_keys.
  destruct (existsb (fun e => isEqual (fst e) k) accCache) eqn:E; [exact Hnd|].
  apply NoDup_app; [exact Hnd | repeat constructor; intros [] | ].
  intros k' Hin [Heq|[]]. subst k'.
  apply in_map_iff in Hin. destruct Hin as [e [He Hin]].
  assert (Ht : existsb (fun e => isEqual (fst e) k) accCache = true).
  { apply existsb_exists. exists e. split; [exact Hin|]. apply isEqual_eq. exact He. }
  congruence.
Qed.

Lemma cacheAfter_NoDup (trace : TileTrace) :
  forall accCache, NoDup (map fst accCache) ->
  NoDup (map fst (cacheAfter trace accCache)).
Proof.
  induction trace as [|x rest IH]; intros accCache Hnd; [exact Hnd|].
  unfold cacheAfter in *. simpl. apply IH. apply cacheSet_NoDup. exact Hnd.
Qed.

Lemma cacheFind_In (accCache : AccCache) (key : list Z) (v : Value) :
  NoDup (map fst accCache) ->
  (In (key, v) accCache <-> cacheFind accCache key = Some v).
Proof.
  induction accCache as [|[k0 v0] rest IH]; simpl; intros Hnd.
  - split; [intros [] | discriminate].
  - inversion Hnd as [|? ? Hnotin Hnd']; subst.
    destruct (isEqual k0 key) eqn:E.
    + apply isEqual_eq in E. subst k0. split.
      * intros [Heq|Hin]; [inversion Heq; reflexivity|].
        exfalso. apply Hnotin. apply in_map_iff. exists (key, v). split; [reflexivity | exact Hin].
      * intros H. inversion H. left. reflexivity.
    + rewrite <- (IH Hnd'). split.
      * intros [Heq|Hin]; [|exact Hin]. inversion Heq; subst.
        rewrite isEqual_refl in E. discriminate.
      * intros Hin. right. exact Hin.
Qed.

Lemma memoized_None (trace : TileTrace) (key : list Z) :
  (forall x, In x trace -> traceKey x <> key) -> memoized trace key = None.
Proof.
  induction trace as [|x rest IH]; intros H; simpl; [reflexivity|].
  rewrite IH by (intros y Hy; apply H; right; exact Hy).
  rewrite isEqual_neq; [reflexivity|]. apply H. left. reflexivity.
Qed.

(** The result memoized for a key is that of the last tile with the key. *)
Lemma memoized_last (pre mid : TileTrace) (x : list Z * MultiMmaOp * Value) :
  (forall y, In y mid -> traceKey y <> traceKey x) ->
  memoized (pre ++ x :: mid) (traceKey x) = Some (traceResult x).
Proof.
  intros Hmid. induction pre as [|p pre IH]; simpl.
  - rewrite (memoized_None mid _ Hmid), isEqual_refl. reflexivity.
  - rewrite IH. reflexivity.
Qed.

(* ================================================================== *)
(** ** Unrolling: the loop over the tiles *)

Section UnrollLoopProperties.

Variable mmaOp : MultiMmaOp.
Variable targetShape : list Z.
Variables lhsPermutationMap rhsPermutationMap accPermutationMap : AffineMap.
Variable innerAccShape : list Z.
Variable dstVecType : ShapedType.

Abbreviation unrollTileL :=
  (unrollTile mmaOp targetShape lhsPermutationMap rhsPermutationMap
              accPermutationMap innerAccShape dstVecType).
Abbreviation unrollTilesL :=
  (unrollTiles mmaOp targetShape lhsPermutationMap rhsPermutationMap
               accPermutationMap innerAccShape dstVecType).
Abbreviation tileEntryL :=
  (tileEntry mmaOp targetShape lhsPermutationMap accPermutationMap innerAccShape
             dstVecType).

Lemma tileEntry_weaken (before : AccCache) (c1 c2 c3 : list (nat * Operation))
    (x : list Z * MultiMmaOp * Value) :
  tileEntryL before c2 x -> tileEntryL before (c1 ++ c2 ++ c3) x.
Proof.
  unfold tileEntry. intros [Hacc [[id [Hres Hin]] Hop]].
  assert (Hsub : forall e, In e c2 -> In e (c1 ++ c2 ++ c3)).
  { intros e He. apply in_or_app. right. apply in_or_app. left. exact He. }
  split; [|split; [|exact Hop]].
  - destruct (cacheFind before (traceKey x)); [exact Hacc|].
    destruct Hacc as [id' [sizes [H1 H2]]]. exists id', sizes. split; [exact H1 | auto].
  - exists id. split; [exact Hres | auto].
Qed.

Lemma unrollTile_entry (offsets : list Z) (rewriter : PatternRewriter)
    (accCache : AccCache) (newOp : MultiMmaOp) (newResult : Value)
    (rewriter' : PatternRewriter) (accCache' : AccCache) :
  unrollTileL offsets (rewriter, accCache) = Ret (newOp, newResult, (rewriter', accCache')) ->
  exists accOffets newCreated,
    applyPermutationMap accPermutationMap offsets = Ret accOffets /\
    accCache' = cacheSet accCache accOffets newResult /\
    created rewriter' = created rewriter ++ newCreated /\
    replacement rewriter' = replacement rewriter /\
    (forall id op, In (id, MultiMma op) newCreated -> op = newOp) /\
    tileEntryL accCache newCreated (accOffets, newOp, newResult).
Proof.
  intros H. apply unrollTile_inv in H.
  destruct H as [lo [ls [ro [rs [ao [ds [H1 [H2 [H3 [H4 [H5 [H6 H]]]]]]]]]]]].
  cbv zeta in H. exists ao. unfold tileEntry, traceKey, traceOp, traceResult. simpl.
  destruct (cacheFind accCache ao) as [cached|] eqn:Ec.
  - destruct H as [Hop [Hres Hst]]. inversion Hst; subst rewriter' accCache'.
    eexists. split; [exact H5|]. split; [reflexivity|]. simpl.
    split; [reflexivity|]. split; [reflexivity|]. split.
    + intros id op [Hin|[Hin|[Hin|[]]]]; inversion Hin. reflexivity.
    + split; [rewrite Hop; reflexivity|]. split.
      * eexists. split; [exact Hres|]. right. right. left. reflexivity.
      * exists (nextOpId rewriter), lo, ls, ro, rs, ds.
        split; [rewrite Hop at 1; rewrite Hop; reflexivity|]. split; assumption.
  - destruct H as [Hop [Hres Hst]]. inversion Hst; subst rewriter' accCache'.
    eexists. split; [exact H5|]. split; [reflexivity|]. simpl.
    split; [reflexivity|]. split; [reflexivity|]. split.
    + intros id op [Hin|[Hin|[Hin|[Hin|[]]]]]; inversion Hin. reflexivity.
    + split.
      * exists (S (S (nextOpId rewriter))), ds. split; [rewrite Hop; reflexivity|].
        right. right. left. reflexivity.
      * split.
        -- eexists. split; [exact Hres|]. right. right. right. left. reflexivity.
        -- exists (nextOpId rewriter), lo, ls, ro, rs, ds.
           split; [rewrite Hop at 1; rewrite Hop; reflexivity|]. split; assumption.
Qed.

Lemma unrollTiles_trace (tiles : list (list Z)) :
  forall (rewriter : PatternRewriter) (accCache : AccCache)
         (newOps : list (MultiMmaOp * Value)) (rewriter' : PatternRewriter)
         (accCache' : AccCache),
  unrollTilesL tiles (rewriter, accCache) = Ret (newOps, (rewriter', accCache')) ->
  exists (trace : TileTrace) (newCreated : list (nat * Operation)),
    newOps = map (fun x => (traceOp x, traceResult x)) trace /\
    Forall2 (fun t x => applyPermutationMap accPermutationMap t = Ret (traceKey x))
            tiles trace /\
    accCache' = cacheAfter trace accCache /\
    created rewriter' = created rewriter ++ newCreated /\
    replacement rewriter' = replacement rewriter /\
    (forall id op, In (id, MultiMma op) newCreated -> In op (map traceOp trace)) /\
    (forall pre x post, trace = pre ++ x :: post ->
       tileEntryL (cacheAfter pre accCache) newCreated x).
Proof.
  induction tiles as [|offsets rest IH]; intros rewriter accCache newOps rewriter' accCache' H.
  - simpl in H. inversion H; subst. exists [], []. simpl.
    split; [reflexivity|]. split; [constructor|]. split; [reflexivity|].
    split; [rewrite app_nil_r; reflexivity|]. split; [reflexivity|]. split.
    + intros id op [].
    + intros [|p pre] x post Hp; discriminate.
  - simpl in H. apply bind_Ret_inv in H. destruct H as [[[newOp newResult] [rw1 c1]] [Ht H]].
    apply bind_Ret_inv in H. destruct H as [[ops [rw2 c2]] [Hr H]].
    inversion H; subst newOps rewriter' accCache'. clear H.
    apply unrollTile_entry in Ht.
    destruct Ht as [ao [created1 [Hao [Hc1 [Hcr1 [Hrep1 [Hmma1 Hentry1]]]]]]].
    apply IH in Hr.
    destruct Hr as [trace [created2 [Hops [HF [Hc2 [Hcr2 [Hrep2 [Hmma2 Hentries]]]]]]]].
    exists ((ao, newOp, newResult) :: trace), (created1 ++ created2).
    split; [simpl; rewrite Hops; reflexivity|].
    split; [constructor; [exact Hao | exact HF]|].
    split; [unfold cacheAfter; simpl; rewrite Hc2, Hc1; reflexivity|].
    split; [rewrite Hcr2, Hcr1, app_assoc; reflexivity|].
    split; [congruence|].
    split.
    + intros id op Hin. apply in_app_or in Hin. destruct Hin as [Hin|Hin].
      * left. symmetry. exact (Hmma1 id op Hin).
      * right. exact (Hmma2 id op Hin).
    + intros pre x post Hp. destruct pre as [|p pre]; simpl in Hp; inversion Hp; subst.
      * simpl. rewrite <- (app_nil_l (created1 ++ created2)).
        apply tileEntry_weaken. exact Hentry1.
      * replace (created1 ++ created2) with (created1 ++ created2 ++ [])
          by (rewrite app_nil_r; reflexivity).
        apply tileEntry_weaken. exact (Hentries pre x post eq_refl).
Qed.

Abbreviation tileStepL :=
  (tileStep mmaOp targetShape lhsPermutationMap rhsPermutationMap accPermutationMap
            innerAccShape dstVecType).

Lemma tileStep_weaken (memo : option Value) (c1 c2 c3 : list (nat * Operation))
    (offsets : list Z) (x : list Z * MultiMmaOp * Value) :
  tileStepL memo c2 offsets x -> tileStepL memo (c1 ++ c2 ++ c3) offsets x.
Proof.
  unfold tileStep.
  intros [n [lo [ls [ro [rs [ds [H1 [H2 [H3 [H4 [H5 [H6 [Hl [Hr [Hacc Hop]]]]]]]]]]]]]]].
  assert (Hsub : forall e, In e c2 -> In e (c1 ++ c2 ++ c3)).
  { intros e He. apply in_or_app. right. apply in_or_app. left. exact He. }
  exists n, lo, ls, ro, rs, ds.
  repeat (split; [assumption|]).
  split; [exact (Hsub _ Hl)|]. split; [exact (Hsub _ Hr)|].
  split; [|exact Hop].
  destruct memo; [exact Hacc|]. destruct Hacc as [Ha Hin].
  split; [exact Ha | exact (Hsub _ Hin)].
Qed.

Lemma unrollTile_step (offsets : list Z) (rewriter : PatternRewriter)
    (accCache : AccCache) (newOp : MultiMmaOp) (newResult : Value)
    (rewriter' : PatternRewriter) (accCache' : AccCache) :
  unrollTileL offsets (rewriter, accCache) = Ret (newOp, newResult, (rewriter', accCache')) ->
  exists accOffets newCreated,
    accCache' = cacheSet accCache accOffets newResult /\
    created rewriter' = created rewriter ++ newCreated /\
    tileOperations newCreated = [(newOp, newResult)] /\
    tileStepL (cacheFind accCache accOffets) newCreated offsets
              (accOffets, newOp, newResult).
Proof.
  intros H. apply unrollTile_inv in H.
  destruct H as [lo [ls [ro [rs [ao [ds [H1 [H2 [H3 [H4 [H5 [H6 H]]]]]]]]]]]].
  cbv zeta in H. exists ao. unfold tileStep, traceKey, traceOp. cbn [fst snd].
  destruct (cacheFind accCache ao) as [cached|] eqn:Ec.
  - destruct H as [Hop [Hres Hst]]. inversion Hst; subst rewriter' accCache'.
    eexists. split; [reflexivity|]. cbn [created]. split; [reflexivity|].
    split; [cbn [tileOperations sliceOp]; rewrite Hres; reflexivity|].
    exists (nextOpId rewriter), lo, ls, ro, rs, ds.
    repeat (split; [assumption|]).
    split; [left; reflexivity|]. split; [right; left; reflexivity|].
    split; [rewrite Hop; reflexivity|].
    rewrite Hop at 1. rewrite Hop. reflexivity.
  - destruct H as [Hop [Hres Hst]]. inversion Hst; subst rewriter' accCache'.
    eexists. split; [reflexivity|]. cbn [created]. split; [reflexivity|].
    split; [cbn [tileOperations sliceOp]; rewrite Hres; reflexivity|].
    exists (nextOpId rewriter), lo, ls, ro, rs, ds.
    repeat (split; [assumption|]).
    split; [left; reflexivity|]. split; [right; left; reflexivity|].
    split.
    + split; [rewrite Hop; reflexivity|]. right. right. left. reflexivity.
    + rewrite Hop at 1. rewrite Hop. reflexivity.
Qed.

Lemma tileOperations_app (c1 c2 : list (nat * Operation)) :
  tileOperations (c1 ++ c2) = tileOperations c1 ++ tileOperations c2.
Proof.
  induction c1 as [|[id o] c1 IH]; [reflexivity|].
  cbn [app tileOperations]. rewrite IH. destruct o; reflexivity.
Qed.

(** The loop, tile by tile: the trace has one entry per tile, in order; the
    operations cloned are those of the trace, in order; each tile is processed
    with the memo table the tiles before it have left. *)
Lemma unrollTiles_steps (tiles : list (list Z)) :
  forall (rewriter : PatternRewriter) (accCache : AccCache)
         (newOps : list (MultiMmaOp * Value)) (rewriter' : PatternRewriter)
         (accCache' : AccCache),
  unrollTilesL tiles (rewriter, accCache) = Ret (newOps, (rewriter', accCache')) ->
  exists (trace : TileTrace) (newCreated : list (nat * Operation)),
    accCache' = cacheAfter trace accCache /\
    created rewriter' = created rewriter ++ newCreated /\
    tileOperations newCreated = map (fun x => (traceOp x, traceResult x)) trace /\
    length trace = length tiles /\
    (forall i offsets x,
       nth_error tiles i = Some offsets -> nth_error trace i = Some x ->
       tileStepL (cacheFind (cacheAfter (firstn i trace) accCache) (traceKey x))
                 newCreated offsets x).
Proof.
  induction tiles as [|offsets rest IH]; intros rewriter accCache newOps rewriter' accCache' H.
  - simpl in H. inversion H; subst. exists [], []. simpl.
    split; [reflexivity|]. split; [rewrite app_nil_r; reflexivity|].
    split; [reflexivity|]. split; [reflexivity|].
    intros [|i] o x Ho; discriminate.
  - simpl in H. apply bind_Ret_inv in H. destruct H as [[[newOp newResult] [rw1 c1]] [Ht H]].
    apply bind_Ret_inv in H. destruct H as [[ops [rw2 c2]] [Hr H]].
    inversion H; subst newOps rewriter' accCache'. clear H.
    apply unrollTile_step in Ht.
    destruct Ht as [ao [created1 [Hc1 [Hcr1 [Hops1 Hstep1]]]]].
    apply IH in Hr.
    destruct Hr as [trace [created2 [Hc2 [Hcr2 [Hops2 [Hlen Hsteps]]]]]].
    exists ((ao, newOp, newResult) :: trace), (created1 ++ created2).
    split; [unfold cacheAfter; simpl; rewrite Hc2, Hc1; reflexivity|].
    split; [rewrite Hcr2, Hcr1, app_assoc; reflexivity|].
    split; [rewrite tileOperations_app, Hops1, Hops2; reflexivity|].
    split; [simpl; rewrite Hlen; reflexivity|].
    intros [|i] o x Ho Hx; simpl in Ho, Hx.
    + inversion Ho; subst o. inversion Hx; subst x. cbn [firstn].
      rewrite <- (app_nil_l (created1 ++ created2)).
      apply tileStep_weaken. exact Hstep1.
    + cbn [firstn]. unfold cacheAfter. cbn [fold_left].
      fold (cacheAfter (firstn i trace)
              (cacheSet accCache (traceKey (ao, newOp, newResult))
                        (traceResult (ao, newOp, newResult)))).
      change (cacheSet accCache (traceKey (ao, newOp, newResult))
                (traceResult (ao, newOp, newResult)))
        with (cacheSet accCache ao newResult).
      rewrite <- Hc1.
      replace (created1 ++ created2) with (created1 ++ created2 ++ [])
        by (rewrite app_nil_r; reflexivity).
      apply tileStep_weaken. exact (Hsteps i o x Ho Hx).
Qed.

End UnrollLoopProperties.

(* ================================================================== *)
(** ** Unrolling: the assembly and the whole pattern *)

Lemma assemble_chain (innerAccShape : list Z) (entries : AccCache) :
  forall (result : Value) (rewriter : PatternRewriter) (final : Value)
         (rewriter' : PatternRewriter),
  assemble innerAccShape entries result rewriter = (final, rewriter') ->
  exists inserts,
    created rewriter' = created rewriter ++ inserts /\
    replacement rewriter' = replacement rewriter /\
    InsertChain result inserts final /\
    map insertedAt inserts =
      map (fun e => Some (snd e, fst e ++ repeat 0 (length innerAccShape))) entries.
Proof.
  induction entries as [|[offsets partialResult] rest IH];
    intros result rewriter final rewriter' H; simpl in H.
  - inversion H; subst. exists []. rewrite app_nil_r.
    repeat split; constructor.
  - apply IH in H. destruct H as [inserts [Hc [Hr [Hchain Hmap]]]].
    simpl in Hc, Hr.
    eexists (_ :: inserts). split; [rewrite Hc, <- app_assoc; reflexivity|].
    split; [exact Hr|]. split; [constructor; exact Hchain|].
    simpl. rewrite Hmap. reflexivity.
Qed.

Lemma InsertChain_In (start final : Value) (inserts : list (nat * Operation)) :
  InsertChain start inserts final ->
  forall id o, In (id, o) inserts ->
  exists source dest offsets strides, o = InsertStridedSliceOp source dest offsets strides.
Proof.
  induction 1 as [|start final source id0 offsets strides rest Hc IH]; intros id o Hin.
  - destruct Hin.
  - destruct Hin as [Heq|Hin]; [|exact (IH id o Hin)].
    inversion Heq; subst. eexists _, _, _, _. reflexivity.
Qed.

Lemma unroll_success_inv (options : UnrollVectorOptions) (mmaOp : MultiMmaOp)
    (rewriter rewriter' : PatternRewriter) :
  UnrollMultiMmaPattern options mmaOp rewriter = Ret (success, rewriter') ->
  exists shapeFn targetShape bounds lhsMap rhsMap accMap inner tiles newOps rw1 accCache,
    nativeShape options = Some shapeFn /\
    shapeFn mmaOp = Some targetShape /\
    getIterationBounds mmaOp = Ret bounds /\
    (length targetShape <= length bounds)%nat /\
    container (getResultType mmaOp) = VectorKind /\
    nth_error (getIndexingMapsArray mmaOp) 0 = Some lhsMap /\
    nth_error (getIndexingMapsArray mmaOp) 1 = Some rhsMap /\
    nth_error (getIndexingMapsArray mmaOp) 2 = Some accMap /\
    getAccInnerShape mmaOp = Ret inner /\
    StaticTileOffsetRange bounds targetShape
      (getUnrollOrder (length (getIteratorTypes mmaOp)) mmaOp options) = Ret tiles /\
    unrollTiles mmaOp targetShape lhsMap rhsMap accMap inner (getResultType mmaOp)
                tiles (rewriter, []) = Ret (newOps, (rw1, accCache)) /\
    let zero := create rw1 (ConstantZeroOp (getResultType mmaOp)) in
    let assembled := assemble inner accCache (fst zero) (snd zero) in
    rewriter' = replaceOp (snd assembled) (fst assembled).
Proof.
  unfold UnrollMultiMmaPattern, notifyMatchFailure. intros H.
  destruct (match filterConstraint options with
            | Some filter => failed (filter mmaOp)
            | None => false
            end); [discriminate|].
  destruct (nativeShape options) as [shapeFn|] eqn:En; [|discriminate].
  unfold getShapeForUnroll in H.
  destruct (getIterationBounds mmaOp) as [bounds|] eqn:Eb; simpl in H; [|discriminate].
  destruct (shapeFn mmaOp) as [targetShape|] eqn:Es; [|discriminate].
  destruct (computeShapeRatio bounds targetShape) as [ratio|] eqn:Er; [|discriminate].
  destruct (forallb isOne ratio); [discriminate|].
  unfold castVectorType in H.
  destruct (container (getResultType mmaOp)) eqn:Ec; simpl in H; [discriminate|].
  apply bind_Ret_inv in H. destruct H as [lhsMap [Hl H]].
  apply bind_Ret_inv in H. destruct H as [rhsMap [Hr H]].
  apply bind_Ret_inv in H. destruct H as [accMap [Ha H]].
  apply bind_Ret_inv in H. destruct H as [inner [Hi H]].
  apply bind_Ret_inv in H. destruct H as [tiles [Ht H]].
  apply bind_Ret_inv in H. destruct H as [[newOps [rw1 accCache]] [Hu H]].
  apply (index_nth_error _ 0%nat) in Hl.
  apply (index_nth_error _ 1%nat) in Hr.
  apply (index_nth_error _ 2%nat) in Ha.
  exists shapeFn, targetShape, bounds, lhsMap, rhsMap, accMap, inner, tiles, newOps,
    rw1, accCache.
  repeat (split; [first [reflexivity | assumption]|]).
  split.
  { unfold computeShapeRatio in Er.
    destruct (Nat.ltb_spec (length bounds) (length targetShape)); [discriminate | lia]. }
  repeat (split; [first [reflexivity | assumption]|]).
  cbv zeta. unfold create in *. simpl in *.
  match type of H with
  | (let '(_, _) := ?a in _) = _ => destruct a as [res rwa] eqn:Ea
  end.
  simpl. inversion H. reflexivity.
Qed.

Lemma InsertChain_tileOperations (start final : Value)
    (inserts : list (nat * Operation)) :
  InsertChain start inserts final -> tileOperations inserts = [].
Proof.
  induction 1 as [|start final source id0 offsets strides rest Hc IH];
    [reflexivity | exact IH].
Qed.

(** A successful unrolling, tile by tile: the tiles are those of the offset
    range; the operations created are those of the loop, the zero constant
    and the strided insertions; the trace has one entry per tile, in order,
    whose operations are the operations cloned, in the order of their
    creation; each tile is processed with what the tiles before it have
    memoized; the insertions put the entries of the memo table, in its order,
    into the zero constant. *)
Lemma unroll_success_steps (options : UnrollVectorOptions) (mmaOp : MultiMmaOp)
    (rewriter rewriter' : PatternRewriter)
    (shapeFn : MultiMmaOp -> option (list Z)) (targetShape bounds : list Z) :
  nativeShape options = Some shapeFn ->
  shapeFn mmaOp = Some targetShape ->
  getIterationBounds mmaOp = Ret bounds ->
  UnrollMultiMmaPattern options mmaOp rewriter = Ret (success, rewriter') ->
  exists lhsMap rhsMap accMap inner tiles (trace : TileTrace) loopCreated n inserts final,
    nth_error (getIndexingMapsArray mmaOp) 0 = Some lhsMap /\
    nth_error (getIndexingMapsArray mmaOp) 1 = Some rhsMap /\
    nth_error (getIndexingMapsArray mmaOp) 2 = Some accMap /\
    getAccInnerShape mmaOp = Ret inner /\
    (length targetShape <= length bounds)%nat /\
    container (getResultType mmaOp) = VectorKind /\
    StaticTileOffsetRange bounds targetShape
      (getUnrollOrder (length (getIteratorTypes mmaOp)) mmaOp options) = Ret tiles /\
    created rewriter' =
      created rewriter ++ loopCreated ++
      (n, ConstantZeroOp (getResultType mmaOp)) :: inserts /\
    tileOperations loopCreated = map (fun x => (traceOp x, traceResult x)) trace /\
    length trace = length tiles /\
    (forall i offsets x,
       nth_error tiles i = Some offsets -> nth_error trace i = Some x ->
       tileStep mmaOp targetShape lhsMap rhsMap accMap inner (getResultType mmaOp)
                (memoized (firstn i trace) (traceKey x)) loopCreated offsets x) /\
    InsertChain (resultOf n (ConstantZeroOp (getResultType mmaOp))) inserts final /\
    replacement rewriter' = Some final /\
    map insertedAt inserts =
      map (fun e => Some (snd e, fst e ++ repeat 0 (length inner)))
          (cacheAfter trace []).
Proof.
  intros Hn Hs Hb H. apply unroll_success_inv in H.
  destruct H as [shapeFn' [target' [bounds' [lhsMap [rhsMap [accMap [inner [tiles
    [newOps [rw1 [accCache [Hn' [Hs' [Hb' [Hlen [Hvec [Hl [Hr [Ha [Hi [Ht [Hu H]]]]]]]]]]]]]]]]]]]]]].
  rewrite Hn in Hn'. inversion Hn'; subst shapeFn'.
  rewrite Hs in Hs'. inversion Hs'; subst target'.
  rewrite Hb in Hb'. inversion Hb'; subst bounds'. clear Hn' Hs' Hb'.
  cbv zeta in H.
  apply unrollTiles_steps in Hu.
  destruct Hu as [trace [loopCreated [Hcache [Hc1 [Hops [Hlt Hsteps]]]]]].
  destruct (assemble inner accCache
              (fst (create rw1 (ConstantZeroOp (getResultType mmaOp))))
              (snd (create rw1 (ConstantZeroOp (getResultType mmaOp)))))
    as [final rwa] eqn:Ea.
  apply assemble_chain in Ea. destruct Ea as [inserts [Hc2 [_ [Hchain Hmap]]]].
  simpl in H, Hc2, Hchain. subst rewriter'.
  exists lhsMap, rhsMap, accMap, inner, tiles, trace, loopCreated, (nextOpId rw1),
    inserts, final.
  repeat (split; [assumption|]).
  split; [simpl; rewrite Hc2, Hc1, <- !app_assoc; reflexivity|].
  split; [exact Hops|]. split; [exact Hlt|].
  split.
  { intros i offsets x Ho Hx. pose proof (Hsteps i offsets x Ho Hx) as Hstep.
    rewrite cacheFind_cacheAfter in Hstep. cbn [cacheFind] in Hstep.
    destruct (memoized (firstn i trace) (traceKey x)); exact Hstep. }
  split; [exact Hchain|]. split; [reflexivity|].
  rewrite Hmap, Hcache. reflexivity.
Qed.

(** C3, as amended. The unrolling creates one operation per tile of the
    offset range, in the order of the tiles, and each is a clone of the
    original on three slices: the slices of the lhs and of the rhs at the
    offsets of the tile read through their maps, of the target shape read
    through the same maps, and, as the accumulator, the partial result
    memoized for the accumulator offsets of the tile by the tiles before it,
    or else a fresh slice of the original accumulator at these offsets. Its
    result type is the native one: the target shape read through the
    accumulator map, then the inner accumulator shape, with the element type
    of the original result. It keeps the indexing maps, the iterator kinds and
    the intrinsic kind of the original, and therefore derives one bound per
    iterator position, the target native shape, not an empty sequence. *)
Theorem unroll_clone_keeps_attributes (options : UnrollVectorOptions)
    (mmaOp : MultiMmaOp) (rewriter rewriter' : PatternRewriter)
    (shapeFn : MultiMmaOp -> option (list Z)) (targetShape bounds : list Z) :
  nativeShape options = Some shapeFn ->
  shapeFn mmaOp = Some targetShape ->
  getIterationBounds mmaOp = Ret bounds ->
  UnrollMultiMmaPattern options mmaOp rewriter = Ret (success, rewriter') ->
  exists lhsMap rhsMap accMap inner tiles (trace : TileTrace) newCreated,
    nth_error (getIndexingMapsArray mmaOp) 0 = Some lhsMap /\
    nth_error (getIndexingMapsArray mmaOp) 1 = Some rhsMap /\
    nth_error (getIndexingMapsArray mmaOp) 2 = Some accMap /\
    getAccInnerShape mmaOp = Ret inner /\
    StaticTileOffsetRange bounds targetShape
      (getUnrollOrder (length (getIteratorTypes mmaOp)) mmaOp options) = Ret tiles /\
    created rewriter' = created rewriter ++ newCreated /\
    tileOperations newCreated = map (fun x => (traceOp x, traceResult x)) trace /\
    length trace = length tiles /\
    forall i offsets x,
      nth_error tiles i = Some offsets -> nth_error trace i = Some x ->
      (exists n lhsOffets lhsShape rhsOffets rhsShape dstShape,
         applyPermutationMap lhsMap offsets = Ret lhsOffets /\
         applyPermutationMap lhsMap targetShape = Ret lhsShape /\
         applyPermutationMap rhsMap offsets = Ret rhsOffets /\
         applyPermutationMap rhsMap targetShape = Ret rhsShape /\
         applyPermutationMap accMap offsets = Ret (traceKey x) /\
         applyPermutationMap accMap targetShape = Ret dstShape /\
         getLhs (traceOp x) = resultOf n (sliceOp (getLhs mmaOp) lhsOffets lhsShape) /\
         In (n, sliceOp (getLhs mmaOp) lhsOffets lhsShape) newCreated /\
         getRhs (traceOp x) = resultOf (S n) (sliceOp (getRhs mmaOp) rhsOffets rhsShape) /\
         In (S n, sliceOp (getRhs mmaOp) rhsOffets rhsShape) newCreated /\
         match memoized (firstn i trace) (traceKey x) with
         | Some partialResult => getAcc (traceOp x) = partialResult
         | None =>
             getAcc (traceOp x) =
               resultOf (S (S n)) (sliceOp (getAcc mmaOp) (traceKey x) dstShape) /\
             In (S (S n), sliceOp (getAcc mmaOp) (traceKey x) dstShape) newCreated
         end /\
         getResultType (traceOp x) =
           mkShapedType VectorKind (dstShape ++ inner)
                        (getElementType (getResultType mmaOp))) /\
      getIndexingMapsArray (traceOp x) = getIndexingMapsArray mmaOp /\
      getIteratorTypes (traceOp x) = getIteratorTypes mmaOp /\
      getKind (traceOp x) = getKind mmaOp /\
      getIterationBounds (traceOp x) = Ret targetShape.
Proof.
  intros Hn Hs Hb H.
  destruct (unroll_success_steps options mmaOp rewriter rewriter' shapeFn targetShape
              bounds Hn Hs Hb H)
    as [lhsMap [rhsMap [accMap [inner [tiles [trace [loopCreated [n [inserts [final
         [Hl [Hr [Ha [Hi [Hlen [_ [Ht [Hc [Hops [Hlt [Hsteps [Hchain _]]]]]]]]]]]]]]]]]]]]]].
  exists lhsMap, rhsMap, accMap, inner, tiles, trace,
    (loopCreated ++ (n, ConstantZeroOp (getResultType mmaOp)) :: inserts).
  repeat (split; [assumption|]).
  split.
  { rewrite tileOperations_app. cbn [tileOperations].
    rewrite (InsertChain_tileOperations _ _ _ Hchain), app_nil_r. exact Hops. }
  split; [exact Hlt|].
  intros i offsets x Ho Hx.
  destruct (Hsteps i offsets x Ho Hx)
    as [k [lo [ls [ro [rs [ds [H1 [H2 [H3 [H4 [H5 [H6 [Hlin [Hrin [Hacc Hop]]]]]]]]]]]]]]].
  assert (Hsub : forall e, In e loopCreated ->
            In e (loopCreated ++ (n, ConstantZeroOp (getResultType mmaOp)) :: inserts)).
  { intros e He. apply in_or_app. left. exact He. }
  split.
  - exists k, lo, ls, ro, rs, ds.
    repeat (split; [assumption|]).
    split; [rewrite Hop; reflexivity|]. split; [exact (Hsub _ Hlin)|].
    split; [rewrite Hop; reflexivity|]. split; [exact (Hsub _ Hrin)|].
    split.
    + destruct (memoized (firstn i trace) (traceKey x)); [exact Hacc|].
      destruct Hacc as [Hacc Hin]. split; [exact Hacc | exact (Hsub _ Hin)].
    + rewrite Hop. reflexivity.
  - rewrite Hop. cbn [tileOp getIndexingMapsArray getIteratorTypes getKind].
    repeat (split; [reflexivity|]).
    exact (tileOp_bounds mmaOp targetShape lhsMap accMap inner (getResultType mmaOp)
             Hl Ha k lo ls ro rs ds _ bounds H2 H6 Hb Hlen).
Qed.

Lemma unroll_clone_keeps_attributes_witness :
  exists tiles (trace : TileTrace) newCreated,
    StaticTileOffsetRange [2; 2] [1; 1] [0; 1] = Ret tiles /\
    created Samples.dotUnrolled = created Samples.emptyRewriter ++ newCreated /\
    tileOperations newCreated = map (fun x => (traceOp x, traceResult x)) trace /\
    length trace = length tiles /\
    forall i x, nth_error trace i = Some x ->
      getIndexingMapsArray (traceOp x) = getIndexingMapsArray Samples.dot /\
      getIterationBounds (traceOp x) = Ret [1; 1].
Proof.
  assert (Hrun : UnrollMultiMmaPattern (Samples.unrollTo [1; 1]) Samples.dot
                   Samples.emptyRewriter = Ret (success, Samples.dotUnrolled))
    by (vm_compute; reflexivity).
  assert (Hb : getIterationBounds Samples.dot = Ret [2; 2]) by (vm_compute; reflexivity).
  destruct (unroll_clone_keeps_attributes (Samples.unrollTo [1; 1]) Samples.dot
              Samples.emptyRewriter Samples.dotUnrolled (fun _ => Some [1; 1]) [1; 1]
              [2; 2] eq_refl eq_refl Hb Hrun)
    as [lhsMap [rhsMap [accMap [inner [tiles [trace [newCreated
         [_ [_ [_ [_ [Ht [Hc [Hops [Hlt Hall]]]]]]]]]]]]]]].
  exists tiles, trace, newCreated.
  split; [exact Ht|]. split; [exact Hc|]. split; [exact Hops|]. split; [exact Hlt|].
  intros i x Hx.
  destruct (nth_error tiles i) as [offsets|] eqn:Ho.
  - destruct (Hall i offsets x Ho Hx) as [_ [Hm [_ [_ Hbd]]]].
    split; [exact Hm | exact Hbd].
  - exfalso. apply nth_error_None in Ho.
    assert (i < length trace)%nat by (apply nth_error_Some; congruence). lia.
Defined.

(** C3, as stated, fails: the operations created for the tiles of [dot],
    unrolled to the native shape [1, 1], carry the three indexing maps and the
    two iterator kinds of [dot] and derive the bounds [1, 1]. *)
Lemma unroll_clone_empty_maps_counterexample :
  UnrollMultiMmaPattern (Samples.unrollTo [1; 1]) Samples.dot Samples.emptyRewriter =
    Ret (success, Samples.dotUnrolled) /\
  In (103%nat, MultiMma Samples.dotFirstTile) (created Samples.dotUnrolled) /\
  getIndexingMapsArray Samples.dotFirstTile = getIndexingMapsArray Samples.dot /\
  getIndexingMapsArray Samples.dotFirstTile <> [] /\
  getIteratorTypes Samples.dotFirstTile <> [] /\
  getIterationBounds Samples.dotFirstTile = Ret [1; 1] /\
  getIterationBounds Samples.dotFirstTile <> Ret [].
Proof.
  split; [vm_compute; reflexivity|]. split.
  - vm_compute. right. right. right. left. reflexivity.
  - vm_compute. repeat split; discriminate.
Qed.

(* ================================================================== *)
(** ** Unrolling: accumulators along the reduction dimensions *)

Lemma nth_of_nth_error {A : Type} (l : list A) (n : nat) (d : A) :
  nth n l d = match nth_error l n with Some x => x | None => d end.
Proof.
  revert n. induction l as [|a l IH]; intros [|n]; simpl; try reflexivity. apply IH.
Qed.

Lemma dimPositions_In_dim (results : list AffineExpr) :
  forall ps, dimPositions results = Some ps ->
  forall p, In p ps -> In (AffineDimExpr p) results.
Proof.
  induction results as [|e rest IH]; intros ps H p Hp; simpl in H.
  - inversion H; subst. destruct Hp.
  - destruct e as [q| | |]; try discriminate.
    destruct (dimPositions rest) as [ps'|] eqn:E; [|discriminate].
    inversion H; subst ps. destruct Hp as [->|Hp]; [left; reflexivity|].
    right. exact (IH ps' eq_refl p Hp).
Qed.

Lemma reduction_offsets_agree (iteratorTypes : list IteratorType) (m : AffineMap)
    (c1 c2 : list Z) :
  noReductionAmongOutputs iteratorTypes m ->
  differOnlyInReductionDims iteratorTypes c1 c2 ->
  applyPermutationMap m c1 = applyPermutationMap m c2.
Proof.
  intros Hno [Hlen Hagree]. unfold applyPermutationMap. rewrite Hlen.
  destruct (assert (isProjectedPermutation m)); simpl; [|reflexivity].
  destruct (assert (Nat.eqb (getNumDims m) (length c2))); simpl; [|reflexivity].
  destruct (dimPositions (getResults m)) as [ps|] eqn:E; [|reflexivity].
  f_equal. apply map_ext_in. intros p Hp.
  rewrite !nth_of_nth_error, (Hagree p); [reflexivity|].
  apply Hno. exact (dimPositions_In_dim _ ps E p Hp).
Qed.

(** C2, as amended. When the unrolling succeeds on an operation whose result
    type is the type of its accumulator:
    - two tile coordinates that differ only in reduction-kind dimensions have
      the same accumulator-space offsets, provided no reduction-kind dimension
      is among the outputs of the accumulator map;
    - the trace has one entry per tile of the offset range, in order, with the
      accumulator-space offsets of the tile, and its operations are the
      operations cloned, in the order of their creation;
    - a tile whose accumulator offsets were last met at an earlier tile takes
      the result of the operation of that tile as its accumulator slice, the
      memo entry being overwritten after each tile; the first tile with given
      offsets takes a fresh slice of the original accumulator, at these
      offsets and of the target shape read through the accumulator map;
    - after the tiles, a zero buffer of the type of the accumulator, a vector
      type, is created, and one strided insertion per memo entry, each into
      the result of the one before, puts the partial result memoized for each
      accumulator-space offset at that offset, padded with zeros for the inner
      dimensions; the result of the last one replaces the operation. *)
Theorem unroll_accumulator_memoization (options : UnrollVectorOptions)
    (mmaOp : MultiMmaOp) (rewriter rewriter' : PatternRewriter)
    (shapeFn : MultiMmaOp -> option (list Z)) (targetShape bounds : list Z) :
  nativeShape options = Some shapeFn ->
  shapeFn mmaOp = Some targetShape ->
  getIterationBounds mmaOp = Ret bounds ->
  getResultType mmaOp = getAccType mmaOp ->
  UnrollMultiMmaPattern options mmaOp rewriter = Ret (success, rewriter') ->
  exists accMap inner tiles (trace : TileTrace) loopCreated n inserts entries final,
    nth_error (getIndexingMapsArray mmaOp) 2 = Some accMap /\
    getAccInnerShape mmaOp = Ret inner /\
    StaticTileOffsetRange bounds targetShape
      (getUnrollOrder (length (getIteratorTypes mmaOp)) mmaOp options) = Ret tiles /\
    (noReductionAmongOutputs (getIteratorTypes mmaOp) accMap ->
     forall c1 c2, differOnlyInReductionDims (getIteratorTypes mmaOp) c1 c2 ->
       applyPermutationMap accMap c1 = applyPermutationMap accMap c2) /\
    Forall2 (fun t x => applyPermutationMap accMap t = Ret (traceKey x)) tiles trace /\
    created rewriter' =
      created rewriter ++ loopCreated ++
      (n, ConstantZeroOp (getAccType mmaOp)) :: inserts /\
    tileOperations loopCreated = map (fun x => (traceOp x, traceResult x)) trace /\
    (forall pre x mid y post,
       trace = pre ++ x :: mid ++ y :: post ->
       traceKey y = traceKey x ->
       (forall z, In z mid -> traceKey z <> traceKey x) ->
       getAcc (traceOp y) = traceResult x) /\
    (forall pre x post,
       trace = pre ++ x :: post ->
       (forall z, In z pre -> traceKey z <> traceKey x) ->
       exists id sizes,
         applyPermutationMap accMap targetShape = Ret sizes /\
         getAcc (traceOp x) = resultOf id (sliceOp (getAcc mmaOp) (traceKey x) sizes) /\
         In (id, sliceOp (getAcc mmaOp) (traceKey x) sizes) loopCreated) /\
    container (getAccType mmaOp) = VectorKind /\
    InsertChain (resultOf n (ConstantZeroOp (getAccType mmaOp))) inserts final /\
    replacement rewriter' = Some final /\
    map insertedAt inserts =
      map (fun e => Some (snd e, fst e ++ repeat 0 (length inner))) entries /\
    NoDup (map fst entries) /\
    (forall key v, In (key, v) entries <-> memoized trace key = Some v).
Proof.
  intros Hn Hs Hb Hres H.
  destruct (unroll_success_steps options mmaOp rewriter rewriter' shapeFn targetShape
              bounds Hn Hs Hb H)
    as [lhsMap [rhsMap [accMap [inner [tiles [trace [loopCreated [n [inserts [final
         [Hl [Hr [Ha [Hi [Hlen [Hvec [Ht [Hc [Hops [Hlt [Hsteps [Hchain [Hrep
         Hmap]]]]]]]]]]]]]]]]]]]]]]].
  rewrite Hres in Hvec, Hc, Hchain.
  exists accMap, inner, tiles, trace, loopCreated, n, inserts, (cacheAfter trace []), final.
  split; [exact Ha|]. split; [exact Hi|]. split; [exact Ht|].
  split; [intros Hno c1 c2 Hd; exact (reduction_offsets_agree _ _ _ _ Hno Hd)|].
  assert (Hat : forall i x, nth_error trace i = Some x ->
            exists offsets, nth_error tiles i = Some offsets).
  { intros i x Hx. destruct (nth_error tiles i) as [offsets|] eqn:Ho; [eauto|].
    exfalso. apply nth_error_None in Ho.
    assert (i < length trace)%nat by (apply nth_error_Some; congruence). lia. }
  split.
  { clear - Hlt Hsteps.
    assert (Hgen : forall ts tr, length tr = length ts ->
              (forall i offsets x, nth_error ts i = Some offsets ->
                 nth_error tr i = Some x ->
                 applyPermutationMap accMap offsets = Ret (traceKey x)) ->
              Forall2 (fun t x => applyPermutationMap accMap t = Ret (traceKey x)) ts tr).
    { induction ts as [|t ts IH]; intros [|x tr] Hl Hall; try discriminate;
        constructor.
      - exact (Hall 0%nat t x eq_refl eq_refl).
      - apply IH; [simpl in Hl; lia|].
        intros i o y Ho Hy. exact (Hall (S i) o y Ho Hy). }
    apply Hgen; [exact Hlt|].
    intros i offsets x Ho Hx.
    destruct (Hsteps i offsets x Ho Hx)
      as [k [lo [ls [ro [rs [ds [_ [_ [_ [_ [H5 _]]]]]]]]]]].
    exact H5. }
  split; [exact Hc|]. split; [exact Hops|].
  split.
  { intros pre x mid y post Htr Hkey Hmid.
    assert (Hy : nth_error trace (length (pre ++ x :: mid)) = Some y).
    { rewrite Htr.
      replace (pre ++ x :: mid ++ y :: post) with ((pre ++ x :: mid) ++ y :: post)
        by (rewrite <- app_assoc; reflexivity).
      rewrite nth_error_app2, Nat.sub_diag by lia. reflexivity. }
    destruct (Hat _ _ Hy) as [offsets Ho].
    destruct (Hsteps _ offsets y Ho Hy)
      as [k [lo [ls [ro [rs [ds [_ [_ [_ [_ [_ [_ [_ [_ [Hacc _]]]]]]]]]]]]]]].
    assert (Hfirst : firstn (length (pre ++ x :: mid)) trace = pre ++ x :: mid).
    { rewrite Htr.
      replace (pre ++ x :: mid ++ y :: post) with ((pre ++ x :: mid) ++ y :: post)
        by (rewrite <- app_assoc; reflexivity).
      rewrite firstn_app, Nat.sub_diag, firstn_all. cbn [firstn].
      rewrite app_nil_r. reflexivity. }
    rewrite Hfirst, Hkey, (memoized_last pre mid x Hmid) in Hacc. exact Hacc. }
  split.
  { intros pre x post Htr Hpre.
    assert (Hx : nth_error trace (length pre) = Some x).
    { rewrite Htr, nth_error_app2, Nat.sub_diag by lia. reflexivity. }
    destruct (Hat _ _ Hx) as [offsets Ho].
    destruct (Hsteps _ offsets x Ho Hx)
      as [k [lo [ls [ro [rs [ds [_ [_ [_ [_ [_ [H6 [_ [_ [Hacc _]]]]]]]]]]]]]]].
    assert (Hfirst : firstn (length pre) trace = pre).
    { rewrite Htr, firstn_app, Nat.sub_diag, firstn_all. cbn [firstn].
      rewrite app_nil_r. reflexivity. }
    rewrite Hfirst, (memoized_None pre _ Hpre) in Hacc.
    destruct Hacc as [Hacc Hin].
    exists (S (S k)), ds. split; [exact H6|]. split; [exact Hacc | exact Hin]. }
  split; [exact Hvec|]. split; [exact Hchain|]. split; [exact Hrep|].
  split; [exact Hmap|].
  assert (Hnd : NoDup (map fst (cacheAfter trace []))).
  { apply cacheAfter_NoDup. constructor. }
  split; [exact Hnd|].
  intros key v. rewrite (cacheFind_In _ key v Hnd), cacheFind_cacheAfter.
  simpl. destruct (memoized trace key); split; intros Hx; first [exact Hx | discriminate].
Qed.

Lemma unroll_accumulator_memoization_witness :
  exists tiles (trace : TileTrace) loopCreated n inserts final,
    StaticTileOffsetRange [2; 2] [1; 1] [0; 1] = Ret tiles /\
    Forall2 (fun t x => applyPermutationMap (mkAffineMap 2 0 [Samples.d 0]) t =
                        Ret (traceKey x)) tiles trace /\
    created Samples.dotUnrolled =
      created Samples.emptyRewriter ++ loopCreated ++
      (n, ConstantZeroOp (getAccType Samples.dot)) :: inserts /\
    tileOperations loopCreated = map (fun x => (traceOp x, traceResult x)) trace /\
    replacement Samples.dotUnrolled = Some final.
Proof.
  assert (Hrun : UnrollMultiMmaPattern (Samples.unrollTo [1; 1]) Samples.dot
                   Samples.emptyRewriter = Ret (success, Samples.dotUnrolled))
    by (vm_compute; reflexivity).
  assert (Hb : getIterationBounds Samples.dot = Ret [2; 2]) by (vm_compute; reflexivity).
  destruct (unroll_accumulator_memoization (Samples.unrollTo [1; 1]) Samples.dot
              Samples.emptyRewriter Samples.dotUnrolled (fun _ => Some [1; 1]) [1; 1]
              [2; 2] eq_refl eq_refl Hb eq_refl Hrun)
    as [accMap [inner [tiles [trace [loopCreated [n [inserts [entries [final H]]]]]]]]].
  destruct H as [Ha [_ [Ht [_ [HF [Hc [Hops [_ [_ [_ [_ [Hrep _]]]]]]]]]]]].
  inversion Ha; subst accMap.
  exists tiles, trace, loopCreated, n, inserts, final.
  split; [exact Ht|]. split; [exact HF|]. split; [exact Hc|].
  split; [exact Hops | exact Hrep].
Defined.

(** C2, as stated, fails: [reductionInAcc] passes the verifier (for an
    inference that accepts the maps of a matrix multiplication); the tile
    coordinates [0, 0, 0] and [1, 0, 0] of its bounds [2, 5, 3], tiled by
    [1, 1, 1], differ only in dimension 0, of reduction kind, and their
    accumulator-space offsets [0, 0] and [1, 0] differ. *)
Lemma reduction_offsets_counterexample :
  verify (fun _ => true) Samples.reductionInAcc = Ret success /\
  getIterationBounds Samples.reductionInAcc = Ret [2; 5; 3] /\
  (exists tiles,
     StaticTileOffsetRange [2; 5; 3] [1; 1; 1] [0; 1; 2] = Ret tiles /\
     In [0; 0; 0] tiles /\ In [1; 0; 0] tiles) /\
  nth_error (getIndexingMapsArray Samples.reductionInAcc) 2 = Some Samples.accMap /\
  differOnlyInReductionDims (getIteratorTypes Samples.reductionInAcc)
    [0; 0; 0] [1; 0; 0] /\
  applyPermutationMap Samples.accMap [0; 0; 0] = Ret [0; 0] /\
  applyPermutationMap Samples.accMap [1; 0; 0] = Ret [1; 0] /\
  applyPermutationMap Samples.accMap [0; 0; 0] <>
    applyPermutationMap Samples.accMap [1; 0; 0].
Proof.
  split; [vm_compute; reflexivity|]. split; [vm_compute; reflexivity|]. split.
  { eexists. split; [vm_compute; reflexivity|]. split.
    - left. reflexivity.
    - do 15 right. left. reflexivity. }
  split; [reflexivity|]. split.
  { split; [reflexivity|]. intros [|[|[|d]]] Hd; simpl in *; try reflexivity.
    exfalso. apply Hd. reflexivity. }
  split; [vm_compute; reflexivity|]. split; [vm_compute; reflexivity|].
  vm_compute. discriminate.
Qed.

(* ================================================================== *)
(** * Shuffle lowering and forall fusion *)

Module RegionsProperties.

Import Regions.

(** ** What the rewriter services leave of the listener's record *)

Lemma insertAt_log (point : InsertionPoint) (new : list Operation) (rewriter : Rewriter) :
  nextId (insertAt point new rewriter) = nextId rewriter /\
  created (insertAt point new rewriter) = created rewriter /\
  inlined (insertAt point new rewriter) = inlined rewriter /\
  erased (insertAt point new rewriter) = erased rewriter.
Proof.
  unfold insertAt.
  destruct (match point with
            | Before id => insertBefore id new (block rewriter)
            | After id => insertAfter id new (block rewriter)
            | StartOfBlock owner =>
                if blockErased owner rewriter then None
                else if Nat.eqb owner (blockOwner rewriter)
                then Some (new ++ block rewriter)
                else insertAtStart owner new (block rewriter)
            end); simpl; repeat split; reflexivity.
Qed.

Lemma create_log (point : InsertionPoint) (mk : nat -> Operation) (rewriter : Rewriter) :
  fst (create point mk rewriter) = mk (nextId rewriter) /\
  nextId (snd (create point mk rewriter)) = S (nextId rewriter) /\
  created (snd (create point mk rewriter)) = created rewriter ++ [mk (nextId rewriter)] /\
  inlined (snd (create point mk rewriter)) = inlined rewriter /\
  erased (snd (create point mk rewriter)) = erased rewriter.
Proof.
  unfold create. simpl.
  destruct (insertAt_log point [mk (nextId rewriter)] rewriter) as [Hn [Hc [Hi He]]].
  rewrite Hn, Hc, Hi, He. repeat split; reflexivity.
Qed.

Lemma eraseOp_log (id numResults : nat) (rewriter rewriter' : Rewriter) :
  eraseOp id numResults rewriter = Ret rewriter' ->
  use_empty id numResults rewriter = true /\
  nextId rewriter' = nextId rewriter /\
  created rewriter' = created rewriter /\
  inlined rewriter' = inlined rewriter /\
  elsewhere rewriter' = elsewhere rewriter.
Proof.
  unfold eraseOp. intros H. apply bind_Ret_inv in H. destruct H as [u [Hu H]].
  apply assert_Ret_inv in Hu. inversion H; subst rewriter'.
  destruct (existsb (containsOp id) (block rewriter)); simpl;
    repeat split; first [exact Hu | reflexivity].
Qed.

(** An operation without results has no uses: erasing it never asserts. *)
Lemma eraseOp_no_results (id : nat) (rewriter : Rewriter) :
  exists rewriter',
    eraseOp id 0 rewriter = Ret rewriter' /\
    nextId rewriter' = nextId rewriter /\
    created rewriter' = created rewriter /\
    inlined rewriter' = inlined rewriter /\
    elsewhere rewriter' = elsewhere rewriter.
Proof.
  unfold eraseOp, use_empty. cbn [seq forallb assert bind].
  eexists. split; [reflexivity|].
  destruct (existsb (containsOp id) (block rewriter)); simpl; repeat split; reflexivity.
Qed.

Lemma inlineBlockBefore_log (owner : nat) (body : list Operation) (before : nat)
    (argValues : list Value) (rewriter : Rewriter) :
  nextId (inlineBlockBefore owner body before argValues rewriter) = nextId rewriter /\
  created (inlineBlockBefore owner body before argValues rewriter) = created rewriter /\
  inlined (inlineBlockBefore owner body before argValues rewriter) =
    inlined rewriter ++ [(owner, argValues)].
Proof.
  unfold inlineBlockBefore. simpl.
  destruct (insertAt_log (Before before)
              (map (mapUses (substituteArguments owner argValues) []) body) rewriter)
    as [Hn [Hc [Hi _]]].
  rewrite Hn, Hc, Hi. repeat split; reflexivity.
Qed.

Lemma blockErased_inlined (owner : nat) (body : list Operation) (before : nat)
    (argValues : list Value) (rewriter : Rewriter) :
  blockErased owner (inlineBlockBefore owner body before argValues rewriter) = true.
Proof.
  unfold blockErased.
  destruct (inlineBlockBefore_log owner body before argValues rewriter) as [_ [_ Hi]].
  rewrite Hi, existsb_app. simpl. rewrite Nat.eqb_refl, orb_true_r. reflexivity.
Qed.

Lemma create_in_erased_block (owner : nat) (mk : nat -> Operation) (rewriter : Rewriter) :
  blockErased owner rewriter = true ->
  create (StartOfBlock owner) mk rewriter =
  (mk (nextId rewriter),
   mkRewriter (S (nextId rewriter)) (blockOwner rewriter) (block rewriter)
     (elsewhere rewriter ++ [mk (nextId rewriter)]) (erased rewriter)
     (created rewriter ++ [mk (nextId rewriter)]) (inlined rewriter)).
Proof.
  intros H. unfold create, insertAt. rewrite H. reflexivity.
Qed.


(** ** Shuffle lowering *)

(** C7, at the failing input. For a shuffle whose body only yields its block
    argument, the lowering creates the insertion of the source slice, the
    write barrier on the inserted value and then a read barrier whose operand
    is the block argument of the body, read from the terminator before the
    body was inlined, and not the result of the write barrier; the block of
    that argument was erased by the inlining, so the read barrier is created
    outside the lowered block. *)
Theorem lowerShuffle_identity_body (shuffleOp : ShuffleTensor) (rewriter : Rewriter)
    (yieldId : nat) :
  getBody shuffleOp = [YieldOp yieldId (getArgument (shuffleId shuffleOp) 0)] ->
  exists rewriter',
    LowerShuffleTensor shuffleOp rewriter = Ret (success, rewriter') /\
    let n := nextId rewriter in
    let readBarrier := ValueBarrierOp (S (S n)) (getArgument (shuffleId shuffleOp) 0) in
    created rewriter' =
      created rewriter ++
      [InsertSliceOp n (getSource shuffleOp) (getDest shuffleOp)
         (getMixedOffsets shuffleOp) (getMixedSizes shuffleOp)
         (getMixedStrides shuffleOp);
       ValueBarrierOp (S n) (OpResult n 0);
       readBarrier] /\
    getArgument (shuffleId shuffleOp) 0 <> OpResult (S n) 0 /\
    inlined rewriter' = inlined rewriter ++ [(shuffleId shuffleOp, [OpResult (S n) 0])] /\
    In readBarrier (elsewhere rewriter').
Proof.
  intros Hbody. unfold LowerShuffleTensor. rewrite Hbody.
  match goal with
  | |- context [create ?p ?mk rewriter] =>
      pose proof (create_log p mk rewriter) as L1;
      destruct (create p mk rewriter) as [insertedSlice rw1]
  end.
  simpl in L1. destruct L1 as [Ho1 [Hn1 [Hc1 [Hi1 _]]]]. subst insertedSlice.
  match goal with
  | |- context [create ?p ?mk rw1] =>
      pose proof (create_log p mk rw1) as L2;
      destruct (create p mk rw1) as [writeBarrier rw2]
  end.
  simpl in L2. destruct L2 as [Ho2 [Hn2 [Hc2 [Hi2 _]]]]. subst writeBarrier.
  cbn - [create inlineBlockBefore replaceAllUsesExcept eraseOp numResultsOf].
  match goal with
  | |- context [inlineBlockBefore ?o ?b ?t ?a rw2] =>
      pose proof (inlineBlockBefore_log o b t a rw2) as L3;
      pose proof (blockErased_inlined o b t a rw2) as Herased;
      remember (inlineBlockBefore o b t a rw2) as rw3 eqn:Erw3
  end.
  clear Erw3. destruct L3 as [Hn3 [Hc3 Hi3]].
  rewrite (create_in_erased_block _ _ rw3 Herased).
  cbn [numResultsOf opId].
  match goal with
  | |- context [eraseOp ?i 0 ?r] =>
      destruct (eraseOp_no_results i r) as [rw5 [Hrun5 [_ [Hc5 [Hi5 He5]]]]]
  end.
  rewrite Hrun5. cbn [bind].
  eexists. split; [reflexivity|].
  cbv zeta.
  rewrite Hc5, Hi5, He5. simpl created. simpl inlined. simpl elsewhere.
  rewrite Hc3, Hc2, Hc1, Hi3, Hi2, Hi1, Hn3, Hn2, Hn1, <- !app_assoc.
  split; [reflexivity|]. split; [discriminate|]. split; [reflexivity|].
  rewrite map_app. apply in_or_app. right. left. reflexivity.
Qed.

Lemma lowerShuffle_identity_body_witness :
  exists rewriter',
    LowerShuffleTensor identityShuffle (rewriterAround identityShuffle) =
      Ret (success, rewriter') /\
    created rewriter' =
      [InsertSliceOp 100 (OpResult 1 0) (OpResult 2 0) [Val (OpResult 3 0)]
         [Attr 4] [Attr 1];
       ValueBarrierOp 101 (OpResult 100 0);
       ValueBarrierOp 102 (BlockArgument 10 0)] /\
    getArgument 10 0 <> OpResult 101 0 /\
    inlined rewriter' = [(10%nat, [OpResult 101 0])] /\
    In (ValueBarrierOp 102 (BlockArgument 10 0)) (elsewhere rewriter').
Proof.
  exact (lowerShuffle_identity_body identityShuffle (rewriterAround identityShuffle)
           12 eq_refl).
Defined.

(** The lowering of [readBack]: the insertion, the write barrier, the body
    reading the write barrier's result, the read barrier on the value the
    body yields, and the user of the shuffle reading the read barrier. *)
Example lowerShuffle_readBack :
  exists rewriter',
    LowerShuffleTensor readBack (rewriterAround readBack) = Ret (success, rewriter') /\
    block rewriter' =
      [OtherOp 1 "source" [] []; OtherOp 2 "dest" [] []; OtherOp 3 "offset" [] [];
       InsertSliceOp 100 (OpResult 1 0) (OpResult 2 0) [Val (OpResult 3 0)]
         [Attr 4] [Attr 1];
       ValueBarrierOp 101 (OpResult 100 0);
       ExtractSliceOp 11 tensor4 (OpResult 101 0) [Attr 0] [Attr 4] [Attr 1];
       ValueBarrierOp 102 (OpResult 11 0);
       ShuffleTensorOp 10 tensor4 (OpResult 1 0) (OpResult 2 0)
         [Val (OpResult 3 0)] [Attr 4] [Attr 1] [];
       OtherOp 20 "user" [OpResult 102 0] []] /\
    elsewhere rewriter' = [].
Proof.
  eexists. split; [vm_compute; reflexivity|]. split; vm_compute; reflexivity.
Qed.

(** ** Forall fusion: the checks *)


Lemma ceilDiv_zero (lhs : Z) : ceilDiv lhs 0 = Abort.
Proof. reflexivity. Qed.


Lemma tripCountFrom_zero_step (lbs : list Z) :
  forall (ubs steps : list Z) (tripCount : Z),
  In 0 steps -> tripCountFrom tripCount lbs ubs steps = Abort.
Proof.
  induction lbs as [|lb lbs IH]; intros [|ub ubs] [|step steps] tripCount Hz;
    try reflexivity; try (destruct Hz; fail).
  cbn [tripCountFrom]. destruct Hz as [->|Hz]; [reflexivity|].
  destruct (ceilDiv (wrap64 (ub - lb)) step); [|reflexivity].
  cbn [bind]. apply IH. exact Hz.
Qed.


(** The trip count of a loop with static bounds and a step of 0 is not
    computed: the division asserts. *)
Lemma getTripCount_zero_step (loop : ForallOp) :
  isDynamicShape (getStaticLowerBound loop) ||
  isDynamicShape (getStaticUpperBound loop) ||
  isDynamicShape (getStaticStep loop) = false ->
  In 0 (getStaticStep loop) ->
  getTripCount loop = Abort.
Proof.
  intros Hs Hz. unfold getTripCount. rewrite Hs.
  rewrite (tripCountFrom_zero_step _ _ _ 1 Hz). reflexivity.
Qed.




Section FuseChecks.

Variable getConstantIntValue : Value -> option Z.


Lemma DeviceMappingAttr_eqb_eq (a b : DeviceMappingAttr) :
  DeviceMappingAttr_eqb a b = true <-> a = b.
Proof.
  destruct a, b; simpl; rewrite ?Nat.eqb_eq; split; intros H;
    try discriminate; try (inversion H; reflexivity); subst; reflexivity.
Qed.

Lemma ArrayAttr_eqb_eq (a b : list DeviceMappingAttr) :
  ArrayAttr_eqb a b = true <-> a = b.
Proof.
  revert b. induction a as [|x a IH]; intros [|y b]; simpl;
    try (split; [discriminate | discriminate]); [split; reflexivity|].
  rewrite andb_true_iff, DeviceMappingAttr_eqb_eq, IH. split.
  - intros [-> ->]. reflexivity.
  - intros H. inversion H. split; reflexivity.
Qed.







End FuseChecks.





(** ** Forall fusion: the expression of the linear id *)



(** ** Forall fusion: operations, their numbers and their uses *)

(** *** Nested operations *)

Lemma Operation_nested_ind (P : Operation -> Prop) :
  (forall o, Forall P (nestedOps o) -> P o) -> forall o, P o.
Proof.
  intros H. fix IH 1. intros o. apply H.
  destruct o; simpl; try constructor.
  - induction yieldingOps as [|y ys IHys]; constructor; [apply IH | exact IHys].
  - induction body as [|y ys IHys]; constructor; [apply IH | exact IHys].
  - induction body as [|y ys IHys]; constructor; [apply IH | exact IHys].
Qed.

Lemma allIds_nested (o : Operation) :
  allIds o = opId o :: flat_map allIds (nestedOps o).
Proof. destruct o; reflexivity. Qed.


Lemma in_flat_map_allIds (l : list Operation) (o : Operation) (id : nat) :
  In o l -> In id (allIds o) -> In id (flat_map allIds l).
Proof. intros Ho Hid. apply in_flat_map. exists o. split; assumption. Qed.

Lemma containsOp_allIds (id : nat) (o : Operation) :
  containsOp id o = true <-> In id (allIds o).
Proof.
  induction o as [o IH] using Operation_nested_ind.
  rewrite allIds_nested.
  assert (Hn : existsb (containsOp id) (nestedOps o) = true <->
               In id (flat_map allIds (nestedOps o))).
  { rewrite existsb_exists, in_flat_map. rewrite Forall_forall in IH.
    split; intros [x [Hx H]]; exists x; (split; [exact Hx|]); apply (IH x Hx); exact H. }
  destruct o; simpl in *; rewrite ?orb_false_r, ?orb_true_iff, ?Nat.eqb_eq;
    try (split; [intros H; left; exact H | intros [H|[]]; exact H]);
    rewrite Hn; reflexivity.
Qed.

Lemma containsOp_absent (id : nat) (o : Operation) :
  ~ In id (allIds o) -> containsOp id o = false.
Proof.
  intros H. destruct (containsOp id o) eqn:E; [|reflexivity].
  apply containsOp_allIds in E. contradiction.
Qed.



(** *** Removing an operation *)








(** *** Finding an operation *)

Lemma findIn_absent (id : nat) (o : Operation) :
  ~ In id (allIds o) -> findIn id o = None.
Proof.
  induction o as [o IH] using Operation_nested_ind. intros H.
  rewrite Forall_forall in IH. rewrite allIds_nested in H.
  assert (Hid : Nat.eqb (opId o) id = false).
  { apply Nat.eqb_neq. intros Heq. apply H. left. exact Heq. }
  assert (Hl : forall l, (forall x, In x l -> In x (nestedOps o)) ->
            (fix among (ops : list Operation) : option Operation :=
               match ops with
               | [] => None
               | o' :: rest =>
                   match findIn id o' with
                   | Some found => Some found
                   | None => among rest
                   end
               end) l = None).
  { induction l as [|x l IHl]; intros Hsub; [reflexivity|].
    rewrite (IH x (Hsub x (or_introl eq_refl))).
    - apply IHl. intros y Hy. apply Hsub. right. exact Hy.
    - intros Hin. apply H. right.
      exact (in_flat_map_allIds _ x id (Hsub x (or_introl eq_refl)) Hin). }
  destruct o; simpl in *; rewrite Hid; try reflexivity; apply Hl; intros x Hx; exact Hx.
Qed.

Lemma findIn_self (o : Operation) : findIn (opId o) o = Some o.
Proof. destruct o; simpl; rewrite Nat.eqb_refl; reflexivity. Qed.

Lemma findOp_top (id : nat) (l1 l2 : list Operation) (x : Operation) :
  opId x = id -> ~ In id (flat_map allIds l1) ->
  findOp id (l1 ++ x :: l2) = Some x.
Proof.
  intros Hx. induction l1 as [|o l1 IH]; intros H; simpl.
  - rewrite <- Hx, findIn_self. reflexivity.
  - rewrite findIn_absent.
    + apply IH. intros Hin. apply H. simpl. apply in_or_app. right. exact Hin.
    + intros Hin. apply H. simpl. apply in_or_app. left. exact Hin.
Qed.

(** *** Inserting operations *)




(** *** Moving an operation into a nested block *)






(** *** Updating an operation *)






(** *** Replacing uses keeps the numbers *)

Lemma opId_mapOperands (f : Value -> Value) (o : Operation) :
  opId (mapOperands f o) = opId o.
Proof. destruct o; reflexivity. Qed.








(** *** Uses *)












(** *** Creating before an operation of the block *)








(** *** Operations numbered apart *)







(** *** The consumer chain moves into the shuffle *)








Section MoveChain.

Variables (sid yid : nat) (y : Operation).
Variables (t : ShapedType) (source dest : Value) (offsets sizes strides : list OpFoldResult).
Variables l1 l2 : list Operation.
Variable consumerChain : list Operation.

Hypothesis y_id : opId y = yid.
Hypothesis y_flat : allIds y = [yid].
Hypothesis chain_in : forall c, In c consumerChain -> In c (l1 ++ l2).
Hypothesis chain_owner :
  forall c o, In c consumerChain -> In o (l1 ++ l2) -> In (opId c) (allIds o) -> o = c.
Hypothesis chain_flat :
  forall c, In c consumerChain -> ~ In (opId c) (flat_map allIds (nestedOps c)).
Hypothesis sid_fresh : ~ In sid (flat_map allIds (l1 ++ l2)).
Hypothesis yid_fresh : ~ In yid (flat_map allIds (l1 ++ l2)).
Hypothesis sid_yid : sid <> yid.





End MoveChain.



(** *** The stages of the fusion *)














(** ** Forall fusion: the rewrite *)

Section FuseRewrite.

Variable getConstantIntValue : Value -> option Z.


End FuseRewrite.


(** The fusion of [producer4] into [consumer4]: the linear id folds to the
    induction variable of the consumer and no operation is created for it;
    the body of the consumer after the rewrite. *)
Example fuse_sample_block :
  fuseForallIntoSlice noConstants consumerRewriter producer4 consumer4 [slice41] =
  Ret (success,
       mkRewriter 104 40
         [ConstantIndexOp 100 4;
          AffineDelinearizeIndexOp 101 (BlockArgument 40 0) [OpResult 100 0];
          OtherOp 31 "compute" [OpResult 101 0] [];
          ShuffleTensorOp 102 tensor4 (OpResult 31 0) (OpResult 5 0)
            [Val (OpResult 101 0)] [Attr 1] [Attr 1]
            [ExtractSliceOp 41 tensor4 (BlockArgument 102 0)
               [Val (BlockArgument 40 0)] [Attr 1] [Attr 1];
             YieldOp 103 (OpResult 41 0)];
          OtherOp 42 "user" [OpResult 102 0] [];
          InParallelOp 43
            [ParallelInsertSliceOp 44 (OpResult 42 0) (BlockArgument 40 1)
               [Val (BlockArgument 40 0)] [Attr 1] [Attr 1]]]
         [] [30%nat]
         [ConstantIndexOp 100 4;
          AffineDelinearizeIndexOp 101 (BlockArgument 40 0) [OpResult 100 0];
          ShuffleTensorOp 102 tensor4 (OpResult 31 0) (OpResult 5 0)
            [Val (OpResult 101 0)] [Attr 1] [Attr 1] [];
          YieldOp 103 (OpResult 41 0)]
         [(30%nat, [OpResult 101 0; OpResult 5 0])]).
Proof. vm_compute. reflexivity. Qed.

(** A second reader of the result of the producer, outside the chain, is
    left reading it: erasing the producer asserts. *)
Example fuse_sample_second_reader :
  fuseForallIntoSlice noConstants
    (mkRewriter 100 40
       [slice41; OtherOp 42 "user" [OpResult 41 0] [];
        OtherOp 45 "reader" [OpResult 30 0] [];
        InParallelOp 43
          [ParallelInsertSliceOp 44 (OpResult 42 0) (BlockArgument 40 1)
             [Val (BlockArgument 40 0)] [Attr 1] [Attr 1]]] [] [] [] [])
    producer4 consumer4 [slice41] = Abort.
Proof. vm_compute. reflexivity. Qed.

End RegionsProperties.

(* ================================================================== *)
(** * Further properties of the MultiMmaOp *)

(** ** The result index *)

(** X1. [getResultIndex] returns -1 exactly when the expression is not among
    the results of the map; otherwise it returns the number of the first
    result equal to the expression, which is below the number of results. *)
Theorem getResultIndex_contract (m : AffineMap) (targetExpr : AffineExpr) :
  (getResultIndex m targetExpr = -1 /\ ~ In targetExpr (getResults m)) \/
  (exists j, getResultIndex m targetExpr = Z.of_nat j /\
             (j < getNumResults m)%nat /\
             nth_error (getResults m) j = Some targetExpr /\
             forall j', (j' < j)%nat ->
               nth_error (getResults m) j' <> Some targetExpr).
Proof.
  unfold getResultIndex, getNumResults.
  destruct (getResultIndexFrom_spec (getResults m) targetExpr 0 (Z.le_refl 0))
    as [[H1 H2]|[j [H1 [H2 H3]]]].
  - left. split; [exact H1|]. intros Hin.
    apply In_nth_error in Hin. destruct Hin as [j Hj]. exact (H2 j Hj).
  - right. exists j. split; [rewrite H1; lia|]. split.
    + apply nth_error_Some. congruence.
    + split; assumption.
Qed.

(** ** The verifier and the assertions of the bounds *)

Lemma verifyIndexingMap_total (op : MultiMmaOp) (n i : nat) (m : AffineMap) :
  (i < 3)%nat -> exists r, verifyIndexingMap op n i m = Ret r.
Proof.
  intros Hi. unfold verifyIndexingMap.
  destruct (negb (Nat.eqb (getNumSymbols m) 0)); [eexists; reflexivity|].
  assert (Hop : exists v, getOperand op i = Ret v).
  { unfold getOperand, getOperands.
    destruct i as [|[|[|i]]]; [| | |lia]; eexists; reflexivity. }
  destruct Hop as [v Hv]. rewrite Hv. simpl.
  repeat match goal with
         | |- context [if ?c then _ else _] => destruct c
         end; eexists; reflexivity.
Qed.

Lemma verifyIndexingMapsFrom_total (op : MultiMmaOp) (n : nat) (maps : list AffineMap) :
  forall i, (i + length maps <= 3)%nat ->
  exists r, verifyIndexingMapsFrom op n i maps = Ret r.
Proof.
  induction maps as [|m rest IH]; intros i Hi; simpl.
  - eexists. reflexivity.
  - simpl in Hi.
    destruct (verifyIndexingMap_total op n i m) as [r Hr]; [lia|].
    rewrite Hr. simpl. destruct r as [d|]; [eexists; reflexivity|].
    apply IH. lia.
Qed.

Lemma verifyOperandShape_total (bounds : list Z) (results : list AffineExpr) :
  forall shape,
  (forall e, In e results -> exists p, e = AffineDimExpr p /\ (p < length bounds)%nat) ->
  exists b, verifyOperandShape bounds results shape = Ret b.
Proof.
  induction results as [|e results' IH]; intros shape Hdims.
  - exists true. destruct shape; reflexivity.
  - destruct shape as [|size shape']; [exists true; reflexivity|].
    destruct (Hdims e (or_introl eq_refl)) as [p [-> Hp]]. simpl.
    destruct (nth_error bounds p) as [b|] eqn:Eb.
    + rewrite (index_of_nat _ _ _ Eb). simpl.
      destruct (negb (size =? b)); [eexists; reflexivity|].
      apply IH. intros e He. apply Hdims. right. exact He.
    + apply nth_error_None in Eb. lia.
Qed.

Lemma dimPositions_dim_In (results : list AffineExpr) :
  forall ps, dimPositions results = Some ps ->
  forall p, In (AffineDimExpr p) results -> In p ps.
Proof.
  induction results as [|e rest IH]; intros ps H p Hin; [destruct Hin|].
  simpl in H. destruct e as [q| | |]; try discriminate.
  destruct (dimPositions rest) as [ps'|] eqn:E; [|discriminate].
  inversion H; subst ps. destruct Hin as [Heq|Hin].
  - inversion Heq. left. reflexivity.
  - right. exact (IH ps' eq_refl p Hin).
Qed.

Lemma mapLegal_results (n : nat) (t : ShapedType) (m : AffineMap) :
  mapLegal n t m ->
  forall e, In e (getResults m) -> exists p, e = AffineDimExpr p /\ (p < n)%nat.
Proof.
  intros [_ [Hp [Hd _]]] e He.
  destruct (isProjectedPermutation_dims m Hp e He) as [p ->].
  exists p. split; [reflexivity|]. rewrite <- Hd.
  pose proof Hp as Hp'. unfold isProjectedPermutation in Hp'.
  destruct (dimPositions (getResults m)) as [ps|] eqn:E;
    [|rewrite andb_false_r in Hp'; discriminate].
  apply (isProjectedPermutation_lt m ps Hp E).
  exact (dimPositions_dim_In _ ps E p He).
Qed.

Section VerifierAssertions.

Variable inferContractionDims : list AffineMap -> bool.

(** X2. The verifier ends in an assertion failure, instead of a diagnostic,
    exactly when the structural checks pass (three maps, each legal for its
    operand, and contraction-dimension inference succeeds) and the derivation
    of the iteration bounds asserts: the bounds are derived without a check
    that the dimension is among the outputs of the map it is looked up in. *)
Theorem verify_aborts_iff (op : MultiMmaOp) :
  verify inferContractionDims op = Abort <->
  (length (getIndexingMapsArray op) = 3%nat /\
   (forall i m, nth_error (getIndexingMapsArray op) i = Some m ->
      exists v, nth_error (getOperands op) i = Some v /\
                mapLegal (length (getIteratorTypes op)) (getType v) m) /\
   inferContractionDims (getIndexingMapsArray op) = true /\
   getIterationBounds op = Abort).
Proof.
  unfold verify. split.
  - destruct (Nat.eqb_spec (length (getIndexingMapsArray op)) 3) as [Hlen|Hlen];
      simpl; [|discriminate].
    destruct (verifyIndexingMapsFrom_total op (length (getIteratorTypes op))
                (getIndexingMapsArray op) 0%nat) as [r Hr]; [lia|].
    rewrite Hr. simpl. destruct r as [d|]; [discriminate|].
    pose proof (proj1 (verifyIndexingMapsFrom_None op _ _ 0%nat) Hr) as Hmaps.
    destruct (inferContractionDims (getIndexingMapsArray op)) eqn:Hinfer;
      simpl; [|discriminate].
    destruct (getIterationBounds op) as [bounds|] eqn:Eb; simpl.
    + intros H. exfalso.
      assert (Hbl : length bounds = length (getIteratorTypes op)).
      { exact (proj1 (proj1 (getIterationBoundsFrom_spec op _ 0%nat bounds) Eb)). }
      destruct (getIndexingMapsArray op) as [|m0 [|m1 [|m2 [|]]]];
        try discriminate Hlen.
      assert (Hop : forall i m v, nth_error [m0; m1; m2] i = Some m ->
                nth_error (getOperands op) i = Some v ->
                exists b, verifyOperandShape bounds (getResults m)
                            (getShape (getType v)) = Ret b).
      { intros i m v Hm Hv. apply verifyOperandShape_total.
        destruct (Hmaps i m Hm) as [v' [_ Hlegal]]. rewrite Hbl.
        exact (mapLegal_results _ _ _ Hlegal). }
      simpl in H. unfold getLhsType, getRhsType, getAccType in H.
      destruct (Hop 0%nat m0 (getLhs op) eq_refl eq_refl) as [l Hl].
      destruct (Hop 1%nat m1 (getRhs op) eq_refl eq_refl) as [r Hrr].
      destruct (Hop 2%nat m2 (getAcc op) eq_refl eq_refl) as [a Ha].
      rewrite Hl in H. simpl in H. destruct l; simpl in H; [|discriminate].
      rewrite Hrr in H. simpl in H. destruct r; simpl in H; [|discriminate].
      rewrite Ha in H. simpl in H. destruct a; simpl in H; [|discriminate].
      destruct (getABCElementTypes (getKind op)) as [[lType rType] aType].
      repeat match type of H with
             | context [if ?c then _ else _] => destruct c
             end; discriminate.
    + intros _. repeat split; try assumption.
  - intros [Hlen [Hmaps [Hinfer Hb]]].
    rewrite Hlen. simpl.
    rewrite (proj2 (verifyIndexingMapsFrom_None op _ _ 0%nat) Hmaps). simpl.
    rewrite Hinfer. simpl. rewrite Hb. reflexivity.
Qed.

(** X3. In a verified operation, a dimension that two operands both carry has
    the same extent in both: whenever output [j1] of the map of operand [i1]
    and output [j2] of the map of operand [i2] are the same dimension, the
    shapes of the two operands agree at these positions. *)
Theorem verified_shared_dims_agree (op : MultiMmaOp) (i1 i2 j1 j2 d : nat)
    (m1 m2 : AffineMap) (v1 v2 : Value) (s1 s2 : Z) :
  verify inferContractionDims op = Ret success ->
  nth_error (getIndexingMapsArray op) i1 = Some m1 ->
  nth_error (getOperands op) i1 = Some v1 ->
  nth_error (getIndexingMapsArray op) i2 = Some m2 ->
  nth_error (getOperands op) i2 = Some v2 ->
  nth_error (getResults m1) j1 = Some (AffineDimExpr d) ->
  nth_error (getShape (getType v1)) j1 = Some s1 ->
  nth_error (getResults m2) j2 = Some (AffineDimExpr d) ->
  nth_error (getShape (getType v2)) j2 = Some s2 ->
  s1 = s2.
Proof.
  intros H Hm1 Hv1 Hm2 Hv2 Hr1 Hs1 Hr2 Hs2.
  apply verify_sound in H.
  destruct H as [_ [_ [_ [[bounds [_ Hshape]] _]]]].
  pose proof (Hshape i1 m1 v1 Hm1 Hv1 j1 d s1 Hr1 Hs1) as H1.
  pose proof (Hshape i2 m2 v2 Hm2 Hv2 j2 d s2 Hr2 Hs2) as H2.
  congruence.
Qed.

End VerifierAssertions.

(** The sample [badKinds] passes the structural checks and makes the
    verifier assert. *)
Example badKinds_verify_aborts : verify (fun _ => true) Samples.badKinds = Abort.
Proof. vm_compute. reflexivity. Qed.

(** The reduction dimension of the sample [matmul] has the same extent in
    the lhs, at position 1, and in the rhs, at position 0. *)
Lemma verified_shared_dims_agree_witness :
  exists s1 s2,
    nth_error (getShape (getLhsType Samples.matmul)) 1 = Some s1 /\
    nth_error (getShape (getRhsType Samples.matmul)) 0 = Some s2 /\
    s1 = s2.
Proof.
  exists 3, 3. split; [reflexivity|]. split; [reflexivity|].
  apply (verified_shared_dims_agree (fun _ => true) Samples.matmul 0 1 1 0 2
           Samples.lhsMap Samples.rhsMap (getLhs Samples.matmul)
           (getRhs Samples.matmul) 3 3); vm_compute; reflexivity.
Defined.

(* ================================================================== *)
(** * Further properties of the unrolling and folding patterns *)

(** ** Failures leave the rewriter as it was *)

(** X4. Whenever the unrolling pattern or the unit-dimension folding pattern
    returns failure, the failure is a match failure with a reason and the
    rewriter is the one the pattern was given: nothing has been created and
    nothing replaced. *)
Theorem mma_patterns_fail_without_rewriting (options : UnrollVectorOptions)
    (mmaOp : MultiMmaOp) (rewriter rewriter' : PatternRewriter) (d : Diagnostic) :
  UnrollMultiMmaPattern options mmaOp rewriter = Ret (failure d, rewriter') \/
  DropMultiMmaUnitDimsPattern mmaOp rewriter = Ret (failure d, rewriter') ->
  rewriter' = rewriter /\ exists reason, d = MatchFailure reason.
Proof.
  intros [H|H].
  - unfold UnrollMultiMmaPattern, notifyMatchFailure, getShapeForUnroll in H.
    destruct (match filterConstraint options with
              | Some filter => failed (filter mmaOp)
              | None => false
              end); [inversion H; eauto|].
    destruct (nativeShape options) as [shapeFn|]; [|discriminate].
    destruct (getIterationBounds mmaOp) as [bounds|]; simpl in H; [|discriminate].
    destruct (shapeFn mmaOp) as [targetShape|]; [|inversion H; eauto].
    destruct (computeShapeRatio bounds targetShape) as [ratio|]; [|inversion H; eauto].
    destruct (forallb isOne ratio); [inversion H; eauto|].
    apply bind_Ret_inv in H. destruct H as [dstVecType [_ H]].
    apply bind_Ret_inv in H. destruct H as [lhsMap [_ H]].
    apply bind_Ret_inv in H. destruct H as [rhsMap [_ H]].
    apply bind_Ret_inv in H. destruct H as [accMap [_ H]].
    apply bind_Ret_inv in H. destruct H as [inner [_ H]].
    apply bind_Ret_inv in H. destruct H as [tiles [_ H]].
    apply bind_Ret_inv in H. destruct H as [[newOps [rw1 accCache]] [_ H]].
    unfold create in H. simpl in H.
    match type of H with
    | (let '(_, _) := ?a in _) = _ => destruct a as [res rwa]
    end.
    discriminate H.
  - unfold DropMultiMmaUnitDimsPattern, notifyMatchFailure in H.
    destruct (hasTensorSemantics mmaOp); [inversion H; eauto|].
    destruct (getIterationBounds mmaOp) as [bounds|]; simpl in H; [|discriminate].
    destruct bounds as [|b bounds]; [inversion H; eauto|].
    destruct (negb (forallb isOne (b :: bounds))); [inversion H; eauto|].
    apply bind_Ret_inv in H. destruct H as [lhsOuterRank [_ H]].
    destruct (dropLeadUnitDims rewriter (getLhs mmaOp) lhsOuterRank) as [newLhs rw1].
    apply bind_Ret_inv in H. destruct H as [rhsOuterRank [_ H]].
    destruct (dropLeadUnitDims rw1 (getRhs mmaOp) rhsOuterRank) as [newRhs rw2].
    apply bind_Ret_inv in H. destruct H as [accOuterRank [_ H]].
    destruct (dropLeadUnitDims rw2 (getAcc mmaOp) accOuterRank) as [newAcc rw3].
    unfold create in H. simpl in H. discriminate H.
Qed.

(** Unrolling the sample [dot] to a shape that does not divide its bounds and
    folding the sample [matmul], whose bounds are not all 1, both fail. *)
Lemma mma_patterns_fail_without_rewriting_witness :
  (exists d rewriter',
     UnrollMultiMmaPattern (Samples.unrollTo [3; 1]) Samples.dot Samples.emptyRewriter =
       Ret (failure d, rewriter') /\
     rewriter' = Samples.emptyRewriter /\ exists reason, d = MatchFailure reason) /\
  (exists d rewriter',
     DropMultiMmaUnitDimsPattern Samples.matmul Samples.emptyRewriter =
       Ret (failure d, rewriter') /\
     rewriter' = Samples.emptyRewriter /\ exists reason, d = MatchFailure reason).
Proof.
  split.
  - eexists. eexists. split; [vm_compute; reflexivity|].
    apply (mma_patterns_fail_without_rewriting (Samples.unrollTo [3; 1]) Samples.dot
             Samples.emptyRewriter Samples.emptyRewriter).
    left. vm_compute. reflexivity.
  - eexists. eexists. split; [vm_compute; reflexivity|].
    apply (mma_patterns_fail_without_rewriting (Samples.unrollTo [3; 1]) Samples.matmul
             Samples.emptyRewriter Samples.emptyRewriter).
    right. vm_compute. reflexivity.
Defined.

(** ** What the unrolling creates *)

Lemma InsertChain_type (start final : Value) (inserts : list (nat * Operation)) :
  InsertChain start inserts final -> getType final = getType start.
Proof.
  induction 1 as [|start final source id offsets strides rest Hc IH].
  - reflexivity.
  - rewrite IH. reflexivity.
Qed.

Lemma unroll_success_ratio (options : UnrollVectorOptions) (mmaOp : MultiMmaOp)
    (rewriter rewriter' : PatternRewriter) :
  UnrollMultiMmaPattern options mmaOp rewriter = Ret (success, rewriter') ->
  exists shapeFn targetShape bounds ratio,
    nativeShape options = Some shapeFn /\
    shapeFn mmaOp = Some targetShape /\
    getIterationBounds mmaOp = Ret bounds /\
    computeShapeRatio bounds targetShape = Some ratio /\
    forallb isOne ratio = false.
Proof.
  unfold UnrollMultiMmaPattern, notifyMatchFailure, getShapeForUnroll. intros H.
  destruct (match filterConstraint options with
            | Some filter => failed (filter mmaOp)
            | None => false
            end); [discriminate|].
  destruct (nativeShape options) as [shapeFn|] eqn:En; [|discriminate].
  destruct (getIterationBounds mmaOp) as [bounds|] eqn:Eb; simpl in H; [|discriminate].
  destruct (shapeFn mmaOp) as [targetShape|] eqn:Es; [|discriminate].
  destruct (computeShapeRatio bounds targetShape) as [ratio|] eqn:Er; [|discriminate].
  destruct (forallb isOne ratio) eqn:E; [discriminate|].
  exists shapeFn, targetShape, bounds, ratio. repeat split; reflexivity || assumption.
Qed.

(** The operations the unrolling creates: those of the loop over the tiles,
    the zero constant and the chain of insertions; every MultiMmaOp among them
    is created by the loop, for a tile. *)
Lemma unroll_tile_ops (options : UnrollVectorOptions) (mmaOp : MultiMmaOp)
    (rewriter rewriter' : PatternRewriter) :
  UnrollMultiMmaPattern options mmaOp rewriter = Ret (success, rewriter') ->
  exists shapeFn targetShape newCreated final,
    nativeShape options = Some shapeFn /\
    shapeFn mmaOp = Some targetShape /\
    created rewriter' = created rewriter ++ newCreated /\
    replacement rewriter' = Some final /\
    getType final = getResultType mmaOp /\
    forall id newOp, In (id, MultiMma newOp) newCreated ->
      getIndexingMapsArray newOp = getIndexingMapsArray mmaOp /\
      getIteratorTypes newOp = getIteratorTypes mmaOp /\
      getKind newOp = getKind mmaOp /\
      getIterationBounds newOp = Ret targetShape /\
      container (getResultType newOp) = VectorKind.
Proof.
  intros H. apply unroll_success_inv in H.
  destruct H as [shapeFn [targetShape [bounds [lhsMap [rhsMap [accMap [inner [tiles
    [newOps [rw1 [accCache [Hn [Hs [Hb [Hlen [Hvec [Hl [Hr [Ha [Hi [Ht [Hu H]]]]]]]]]]]]]]]]]]]]]].
  cbv zeta in H.
  apply unrollTiles_trace in Hu.
  destruct Hu as [trace [loopCreated [_ [_ [_ [Hc1 [_ [Hmma Hentries]]]]]]]].
  destruct (assemble inner accCache
              (fst (create rw1 (ConstantZeroOp (getResultType mmaOp))))
              (snd (create rw1 (ConstantZeroOp (getResultType mmaOp)))))
    as [final rwa] eqn:Ea.
  apply assemble_chain in Ea. destruct Ea as [inserts [Hc2 [_ [Hchain _]]]].
  simpl in H, Hc2. subst rewriter'. simpl.
  exists shapeFn, targetShape,
    (loopCreated ++ (nextOpId rw1, ConstantZeroOp (getResultType mmaOp)) :: inserts),
    final.
  split; [exact Hn|]. split; [exact Hs|]. split.
  { rewrite Hc2, Hc1, <- !app_assoc. reflexivity. }
  split; [reflexivity|]. split.
  { rewrite (InsertChain_type _ _ _ Hchain). reflexivity. }
  intros id newOp Hin. apply in_app_or in Hin. destruct Hin as [Hin|[Hin|Hin]].
  - pose proof (Hmma id newOp Hin) as Htr.
    apply in_map_iff in Htr. destruct Htr as [x [Hx Hxin]].
    apply in_split in Hxin. destruct Hxin as [pre [post Hsplit]].
    destruct (Hentries pre x post Hsplit) as [_ [_ Hop]].
    destruct Hop as [n [lo [ls [ro [rs [ds [Hop [Hpl Hpa]]]]]]]].
    rewrite Hx in Hop. rewrite Hop. simpl.
    repeat split.
    exact (tileOp_bounds mmaOp targetShape lhsMap accMap inner (getResultType mmaOp)
             Hl Ha n lo ls ro rs ds _ bounds Hpl Hpa Hb Hlen).
  - inversion Hin.
  - destruct (InsertChain_In _ _ _ Hchain id _ Hin) as [s [d [o [st Heq]]]].
    discriminate Heq.
Qed.

(** X5. The value a successful unrolling replaces the operation with has the
    result type of the operation: the chain of insertions starts from a zero
    constant of that type and every insertion keeps the type of its
    destination. *)
Theorem unroll_replacement_type (options : UnrollVectorOptions) (mmaOp : MultiMmaOp)
    (rewriter rewriter' : PatternRewriter) :
  UnrollMultiMmaPattern options mmaOp rewriter = Ret (success, rewriter') ->
  exists final,
    replacement rewriter' = Some final /\ getType final = getResultType mmaOp.
Proof.
  intros H. apply unroll_tile_ops in H.
  destruct H as [shapeFn [targetShape [newCreated [final [_ [_ [_ [Hr [Ht _]]]]]]]]].
  exists final. split; assumption.
Qed.

Lemma unroll_replacement_type_witness :
  exists final,
    replacement Samples.dotUnrolled = Some final /\
    getType final = getResultType Samples.dot.
Proof.
  apply (unroll_replacement_type (Samples.unrollTo [1; 1]) Samples.dot
           Samples.emptyRewriter Samples.dotUnrolled).
  vm_compute. reflexivity.
Defined.

Lemma divideExtents_same (shape : list Z) :
  Forall (fun t => t <> 0) shape ->
  exists ratio, divideExtents shape shape = Some ratio /\ forallb isOne ratio = true.
Proof.
  intros H. apply divideExtents_ones.
  induction H as [|t shape Ht H IH]; constructor; [|exact IH].
  split; [apply Z.rem_same | apply Z.quot_same]; exact Ht.
Qed.

(** X6. The operations created for the tiles are a fixed point of the
    unrolling: when the native shape given for such an operation is again the
    target shape, whose extents are not zero, the unrolling pattern fails on
    it and leaves the rewriter as it was, so that the pattern cannot be
    applied forever. *)
Theorem unroll_tiles_are_native (options : UnrollVectorOptions) (mmaOp : MultiMmaOp)
    (rewriter rewriter' : PatternRewriter)
    (shapeFn : MultiMmaOp -> option (list Z)) (targetShape : list Z) :
  nativeShape options = Some shapeFn ->
  shapeFn mmaOp = Some targetShape ->
  Forall (fun t => t <> 0) targetShape ->
  UnrollMultiMmaPattern options mmaOp rewriter = Ret (success, rewriter') ->
  exists newCreated,
    created rewriter' = created rewriter ++ newCreated /\
    forall id newOp, In (id, MultiMma newOp) newCreated ->
      shapeFn newOp = Some targetShape ->
      forall rewriter2, exists reason,
        UnrollMultiMmaPattern options newOp rewriter2 =
        Ret (failure (MatchFailure reason), rewriter2).
Proof.
  intros Hn Hs Hnz H. apply unroll_tile_ops in H.
  destruct H as [shapeFn' [target' [newCreated [final [Hn' [Hs' [Hc [_ [_ Hops]]]]]]]]].
  rewrite Hn in Hn'. inversion Hn'; subst shapeFn'.
  rewrite Hs in Hs'. inversion Hs'; subst target'. clear Hn' Hs'.
  exists newCreated. split; [exact Hc|].
  intros id newOp Hin Hs2 rewriter2.
  destruct (Hops id newOp Hin) as [_ [_ [_ [Hb _]]]].
  unfold UnrollMultiMmaPattern, notifyMatchFailure, getShapeForUnroll.
  destruct (match filterConstraint options with
            | Some filter => failed (filter newOp)
            | None => false
            end); [eexists; reflexivity|].
  rewrite Hn, Hb. simpl. rewrite Hs2.
  rewrite (computeShapeRatio_same_length targetShape targetShape eq_refl).
  destruct (divideExtents_same targetShape Hnz) as [ratio [Hd Hone]].
  rewrite Hd, Hone. eexists. reflexivity.
Qed.

Lemma unroll_tiles_are_native_witness :
  exists newCreated,
    created Samples.dotUnrolled = created Samples.emptyRewriter ++ newCreated /\
    forall id newOp, In (id, MultiMma newOp) newCreated ->
      Some [1; 1] = Some [1; 1] ->
      forall rewriter2, exists reason,
        UnrollMultiMmaPattern (Samples.unrollTo [1; 1]) newOp rewriter2 =
        Ret (failure (MatchFailure reason), rewriter2).
Proof.
  apply (unroll_tiles_are_native (Samples.unrollTo [1; 1]) Samples.dot
           Samples.emptyRewriter Samples.dotUnrolled (fun _ => Some [1; 1]) [1; 1]).
  - reflexivity.
  - reflexivity.
  - repeat constructor; discriminate.
  - vm_compute. reflexivity.
Defined.

(** X7. Unrolling composes with unit-dimension folding: when the target
    native shape is all ones, the folding pattern succeeds on every operation
    the unrolling created for a tile. *)
Theorem unroll_then_fold (options : UnrollVectorOptions) (mmaOp : MultiMmaOp)
    (rewriter rewriter' : PatternRewriter)
    (shapeFn : MultiMmaOp -> option (list Z)) (targetShape : list Z) :
  nativeShape options = Some shapeFn ->
  shapeFn mmaOp = Some targetShape ->
  Forall (fun t => t = 1) targetShape ->
  UnrollMultiMmaPattern options mmaOp rewriter = Ret (success, rewriter') ->
  exists newCreated,
    created rewriter' = created rewriter ++ newCreated /\
    forall id newOp, In (id, MultiMma newOp) newCreated ->
      forall rewriter2, exists rewriter2',
        DropMultiMmaUnitDimsPattern newOp rewriter2 = Ret (success, rewriter2').
Proof.
  intros Hn Hs Hone H.
  destruct (unroll_success_ratio _ _ _ _ H)
    as [shapeFn1 [target1 [bounds [ratio [Hn1 [Hs1 [Hb [Hratio Hnot]]]]]]]].
  rewrite Hn in Hn1. inversion Hn1; subst shapeFn1.
  rewrite Hs in Hs1. inversion Hs1; subst target1. clear Hn1 Hs1.
  pose proof (unroll_success_inv _ _ _ _ H) as Hinv.
  destruct Hinv as [_ [_ [_ [lhsMap [rhsMap [accMap [_ [_ [_ [_ [_
    [_ [_ [_ [_ [_ [Hl [Hr [Ha _]]]]]]]]]]]]]]]]]]].
  apply unroll_tile_ops in H.
  destruct H as [shapeFn' [target' [newCreated [final [Hn' [Hs' [Hc [_ [_ Hops]]]]]]]]].
  rewrite Hn in Hn'. inversion Hn'; subst shapeFn'.
  rewrite Hs in Hs'. inversion Hs'; subst target'. clear Hn' Hs'.
  exists newCreated. split; [exact Hc|].
  intros id newOp Hin rewriter2.
  destruct (Hops id newOp Hin) as [Hmaps [Hits [_ [Hnb Hvec]]]].
  assert (Hne : targetShape <> []).
  { intros ->.
    pose proof (proj1 (proj1 (getIterationBoundsFrom_spec newOp _ 0%nat []) Hnb)) as Hl0.
    rewrite Hits in Hl0.
    pose proof (proj1 (proj1 (getIterationBoundsFrom_spec mmaOp _ 0%nat bounds) Hb)) as Hl1.
    rewrite <- Hl0 in Hl1. destruct bounds; [|discriminate].
    vm_compute in Hratio. inversion Hratio; subst ratio. discriminate Hnot. }
  unfold DropMultiMmaUnitDimsPattern, notifyMatchFailure, hasTensorSemantics.
  rewrite Hvec, Hnb. simpl.
  destruct targetShape as [|t rest]; [congruence|].
  rewrite (proj2 (forallb_isOne (t :: rest)) Hone). simpl.
  unfold getLhsOuterRank, getRhsOuterRank, getAccOuterRank, getOuterRank.
  rewrite Hmaps.
  assert (Hi0 : index (getIndexingMapsArray mmaOp) 0 = Ret lhsMap)
    by exact (index_of_nat _ 0%nat _ Hl).
  assert (Hi1 : index (getIndexingMapsArray mmaOp) 1 = Ret rhsMap)
    by exact (index_of_nat _ 1%nat _ Hr).
  assert (Hi2 : index (getIndexingMapsArray mmaOp) 2 = Ret accMap)
    by exact (index_of_nat _ 2%nat _ Ha).
  change (Z.of_nat 0) with 0. change (Z.of_nat 1) with 1. change (Z.of_nat 2) with 2.
  rewrite Hi0. simpl.
  destruct (dropLeadUnitDims rewriter2 (getLhs newOp) (getNumResults lhsMap))
    as [newLhs rw1].
  rewrite Hi1. simpl.
  destruct (dropLeadUnitDims rw1 (getRhs newOp) (getNumResults rhsMap))
    as [newRhs rw2].
  rewrite Hi2. simpl.
  destruct (dropLeadUnitDims rw2 (getAcc newOp) (getNumResults accMap))
    as [newAcc rw3].
  eexists. reflexivity.
Qed.

Lemma unroll_then_fold_witness :
  exists newCreated,
    created Samples.dotUnrolled = created Samples.emptyRewriter ++ newCreated /\
    forall id newOp, In (id, MultiMma newOp) newCreated ->
      forall rewriter2, exists rewriter2',
        DropMultiMmaUnitDimsPattern newOp rewriter2 = Ret (success, rewriter2').
Proof.
  apply (unroll_then_fold (Samples.unrollTo [1; 1]) Samples.dot
           Samples.emptyRewriter Samples.dotUnrolled (fun _ => Some [1; 1]) [1; 1]).
  - reflexivity.
  - reflexivity.
  - repeat constructor.
  - vm_compute. reflexivity.
Defined.

(** ** What the unit-dimension folding creates *)

Lemma dropLeadUnitDims_log (rewriter : PatternRewriter) (operand : Value) (numDims : nat) :
  exists extracts,
    created (snd (dropLeadUnitDims rewriter operand numDims)) =
      created rewriter ++ extracts /\
    replacement (snd (dropLeadUnitDims rewriter operand numDims)) =
      replacement rewriter /\
    (forall id o, In (id, o) extracts ->
       o = ExtractOp operand (repeat 0 numDims) /\ numDims <> 0%nat) /\
    (length extracts <= 1)%nat /\
    getShape (getType (fst (dropLeadUnitDims rewriter operand numDims))) =
      skipn numDims (getShape (getType operand)) /\
    getElementType (getType (fst (dropLeadUnitDims rewriter operand numDims))) =
      getElementType (getType operand).
Proof.
  unfold dropLeadUnitDims. destruct (Nat.eqb_spec numDims 0) as [->|Hn].
  - exists []. simpl. rewrite app_nil_r.
    split; [reflexivity|]. split; [reflexivity|].
    split; [|split; [lia|split; reflexivity]].
    intros i o [].
  - eexists. simpl. split; [reflexivity|]. split; [reflexivity|].
    split; [|split; [simpl; lia|rewrite repeat_length; split; reflexivity]].
    intros i o [Hin|[]]. inversion Hin. split; [reflexivity | exact Hn].
Qed.

Lemma fold_success_inv (mmaOp : MultiMmaOp) (rewriter rewriter' : PatternRewriter) :
  DropMultiMmaUnitDimsPattern mmaOp rewriter = Ret (success, rewriter') ->
  exists bounds lhsMap rhsMap accMap,
    hasTensorSemantics mmaOp = false /\
    getIterationBounds mmaOp = Ret bounds /\
    bounds <> [] /\
    forallb isOne bounds = true /\
    nth_error (getIndexingMapsArray mmaOp) 0 = Some lhsMap /\
    nth_error (getIndexingMapsArray mmaOp) 1 = Some rhsMap /\
    nth_error (getIndexingMapsArray mmaOp) 2 = Some accMap /\
    let s1 := dropLeadUnitDims rewriter (getLhs mmaOp) (getNumResults lhsMap) in
    let s2 := dropLeadUnitDims (snd s1) (getRhs mmaOp) (getNumResults rhsMap) in
    let s3 := dropLeadUnitDims (snd s2) (getAcc mmaOp) (getNumResults accMap) in
    let newMmaOp :=
      build (fst s1) (fst s2) (fst s3)
            [emptyAffineMap; emptyAffineMap; emptyAffineMap] [] (getKind mmaOp) in
    let c1 := create (snd s3) (MultiMma newMmaOp) in
    let c2 := create (snd c1) (BroadcastOp (getResultType mmaOp) (fst c1)) in
    rewriter' = replaceOp (snd c2) (fst c2).
Proof.
  unfold DropMultiMmaUnitDimsPattern, notifyMatchFailure. intros H.
  destruct (hasTensorSemantics mmaOp) eqn:Et; [discriminate|].
  destruct (getIterationBounds mmaOp) as [bounds|] eqn:Eb; simpl in H; [|discriminate].
  destruct bounds as [|b bounds]; [discriminate|].
  destruct (forallb isOne (b :: bounds)) eqn:Eo; simpl in H; [|discriminate].
  unfold getLhsOuterRank, getRhsOuterRank, getAccOuterRank, getOuterRank in H.
  apply bind_Ret_inv in H. destruct H as [lr [Hlr H]].
  apply bind_Ret_inv in Hlr. destruct Hlr as [lhsMap [Hl Hlr]].
  inversion Hlr; subst lr. clear Hlr.
  destruct (dropLeadUnitDims rewriter (getLhs mmaOp) (getNumResults lhsMap))
    as [newLhs rw1] eqn:E1.
  apply bind_Ret_inv in H. destruct H as [rr [Hrr H]].
  apply bind_Ret_inv in Hrr. destruct Hrr as [rhsMap [Hr Hrr]].
  inversion Hrr; subst rr. clear Hrr.
  destruct (dropLeadUnitDims rw1 (getRhs mmaOp) (getNumResults rhsMap))
    as [newRhs rw2] eqn:E2.
  apply bind_Ret_inv in H. destruct H as [ar [Har H]].
  apply bind_Ret_inv in Har. destruct Har as [accMap [Ha Har]].
  inversion Har; subst ar. clear Har.
  destruct (dropLeadUnitDims rw2 (getAcc mmaOp) (getNumResults accMap))
    as [newAcc rw3] eqn:E3.
  apply (index_nth_error _ 0%nat) in Hl.
  apply (index_nth_error _ 1%nat) in Hr.
  apply (index_nth_error _ 2%nat) in Ha.
  exists (b :: bounds), lhsMap, rhsMap, accMap.
  split; [reflexivity|]. split; [reflexivity|]. split; [discriminate|].
  split; [exact Eo|]. split; [exact Hl|]. split; [exact Hr|]. split; [exact Ha|].
  cbv zeta. rewrite E1. cbn [fst snd]. rewrite E2. cbn [fst snd]. rewrite E3.
  cbn [fst snd]. unfold create in *. cbn [fst snd] in *.
  inversion H. reflexivity.
Qed.

(** X8. A successful unit-dimension folding creates at most one extraction
    per operand, each of an operand of the operation at a position of zeros,
    then the operation re-issued with three empty maps, no iterator and the
    same intrinsic kind, then the broadcast of its result to the original
    result type, which replaces the operation. The re-issued operation has no
    iteration bound, so the folding pattern fails on it and leaves the
    rewriter as it was: the pattern cannot be applied forever. *)
Theorem fold_reissues_native (mmaOp : MultiMmaOp) (rewriter rewriter' : PatternRewriter) :
  DropMultiMmaUnitDimsPattern mmaOp rewriter = Ret (success, rewriter') ->
  exists extracts k newMmaOp,
    created rewriter' =
      created rewriter ++ extracts ++
      [(k, MultiMma newMmaOp);
       (S k, BroadcastOp (getResultType mmaOp) (resultOf k (MultiMma newMmaOp)))] /\
    (length extracts <= 3)%nat /\
    (forall id o, In (id, o) extracts ->
       exists operand n, In operand (getOperands mmaOp) /\
                         o = ExtractOp operand (repeat 0 n) /\ n <> 0%nat) /\
    getIndexingMapsArray newMmaOp = [emptyAffineMap; emptyAffineMap; emptyAffineMap] /\
    getIteratorTypes newMmaOp = [] /\
    getKind newMmaOp = getKind mmaOp /\
    getIterationBounds newMmaOp = Ret [] /\
    replacement rewriter' =
      Some (resultOf (S k) (BroadcastOp (getResultType mmaOp)
                                        (resultOf k (MultiMma newMmaOp)))) /\
    forall rewriter2, exists reason,
      DropMultiMmaUnitDimsPattern newMmaOp rewriter2 =
      Ret (failure (MatchFailure reason), rewriter2).
Proof.
  intros H. apply fold_success_inv in H.
  destruct H as [bounds [lhsMap [rhsMap [accMap [Ht [Hb [Hne [Ho [Hl [Hr [Ha H]]]]]]]]]]].
  cbv zeta in H.
  destruct (dropLeadUnitDims_log rewriter (getLhs mmaOp) (getNumResults lhsMap))
    as [e1 [Hc1 [Hr1 [He1 [Hn1 _]]]]].
  remember (dropLeadUnitDims rewriter (getLhs mmaOp) (getNumResults lhsMap)) as s1.
  destruct (dropLeadUnitDims_log (snd s1) (getRhs mmaOp) (getNumResults rhsMap))
    as [e2 [Hc2 [Hr2 [He2 [Hn2 _]]]]].
  remember (dropLeadUnitDims (snd s1) (getRhs mmaOp) (getNumResults rhsMap)) as s2.
  destruct (dropLeadUnitDims_log (snd s2) (getAcc mmaOp) (getNumResults accMap))
    as [e3 [Hc3 [Hr3 [He3 [Hn3 _]]]]].
  remember (dropLeadUnitDims (snd s2) (getAcc mmaOp) (getNumResults accMap)) as s3.
  exists (e1 ++ e2 ++ e3), (nextOpId (snd s3)),
    (build (fst s1) (fst s2) (fst s3)
           [emptyAffineMap; emptyAffineMap; emptyAffineMap] [] (getKind mmaOp)).
  subst rewriter'. unfold create, replaceOp, resultOf. cbn [fst snd created replacement].
  split.
  { rewrite Hc3, Hc2, Hc1, <- !app_assoc. reflexivity. }
  split; [rewrite !length_app; lia|]. split.
  { intros id o Hin. apply in_app_or in Hin. destruct Hin as [Hin|Hin];
      [|apply in_app_or in Hin; destruct Hin as [Hin|Hin]].
    - destruct (He1 id o Hin) as [-> Hn]. exists (getLhs mmaOp), (getNumResults lhsMap).
      split; [left; reflexivity|]. split; [reflexivity | exact Hn].
    - destruct (He2 id o Hin) as [-> Hn]. exists (getRhs mmaOp), (getNumResults rhsMap).
      split; [right; left; reflexivity|]. split; [reflexivity | exact Hn].
    - destruct (He3 id o Hin) as [-> Hn]. exists (getAcc mmaOp), (getNumResults accMap).
      split; [right; right; left; reflexivity|]. split; [reflexivity | exact Hn]. }
  split; [reflexivity|]. split; [reflexivity|]. split; [reflexivity|].
  split; [reflexivity|]. split; [reflexivity|].
  intros rewriter2. unfold DropMultiMmaUnitDimsPattern, notifyMatchFailure.
  destruct (hasTensorSemantics (build (fst s1) (fst s2) (fst s3) _ _ _));
    eexists; reflexivity.
Qed.

Lemma fold_reissues_native_witness :
  exists rewriter',
    DropMultiMmaUnitDimsPattern Samples.unitMatmul Samples.emptyRewriter =
      Ret (success, rewriter') /\
    exists extracts k newMmaOp,
      created rewriter' =
        created Samples.emptyRewriter ++ extracts ++
        [(k, MultiMma newMmaOp);
         (S k, BroadcastOp (getResultType Samples.unitMatmul)
                           (resultOf k (MultiMma newMmaOp)))] /\
      getIterationBounds newMmaOp = Ret [].
Proof.
  eexists. split; [vm_compute; reflexivity|].
  match goal with
  | |- context [created ?r] =>
      destruct (fold_reissues_native Samples.unitMatmul Samples.emptyRewriter r)
        as [extracts [k [newMmaOp [Hc [_ [_ [_ [_ [_ [Hb _]]]]]]]]]]
  end; [vm_compute; reflexivity|].
  exists extracts, k, newMmaOp. split; [exact Hc | exact Hb].
Defined.

Lemma emptyAffineMap_legal (t : ShapedType) (m : AffineMap) (operand : Value) (n : nat) :
  mapLegal n (getType operand) m ->
  getShape t = skipn (getNumResults m) (getShape (getType operand)) ->
  mapLegal 0 t emptyAffineMap.
Proof.
  intros [_ [_ [_ [Hlt Hstatic]]]] Hshape.
  split; [reflexivity|]. split; [reflexivity|]. split; [reflexivity|]. split.
  - rewrite Hshape, length_skipn.
    change (getNumResults emptyAffineMap) with 0%nat. lia.
  - intros j size _ Hj. rewrite Hshape, nth_error_skipn in Hj.
    apply (Hstatic (getNumResults m + j)%nat size); [lia | exact Hj].
Qed.

Section FoldVerification.

Variable inferContractionDims : list AffineMap -> bool.

(** X9. Unit-dimension folding keeps the operation legal up to the inference
    of the contraction dimensions, which is the linalg library's: on a
    verified operation, the operation re-issued by a successful folding passes
    every check of the verifier on its maps, shapes and element types, so
    that its verification succeeds when the inference accepts three empty
    maps and fails with the inference's diagnostic otherwise. *)
Theorem fold_preserves_verification (mmaOp : MultiMmaOp)
    (rewriter rewriter' : PatternRewriter) :
  verify inferContractionDims mmaOp = Ret success ->
  DropMultiMmaUnitDimsPattern mmaOp rewriter = Ret (success, rewriter') ->
  exists extracts k newMmaOp,
    created rewriter' =
      created rewriter ++ extracts ++
      [(k, MultiMma newMmaOp);
       (S k, BroadcastOp (getResultType mmaOp) (resultOf k (MultiMma newMmaOp)))] /\
    verify inferContractionDims newMmaOp =
      if inferContractionDims [emptyAffineMap; emptyAffineMap; emptyAffineMap]
      then Ret success
      else Ret (failure FailedToInferContractionDims).
Proof.
  intros Hv H. apply verify_sound in Hv.
  destruct Hv as [Hlen [Hlegal [_ [_ Hty]]]].
  apply fold_success_inv in H.
  destruct H as [bounds [lhsMap [rhsMap [accMap [Ht [Hb [Hne [Ho [Hl [Hr [Ha H]]]]]]]]]]].
  cbv zeta in H.
  destruct (dropLeadUnitDims_log rewriter (getLhs mmaOp) (getNumResults lhsMap))
    as [e1 [Hc1 [_ [_ [_ [Hs1 Ht1]]]]]].
  remember (dropLeadUnitDims rewriter (getLhs mmaOp) (getNumResults lhsMap)) as s1.
  destruct (dropLeadUnitDims_log (snd s1) (getRhs mmaOp) (getNumResults rhsMap))
    as [e2 [Hc2 [_ [_ [_ [Hs2 Ht2]]]]]].
  remember (dropLeadUnitDims (snd s1) (getRhs mmaOp) (getNumResults rhsMap)) as s2.
  destruct (dropLeadUnitDims_log (snd s2) (getAcc mmaOp) (getNumResults accMap))
    as [e3 [Hc3 [_ [_ [_ [Hs3 Ht3]]]]]].
  remember (dropLeadUnitDims (snd s2) (getAcc mmaOp) (getNumResults accMap)) as s3.
  exists (e1 ++ e2 ++ e3), (nextOpId (snd s3)),
    (build (fst s1) (fst s2) (fst s3)
           [emptyAffineMap; emptyAffineMap; emptyAffineMap] [] (getKind mmaOp)).
  subst rewriter'. unfold create, replaceOp, resultOf. cbn [fst snd created replacement].
  split.
  { rewrite Hc3, Hc2, Hc1, <- !app_assoc. reflexivity. }
  destruct (Hlegal 0%nat lhsMap Hl) as [v0 [Hv0 Hl0]].
  destruct (Hlegal 1%nat rhsMap Hr) as [v1 [Hv1 Hl1]].
  destruct (Hlegal 2%nat accMap Ha) as [v2 [Hv2 Hl2]].
  simpl in Hv0, Hv1, Hv2. inversion Hv0; subst v0. inversion Hv1; subst v1.
  inversion Hv2; subst v2. clear Hv0 Hv1 Hv2.
  unfold verify. cbn [build getIndexingMapsArray getIteratorTypes length Nat.eqb negb].
  rewrite (proj2 (verifyIndexingMapsFrom_None _ 0%nat
                    [emptyAffineMap; emptyAffineMap; emptyAffineMap] 0%nat)).
  2:{ intros k m Hm.
      destruct k as [|[|[|k]]]; simpl in Hm; [| | |destruct k; discriminate];
        injection Hm as <-.
      - eexists. split; [reflexivity|].
        exact (emptyAffineMap_legal _ lhsMap (getLhs mmaOp) _ Hl0 Hs1).
      - eexists. split; [reflexivity|].
        exact (emptyAffineMap_legal _ rhsMap (getRhs mmaOp) _ Hl1 Hs2).
      - eexists. split; [reflexivity|].
        exact (emptyAffineMap_legal _ accMap (getAcc mmaOp) _ Hl2 Hs3). }
  cbn [bind].
  destruct (inferContractionDims [emptyAffineMap; emptyAffineMap; emptyAffineMap]);
    [|reflexivity].
  cbn [negb]. unfold getIterationBounds.
  cbn [build getIteratorTypes getIterationBoundsFrom bind index getIndexingMapsArray
       Z.ltb Z.compare Z.to_nat nth_error Pos.to_nat Pos.iter_op Nat.add
       emptyAffineMap getResults verifyOperandShape negb getKind].
  unfold elementTypesMatch in Hty. rewrite Hty.
  unfold getLhsType, getRhsType, getAccType.
  cbn [build getLhs getRhs getAcc].
  rewrite Ht1, Ht2, Ht3, !ElementType_eqb_refl. reflexivity.
Qed.

End FoldVerification.

Lemma fold_preserves_verification_witness :
  exists rewriter' extracts k newMmaOp,
    created rewriter' =
      created Samples.emptyRewriter ++ extracts ++
      [(k, MultiMma newMmaOp);
       (S k, BroadcastOp (getResultType Samples.unitMatmul)
                         (resultOf k (MultiMma newMmaOp)))] /\
    verify (fun _ => true) newMmaOp = Ret success.
Proof.
  eexists.
  match goal with
  | |- context [created ?r] =>
      destruct (fold_preserves_verification (fun _ => true) Samples.unitMatmul
                  Samples.emptyRewriter r)
        as [extracts [k [newMmaOp [Hc Hv]]]]
  end; [vm_compute; reflexivity | vm_compute; reflexivity |].
  exists extracts, k, newMmaOp. split; [exact Hc | exact Hv].
Defined.

(** ** The folding drops unit dimensions only *)

Lemma product_app (l1 l2 : list Z) :
  fold_right Z.mul 1 (l1 ++ l2) = fold_right Z.mul 1 l1 * fold_right Z.mul 1 l2.
Proof.
  induction l1 as [|x l1 IH]; cbn [fold_right app].
  - rewrite Z.mul_1_l. reflexivity.
  - rewrite IH. ring.
Qed.

Lemma product_ones (n : nat) : fold_right Z.mul 1 (repeat 1 n) = 1.
Proof.
  induction n as [|n IH]; cbn [fold_right repeat]; [reflexivity|].
  rewrite IH. reflexivity.
Qed.

Lemma unit_dims_dropped (operand : Value) (n : nat) :
  firstn n (getShape (getType operand)) = repeat 1 n ->
  getShape (resultType (ExtractOp operand (repeat 0 n))) =
    skipn n (getShape (getType operand)) /\
  fold_right Z.mul 1 (getShape (resultType (ExtractOp operand (repeat 0 n)))) =
    fold_right Z.mul 1 (getShape (getType operand)).
Proof.
  intros Hones. simpl. rewrite repeat_length. split; [reflexivity|].
  rewrite <- (firstn_skipn n (getShape (getType operand))) at 2.
  rewrite product_app, Hones, product_ones. lia.
Qed.

Section FoldUnitDims.

Variable inferContractionDims : list AffineMap -> bool.

(** X10. On a verified operation, unit-dimension folding loses no element:
    every extraction it creates takes an operand of the operation at a
    position of zeros as long as the outer rank of the operand, the leading
    extents it drops are all 1, and the extracted vector has the remaining
    extents and as many elements as the operand. *)
Theorem fold_drops_unit_dims_only (mmaOp : MultiMmaOp)
    (rewriter rewriter' : PatternRewriter) :
  verify inferContractionDims mmaOp = Ret success ->
  DropMultiMmaUnitDimsPattern mmaOp rewriter = Ret (success, rewriter') ->
  exists extracts k newMmaOp,
    created rewriter' =
      created rewriter ++ extracts ++
      [(k, MultiMma newMmaOp);
       (S k, BroadcastOp (getResultType mmaOp) (resultOf k (MultiMma newMmaOp)))] /\
    forall id o, In (id, o) extracts ->
      exists operand n,
        In operand (getOperands mmaOp) /\
        o = ExtractOp operand (repeat 0 n) /\
        firstn n (getShape (getType operand)) = repeat 1 n /\
        getShape (resultType o) = skipn n (getShape (getType operand)) /\
        fold_right Z.mul 1 (getShape (resultType o)) =
          fold_right Z.mul 1 (getShape (getType operand)).
Proof.
  intros Hv H. apply verify_sound in Hv.
  destruct Hv as [_ [Hlegal [_ [[bounds' [Hb' Hshape]] _]]]].
  apply fold_success_inv in H.
  destruct H as [bounds [lhsMap [rhsMap [accMap [Ht [Hb [Hne [Ho [Hl [Hr [Ha H]]]]]]]]]]].
  cbv zeta in H.
  rewrite Hb in Hb'. inversion Hb'; subst bounds'. clear Hb'.
  apply forallb_isOne in Ho.
  assert (Hunit : forall i m v,
            nth_error (getIndexingMapsArray mmaOp) i = Some m ->
            nth_error (getOperands mmaOp) i = Some v ->
            firstn (getNumResults m) (getShape (getType v)) =
            repeat 1 (getNumResults m)).
  { intros i m v Hm Hv. destruct (Hlegal i m Hm) as [v' [Hv' [_ [Hp [_ [Hlt _]]]]]].
    rewrite Hv in Hv'. inversion Hv'; subst v'.
    apply (outer_dims_unit bounds); try assumption; [|lia].
    exact (Hshape i m v Hm Hv). }
  destruct (dropLeadUnitDims_log rewriter (getLhs mmaOp) (getNumResults lhsMap))
    as [e1 [Hc1 [_ [He1 _]]]].
  remember (dropLeadUnitDims rewriter (getLhs mmaOp) (getNumResults lhsMap)) as s1.
  destruct (dropLeadUnitDims_log (snd s1) (getRhs mmaOp) (getNumResults rhsMap))
    as [e2 [Hc2 [_ [He2 _]]]].
  remember (dropLeadUnitDims (snd s1) (getRhs mmaOp) (getNumResults rhsMap)) as s2.
  destruct (dropLeadUnitDims_log (snd s2) (getAcc mmaOp) (getNumResults accMap))
    as [e3 [Hc3 [_ [He3 _]]]].
  remember (dropLeadUnitDims (snd s2) (getAcc mmaOp) (getNumResults accMap)) as s3.
  exists (e1 ++ e2 ++ e3), (nextOpId (snd s3)),
    (build (fst s1) (fst s2) (fst s3)
           [emptyAffineMap; emptyAffineMap; emptyAffineMap] [] (getKind mmaOp)).
  subst rewriter'. unfold create, replaceOp, resultOf. cbn [fst snd created replacement].
  split.
  { rewrite Hc3, Hc2, Hc1, <- !app_assoc. reflexivity. }
  intros id o Hin. apply in_app_or in Hin. destruct Hin as [Hin|Hin];
    [|apply in_app_or in Hin; destruct Hin as [Hin|Hin]].
  - destruct (He1 id o Hin) as [-> _].
    pose proof (Hunit 0%nat lhsMap (getLhs mmaOp) Hl eq_refl) as Hu.
    destruct (unit_dims_dropped _ _ Hu) as [Hshp Hprod].
    exists (getLhs mmaOp), (getNumResults lhsMap).
    split; [left; reflexivity|]. repeat split; assumption.
  - destruct (He2 id o Hin) as [-> _].
    pose proof (Hunit 1%nat rhsMap (getRhs mmaOp) Hr eq_refl) as Hu.
    destruct (unit_dims_dropped _ _ Hu) as [Hshp Hprod].
    exists (getRhs mmaOp), (getNumResults rhsMap).
    split; [right; left; reflexivity|]. repeat split; assumption.
  - destruct (He3 id o Hin) as [-> _].
    pose proof (Hunit 2%nat accMap (getAcc mmaOp) Ha eq_refl) as Hu.
    destruct (unit_dims_dropped _ _ Hu) as [Hshp Hprod].
    exists (getAcc mmaOp), (getNumResults accMap).
    split; [right; right; left; reflexivity|]. repeat split; assumption.
Qed.

End FoldUnitDims.

Lemma fold_drops_unit_dims_only_witness :
  exists rewriter' extracts k newMmaOp,
    created rewriter' =
      created Samples.emptyRewriter ++ extracts ++
      [(k, MultiMma newMmaOp);
       (S k, BroadcastOp (getResultType Samples.unitMatmul)
                         (resultOf k (MultiMma newMmaOp)))] /\
    forall id o, In (id, o) extracts ->
      exists operand n,
        In operand (getOperands Samples.unitMatmul) /\
        o = ExtractOp operand (repeat 0 n) /\
        firstn n (getShape (getType operand)) = repeat 1 n.
Proof.
  eexists.
  match goal with
  | |- context [created ?r] =>
      destruct (fold_drops_unit_dims_only (fun _ => true) Samples.unitMatmul
                  Samples.emptyRewriter r)
        as [extracts [k [newMmaOp [Hc He]]]]
  end; [vm_compute; reflexivity | vm_compute; reflexivity |].
  exists extracts, k, newMmaOp. split; [exact Hc|].
  intros id o Hin. destruct (He id o Hin) as [operand [n [H1 [H2 [H3 _]]]]].
  exists operand, n. split; [exact H1|]. split; [exact H2 | exact H3].
Defined.

(** ** The unrolling of a verified operation returns *)

Lemma applyPermutationMap_total (m : AffineMap) (source : list Z) :
  isProjectedPermutation m = true -> getNumDims m = length source ->
  exists out, applyPermutationMap m source = Ret out.
Proof.
  intros Hp Hd. unfold applyPermutationMap. rewrite Hp, Hd, Nat.eqb_refl. simpl.
  unfold isProjectedPermutation in Hp.
  destruct (dimPositions (getResults m)) as [ps|];
    [eexists; reflexivity | rewrite andb_false_r in Hp; discriminate].
Qed.

Section UnrollTotal.

Variable mmaOp : MultiMmaOp.
Variable targetShape : list Z.
Variables lhsPermutationMap rhsPermutationMap accPermutationMap : AffineMap.
Variable innerAccShape : list Z.
Variable dstVecType : ShapedType.

Hypothesis lhsMap_perm : isProjectedPermutation lhsPermutationMap = true.
Hypothesis rhsMap_perm : isProjectedPermutation rhsPermutationMap = true.
Hypothesis accMap_perm : isProjectedPermutation accPermutationMap = true.
Hypothesis lhsMap_dims : getNumDims lhsPermutationMap = length targetShape.
Hypothesis rhsMap_dims : getNumDims rhsPermutationMap = length targetShape.
Hypothesis accMap_dims : getNumDims accPermutationMap = length targetShape.

Lemma unrollTile_total (offsets : list Z) (state : PatternRewriter * AccCache) :
  length offsets = length targetShape ->
  exists r,
    unrollTile mmaOp targetShape lhsPermutationMap rhsPermutationMap
      accPermutationMap innerAccShape dstVecType offsets state = Ret r.
Proof.
  intros Hlen. destruct state as [rewriter accCache].
  destruct (applyPermutationMap_total lhsPermutationMap offsets lhsMap_perm)
    as [lo Hlo]; [congruence|].
  destruct (applyPermutationMap_total rhsPermutationMap offsets rhsMap_perm)
    as [ro Hro]; [congruence|].
  destruct (applyPermutationMap_total accPermutationMap offsets accMap_perm)
    as [ao Hao]; [congruence|].
  destruct (applyPermutationMap_total lhsPermutationMap targetShape lhsMap_perm
              lhsMap_dims) as [ls Hls].
  destruct (applyPermutationMap_total rhsPermutationMap targetShape rhsMap_perm
              rhsMap_dims) as [rs Hrs].
  destruct (applyPermutationMap_total accPermutationMap targetShape accMap_perm
              accMap_dims) as [ds Hds].
  unfold unrollTile, extractOperand.
  rewrite Hlo, Hls, Hro, Hrs, Hao, Hds. cbn [bind].
  unfold create. cbn [bind].
  destruct (cacheFind accCache ao); cbn [bind clone]; eexists; reflexivity.
Qed.

Lemma unrollTiles_total (tiles : list (list Z)) :
  Forall (fun offsets => length offsets = length targetShape) tiles ->
  forall state, exists r,
    unrollTiles mmaOp targetShape lhsPermutationMap rhsPermutationMap
      accPermutationMap innerAccShape dstVecType tiles state = Ret r.
Proof.
  induction 1 as [|offsets rest Hlen Hrest IH]; intros state.
  - eexists. reflexivity.
  - cbn [unrollTiles].
    destruct (unrollTile_total offsets state Hlen) as [[[newOp newResult] state1] Ht].
    rewrite Ht. cbn [bind].
    destruct (IH state1) as [[newOps state2] Hr]. rewrite Hr. cbn [bind].
    eexists. reflexivity.
Qed.

End UnrollTotal.

Lemma divideExtents_divisible (shape subShape : list Z) :
  Forall2 (fun size subSize => Z.rem size subSize = 0) shape subShape ->
  exists ratio,
    divideExtents shape subShape = Some ratio /\
    (forallb isOne ratio = true ->
     Forall2 (fun size subSize => Z.quot size subSize = 1) shape subShape).
Proof.
  induction 1 as [|size subSize shape subShape Hrem H IH].
  - exists []. split; [reflexivity|]. constructor.
  - destruct IH as [ratio [Hd Hone]]. exists (Z.quot size subSize :: ratio).
    simpl. rewrite Hrem, Hd. simpl. split; [reflexivity|].
    intros Hall. apply andb_true_iff in Hall. destruct Hall as [H1 H2].
    constructor; [apply Z.eqb_eq; exact H1 | exact (Hone H2)].
Qed.

Lemma isPermutationVector_seq (n : nat) :
  isPermutationVector (map Z.of_nat (seq 0 n)) = true.
Proof.
  unfold isPermutationVector. rewrite length_map, length_seq.
  apply forallb_forall. intros i Hi. apply existsb_exists.
  exists (Z.of_nat i). split; [apply in_map; exact Hi | apply Z.eqb_refl].
Qed.

Lemma StaticTileOffsetRange_total (shape tileShape loopOrder : list Z) :
  computeShapeRatio shape tileShape <> None ->
  isPermutationVector loopOrder = true ->
  length loopOrder = length shape ->
  exists tiles,
    StaticTileOffsetRange shape tileShape loopOrder = Ret tiles /\
    Forall (fun offsets => length offsets = length shape) tiles.
Proof.
  intros Hr Hp Hl. unfold StaticTileOffsetRange.
  destruct (computeShapeRatio shape tileShape) as [ratio|]; [|congruence].
  rewrite Hp, Hl, Nat.eqb_refl. cbn [andb assert bind].
  eexists. split; [reflexivity|].
  apply Forall_forall. intros offsets Hin.
  apply in_map_iff in Hin. destruct Hin as [i [<- _]].
  rewrite length_map, length_seq. reflexivity.
Qed.

Section UnrollProgress.

Variable inferContractionDims : list AffineMap -> bool.

(** X11. On a verified operation with vector semantics the unrolling returns
    and succeeds whenever its preconditions hold: the filter, if any, accepts
    the operation; a native shape is given, with one extent per iterator, each
    dividing the bound of its iterator, some quotient being different from 1;
    and the traversal order, if one is given, is a permutation of the iterator
    positions. None of the assertions of the loop over the tiles can fail. *)
Theorem unroll_succeeds_on_verified (options : UnrollVectorOptions)
    (mmaOp : MultiMmaOp) (rewriter : PatternRewriter)
    (shapeFn : MultiMmaOp -> option (list Z)) (targetShape bounds : list Z) :
  verify inferContractionDims mmaOp = Ret success ->
  hasTensorSemantics mmaOp = false ->
  (forall filter, filterConstraint options = Some filter ->
                  filter mmaOp = success) ->
  nativeShape options = Some shapeFn ->
  shapeFn mmaOp = Some targetShape ->
  (forall callback order, traversalOrderCallback options = Some callback ->
     callback mmaOp = Some order ->
     isPermutationVector order = true /\ length order = length bounds) ->
  getIterationBounds mmaOp = Ret bounds ->
  Forall2 (fun b t => Z.rem b t = 0) bounds targetShape ->
  ~ Forall2 (fun b t => Z.quot b t = 1) bounds targetShape ->
  exists rewriter',
    UnrollMultiMmaPattern options mmaOp rewriter = Ret (success, rewriter').
Proof.
  intros Hv Hvec Hfilter Hn Hs Horder Hb Hdiv Hnot.
  apply verify_sound in Hv. destruct Hv as [Hlen [Hlegal _]].
  pose proof (Forall2_length Hdiv) as Htl.
  pose proof (proj1 (proj1 (getIterationBoundsFrom_spec mmaOp _ 0%nat bounds) Hb)) as Hbl.
  destruct (getIndexingMapsArray mmaOp) as [|lhsMap [|rhsMap [|accMap [|]]]] eqn:Emaps;
    try discriminate Hlen.
  destruct (Hlegal 0%nat lhsMap eq_refl) as [v0 [_ [_ [Hp0 [Hd0 _]]]]].
  destruct (Hlegal 1%nat rhsMap eq_refl) as [v1 [_ [_ [Hp1 [Hd1 _]]]]].
  destruct (Hlegal 2%nat accMap eq_refl) as [v2 [_ [_ [Hp2 [Hd2 _]]]]].
  clear Hlegal Hlen.
  destruct (divideExtents_divisible bounds targetShape Hdiv) as [ratio [Hratio Hone]].
  assert (Hcr : computeShapeRatio bounds targetShape = Some ratio).
  { rewrite computeShapeRatio_same_length; [exact Hratio | congruence]. }
  assert (Hno : forallb isOne ratio = false).
  { destruct (forallb isOne ratio) eqn:E; [|reflexivity].
    exfalso. exact (Hnot (Hone eq_refl)). }
  assert (Hord : isPermutationVector
                   (getUnrollOrder (length (getIteratorTypes mmaOp)) mmaOp options) = true /\
                 length (getUnrollOrder (length (getIteratorTypes mmaOp)) mmaOp options) =
                 length bounds).
  { unfold getUnrollOrder.
    destruct (traversalOrderCallback options) as [callback|] eqn:Ec.
    - destruct (callback mmaOp) as [order|] eqn:Eo.
      + exact (Horder callback order eq_refl Eo).
      + split; [apply isPermutationVector_seq|].
        rewrite length_map, length_seq. congruence.
    - split; [apply isPermutationVector_seq|].
      rewrite length_map, length_seq. congruence. }
  destruct Hord as [Hperm Hol].
  destruct (StaticTileOffsetRange_total bounds targetShape _
              ltac:(congruence) Hperm Hol) as [tiles [Htiles Hall]].
  assert (Hall' : Forall (fun offsets => length offsets = length targetShape) tiles).
  { eapply Forall_impl; [|exact Hall]. simpl. intros a Ha. congruence. }
  destruct (unrollTiles_total mmaOp targetShape lhsMap rhsMap accMap
              (skipn (getNumResults accMap) (getShape (getAccType mmaOp)))
              (getResultType mmaOp) Hp0 Hp1 Hp2
              ltac:(congruence) ltac:(congruence) ltac:(congruence) tiles Hall'
              (rewriter, [])) as [[newOps [rw1 accCache]] Hu].
  unfold UnrollMultiMmaPattern, notifyMatchFailure, getShapeForUnroll.
  assert (Hf : match filterConstraint options with
               | Some filter => failed (filter mmaOp)
               | None => false
               end = false).
  { destruct (filterConstraint options) as [filter|] eqn:Ef; [|reflexivity].
    rewrite (Hfilter filter eq_refl). reflexivity. }
  rewrite Hf, Hn, Hb. cbn [bind]. rewrite Hs, Hcr, Hno.
  unfold castVectorType. unfold hasTensorSemantics in Hvec.
  destruct (container (getResultType mmaOp)); [discriminate|]. cbn [bind].
  assert (Hi0 : index (getIndexingMapsArray mmaOp) 0 = Ret lhsMap)
    by (rewrite Emaps; reflexivity).
  assert (Hi1 : index (getIndexingMapsArray mmaOp) 1 = Ret rhsMap)
    by (rewrite Emaps; reflexivity).
  assert (Hi2 : index (getIndexingMapsArray mmaOp) 2 = Ret accMap)
    by (rewrite Emaps; reflexivity).
  assert (Hinner : getAccInnerShape mmaOp =
                   Ret (skipn (getNumResults accMap) (getShape (getAccType mmaOp)))).
  { unfold getAccInnerShape, getAccOuterRank, getOuterRank.
    rewrite Emaps. reflexivity. }
  rewrite Hi0, Hi1, Hi2, Hinner. cbn [bind]. rewrite Htiles. cbn [bind].
  rewrite Hu. cbn [bind]. unfold create. cbn [fst snd].
  match goal with
  | |- context [assemble ?i ?c ?v ?r] => destruct (assemble i c v r) as [res rwa]
  end.
  eexists. reflexivity.
Qed.

End UnrollProgress.

Lemma unroll_succeeds_on_verified_witness :
  exists rewriter',
    UnrollMultiMmaPattern (Samples.unrollTo [1; 1]) Samples.dot Samples.emptyRewriter =
    Ret (success, rewriter').
Proof.
  apply (unroll_succeeds_on_verified (fun _ => true) (Samples.unrollTo [1; 1])
           Samples.dot Samples.emptyRewriter (fun _ => Some [1; 1]) [1; 1] [2; 2]).
  - vm_compute. reflexivity.
  - reflexivity.
  - intros filter Hf. discriminate Hf.
  - reflexivity.
  - reflexivity.
  - intros callback order Hc. discriminate Hc.
  - vm_compute. reflexivity.
  - repeat constructor.
  - intros H. inversion H as [|b t bs ts Hq]. discriminate Hq.
Defined.

(** ** The unrolling keeps the operation verified *)

Lemma dimPositions_length (results : list AffineExpr) :
  forall ps, dimPositions results = Some ps -> length ps = length results.
Proof.
  induction results as [|e rest IH]; intros ps H; simpl in H.
  - inversion H. reflexivity.
  - destruct e as [p| | |]; try discriminate.
    destruct (dimPositions rest) as [ps'|] eqn:E; [|discriminate].
    inversion H. simpl. rewrite (IH ps' eq_refl). reflexivity.
Qed.

Lemma applyPermutationMap_length (m : AffineMap) (source out : list Z) :
  applyPermutationMap m source = Ret out -> length out = getNumResults m.
Proof.
  intros H. apply applyPermutationMap_inv in H.
  destruct H as [_ [_ [ps [Eps ->]]]].
  rewrite length_map. exact (dimPositions_length _ ps Eps).
Qed.

(** An operand whose outer extents are replaced, the inner ones being kept,
    is as legal for the map as the operand was. *)
Lemma sliced_legal (n : nat) (t t' : ShapedType) (m : AffineMap) (sizes : list Z) :
  mapLegal n t m ->
  length sizes = getNumResults m ->
  getShape t' = sizes ++ skipn (getNumResults m) (getShape t) ->
  mapLegal n t' m.
Proof.
  intros [Hs [Hp [Hd [Hlt Hst]]]] Hlen Hshape.
  split; [exact Hs|]. split; [exact Hp|]. split; [exact Hd|]. split.
  - rewrite Hshape, length_app, length_skipn. lia.
  - intros j size Hj Hnth. rewrite Hshape in Hnth.
    rewrite nth_error_app2 in Hnth by lia.
    rewrite nth_error_skipn in Hnth.
    apply (Hst (getNumResults m + (j - length sizes))%nat size); [lia | exact Hnth].
Qed.

(** The outer extents read through the map from the target shape match the
    target shape. *)
Lemma sliced_matches (m : AffineMap) (targetShape sizes rest : list Z) (t' : ShapedType) :
  applyPermutationMap m targetShape = Ret sizes ->
  getShape t' = sizes ++ rest ->
  outerShapeMatches targetShape t' m.
Proof.
  intros H Hshape j d size Hr Hs. apply applyPermutationMap_inv in H.
  destruct H as [Hp [Hn [ps [Eps ->]]]].
  pose proof (dimPositions_nth_error _ ps Eps j d Hr) as Hd.
  assert (Hlt : (d < length targetShape)%nat).
  { rewrite <- Hn. apply (isProjectedPermutation_lt m ps Hp Eps).
    exact (nth_error_In _ _ Hd). }
  rewrite Hshape, nth_error_app1 in Hs.
  2:{ rewrite length_map. apply nth_error_Some. congruence. }
  rewrite (map_nth_error _ _ _ Hd) in Hs. inversion Hs.
  apply nth_error_nth'. exact Hlt.
Qed.

Lemma cacheFind_Some_In (accCache : AccCache) (key : list Z) (v : Value) :
  cacheFind accCache key = Some v -> exists k, In (k, v) accCache.
Proof.
  induction accCache as [|[k w] rest IH]; simpl; intros H; [discriminate|].
  destruct (isEqual k key).
  - inversion H; subst. exists k. left. reflexivity.
  - destruct (IH H) as [k' Hin]. exists k'. right. exact Hin.
Qed.

Lemma cacheSet_In (accCache : AccCache) (key k : list Z) (value v : Value) :
  In (k, v) (cacheSet accCache key value) -> In (k, v) accCache \/ v = value.
Proof.
  induction accCache as [|[k' w] rest IH]; simpl.
  - intros [H|[]]. inversion H. right. reflexivity.
  - destruct (isEqual k' key); simpl.
    + intros [H|H]; [inversion H; right; reflexivity | left; right; exact H].
    + intros [H|H]; [left; left; exact H|].
      destruct (IH H) as [Hin|Heq]; [left; right; exact Hin | right; exact Heq].
Qed.

Section UnrollVerification.

Variable inferContractionDims : list AffineMap -> bool.
Variable mmaOp : MultiMmaOp.
Variable targetShape bounds : list Z.
Variables lhsMap rhsMap accMap : AffineMap.
Variable dstVecType : ShapedType.

Hypothesis verified : Verified inferContractionDims mmaOp.
Hypothesis lhsMap_at : nth_error (getIndexingMapsArray mmaOp) 0 = Some lhsMap.
Hypothesis rhsMap_at : nth_error (getIndexingMapsArray mmaOp) 1 = Some rhsMap.
Hypothesis accMap_at : nth_error (getIndexingMapsArray mmaOp) 2 = Some accMap.
Hypothesis bounds_of : getIterationBounds mmaOp = Ret bounds.
Hypothesis target_length : (length targetShape <= length bounds)%nat.
Hypothesis result_element :
  getElementType dstVecType = getElementType (getAccType mmaOp).

Abbreviation innerAccShape :=
  (skipn (getNumResults accMap) (getShape (getAccType mmaOp))).

Lemma tileOp_verified (n : nat) (lhsOffets lhsShape rhsOffets rhsShape dstShape : list Z)
    (accSlice : Value) :
  applyPermutationMap lhsMap targetShape = Ret lhsShape ->
  applyPermutationMap rhsMap targetShape = Ret rhsShape ->
  applyPermutationMap accMap targetShape = Ret dstShape ->
  getShape (getType accSlice) = dstShape ++ innerAccShape ->
  getElementType (getType accSlice) = getElementType (getAccType mmaOp) ->
  verify inferContractionDims
    (tileOp mmaOp innerAccShape dstVecType n lhsOffets lhsShape rhsOffets rhsShape
            dstShape accSlice) = Ret success.
Proof.
  intros Hl Hr Ha Hshape Helt. apply verify_complete.
  destruct verified as [Hlen [Hlegal [Hinfer [_ Hty]]]].
  pose proof (applyPermutationMap_length _ _ _ Hl) as Hll.
  pose proof (applyPermutationMap_length _ _ _ Hr) as Hrl.
  pose proof (applyPermutationMap_length _ _ _ Ha) as Hal.
  destruct (Hlegal 0%nat lhsMap lhsMap_at) as [v0 [Hv0 Hl0]].
  destruct (Hlegal 1%nat rhsMap rhsMap_at) as [v1 [Hv1 Hl1]].
  destruct (Hlegal 2%nat accMap accMap_at) as [v2 [Hv2 Hl2]].
  simpl in Hv0, Hv1, Hv2.
  injection Hv0 as <-. injection Hv1 as <-. injection Hv2 as <-.
  assert (Hmaps : getIndexingMapsArray mmaOp = [lhsMap; rhsMap; accMap]).
  { destruct (getIndexingMapsArray mmaOp) as [|m0 [|m1 [|m2 [|]]]];
      try discriminate Hlen.
    simpl in lhsMap_at, rhsMap_at, accMap_at. congruence. }
  unfold Verified, tileOp.
  cbn [getIndexingMapsArray getIteratorTypes getOperands getLhs getRhs getAcc getKind].
  split; [exact Hlen|]. split.
  { intros i m Hm. rewrite Hmaps in Hm.
    destruct i as [|[|[|i]]]; simpl in Hm; [| | |destruct i; discriminate];
      injection Hm as <-; eexists; (split; [reflexivity|]).
    - apply (sliced_legal _ _ _ _ lhsShape Hl0 Hll).
      simpl. rewrite Hll. reflexivity.
    - apply (sliced_legal _ _ _ _ rhsShape Hl1 Hrl).
      simpl. rewrite Hrl. reflexivity.
    - apply (sliced_legal _ _ _ _ dstShape Hl2 Hal). exact Hshape. }
  split; [exact Hinfer|]. split.
  { exists targetShape. split.
    - exact (tileOp_bounds mmaOp targetShape lhsMap accMap innerAccShape dstVecType
               lhsMap_at accMap_at n lhsOffets lhsShape rhsOffets rhsShape dstShape
               accSlice bounds Hl Ha bounds_of target_length).
    - intros i m v Hm Hv. rewrite Hmaps in Hm.
      destruct i as [|[|[|i]]]; simpl in Hm, Hv; [| | |destruct i; discriminate];
        injection Hm as <-; injection Hv as <-.
      + apply (sliced_matches _ _ lhsShape
                 (skipn (length lhsShape) (getShape (getType (getLhs mmaOp)))) _ Hl).
        reflexivity.
      + apply (sliced_matches _ _ rhsShape
                 (skipn (length rhsShape) (getShape (getType (getRhs mmaOp)))) _ Hr).
        reflexivity.
      + exact (sliced_matches _ _ dstShape innerAccShape _ Ha Hshape). }
  unfold elementTypesMatch in *.
  unfold getLhsType, getRhsType, getAccType in *.
  cbn [getKind getLhs getRhs getAcc]. rewrite Hty. simpl. rewrite Helt. reflexivity.
Qed.

Lemma unrollTiles_verified (tiles : list (list Z)) :
  forall (rewriter : PatternRewriter) (accCache : AccCache)
         (newOps : list (MultiMmaOp * Value)) (state' : PatternRewriter * AccCache),
  unrollTiles mmaOp targetShape lhsMap rhsMap accMap innerAccShape dstVecType
    tiles (rewriter, accCache) = Ret (newOps, state') ->
  (forall k v dstShape, In (k, v) accCache ->
     applyPermutationMap accMap targetShape = Ret dstShape ->
     getType v = tileType innerAccShape dstVecType dstShape) ->
  forall newOp newResult, In (newOp, newResult) newOps ->
    verify inferContractionDims newOp = Ret success.
Proof.
  induction tiles as [|offsets rest IH];
    intros rewriter accCache newOps state' H Hinv newOp newResult Hin.
  - simpl in H. inversion H; subst. destruct Hin.
  - simpl in H. apply bind_Ret_inv in H.
    destruct H as [[[op1 res1] [rw1 c1]] [Ht H]].
    apply bind_Ret_inv in H. destruct H as [[ops state2] [Hr H]].
    inversion H; subst newOps state'. clear H.
    apply unrollTile_inv in Ht.
    destruct Ht as [lo [ls [ro [rs [ao [ds [H1 [H2 [H3 [H4 [H5 [H6 Ht]]]]]]]]]]]].
    cbv zeta in Ht.
    pose proof (applyPermutationMap_length _ _ _ H6) as Hdl.
    assert (Hop1 : verify inferContractionDims op1 = Ret success /\
                   getType res1 = tileType innerAccShape dstVecType ds /\
                   c1 = cacheSet accCache ao res1).
    { destruct (cacheFind accCache ao) as [cached|] eqn:Ec.
      - destruct Ht as [Hop [Hres Hst]]. inversion Hst; subst rw1 c1.
        destruct (cacheFind_Some_In _ _ _ Ec) as [k Hk].
        pose proof (Hinv k cached ds Hk H6) as Hty.
        split; [|split; [rewrite Hres, Hop; reflexivity | reflexivity]].
        rewrite Hop. apply tileOp_verified; try assumption.
        + rewrite Hty. reflexivity.
        + rewrite Hty. exact result_element.
      - destruct Ht as [Hop [Hres Hst]]. inversion Hst; subst rw1 c1.
        split; [|split; [rewrite Hres, Hop; reflexivity | reflexivity]].
        rewrite Hop. apply tileOp_verified; try assumption.
        + simpl. rewrite Hdl. reflexivity.
        + reflexivity. }
    destruct Hop1 as [Hverified [Hres1 Hc1]].
    destruct Hin as [Heq|Hin].
    + inversion Heq; subst. exact Hverified.
    + refine (IH rw1 c1 ops state2 Hr _ newOp newResult Hin).
      intros k v dstShape Hk Hd. rewrite Hc1 in Hk.
      apply cacheSet_In in Hk. destruct Hk as [Hk|Hk].
      * exact (Hinv k v dstShape Hk Hd).
      * subst v. rewrite Hres1. congruence.
Qed.

End UnrollVerification.

Section UnrollKeepsVerified.

Variable inferContractionDims : list AffineMap -> bool.

(** X12. Unrolling keeps the operation verified: when the operation passes
    the verifier and the element type of its result is that of its
    accumulator, every operation a successful unrolling creates for a tile
    passes the verifier too, whether its accumulator operand is a fresh slice
    of the accumulator or the memoized result of an earlier tile. *)
Theorem unroll_preserves_verification (options : UnrollVectorOptions)
    (mmaOp : MultiMmaOp) (rewriter rewriter' : PatternRewriter) :
  verify inferContractionDims mmaOp = Ret success ->
  getElementType (getResultType mmaOp) = getElementType (getAccType mmaOp) ->
  UnrollMultiMmaPattern options mmaOp rewriter = Ret (success, rewriter') ->
  exists newCreated,
    created rewriter' = created rewriter ++ newCreated /\
    forall id newOp, In (id, MultiMma newOp) newCreated ->
      verify inferContractionDims newOp = Ret success.
Proof.
  intros Hv Helt H. apply verify_sound in Hv. apply unroll_success_inv in H.
  destruct H as [shapeFn [targetShape [bounds [lhsMap [rhsMap [accMap [inner [tiles
    [newOps [rw1 [accCache [Hn [Hs [Hb [Hlen [Hvec [Hl [Hr [Ha [Hi [Ht [Hu H]]]]]]]]]]]]]]]]]]]]]].
  cbv zeta in H.
  assert (Hinner : inner = skipn (getNumResults accMap) (getShape (getAccType mmaOp))).
  { unfold getAccInnerShape, getAccOuterRank, getOuterRank in Hi.
    rewrite (index_of_nat _ 2%nat _ Ha) in Hi. simpl in Hi. inversion Hi. reflexivity. }
  subst inner.
  pose proof (unrollTiles_verified inferContractionDims mmaOp targetShape bounds
                lhsMap rhsMap accMap (getResultType mmaOp) Hv Hl Hr Ha Hb Hlen Helt
                tiles rewriter [] newOps (rw1, accCache) Hu) as Hall.
  apply unrollTiles_trace in Hu.
  destruct Hu as [trace [loopCreated [Hops [_ [_ [Hc1 [_ [Hmma _]]]]]]]].
  destruct (assemble (skipn (getNumResults accMap) (getShape (getAccType mmaOp)))
              accCache
              (fst (create rw1 (ConstantZeroOp (getResultType mmaOp))))
              (snd (create rw1 (ConstantZeroOp (getResultType mmaOp)))))
    as [final rwa] eqn:Ea.
  apply assemble_chain in Ea. destruct Ea as [inserts [Hc2 [_ [Hchain _]]]].
  simpl in H, Hc2. subst rewriter'. simpl.
  exists (loopCreated ++ (nextOpId rw1, ConstantZeroOp (getResultType mmaOp)) :: inserts).
  split.
  { rewrite Hc2, Hc1, <- !app_assoc. reflexivity. }
  intros id newOp Hin. apply in_app_or in Hin. destruct Hin as [Hin|[Hin|Hin]].
  - pose proof (Hmma id newOp Hin) as Htr.
    apply in_map_iff in Htr. destruct Htr as [x [Hx Hxin]].
    apply (Hall ltac:(intros k v ds []) newOp (traceResult x)).
    rewrite Hops. apply in_map_iff. exists x. rewrite Hx. split; [reflexivity | exact Hxin].
  - inversion Hin.
  - destruct (InsertChain_In _ _ _ Hchain id _ Hin) as [s [d [o [st Heq]]]].
    discriminate Heq.
Qed.

End UnrollKeepsVerified.

Lemma unroll_preserves_verification_witness :
  exists newCreated,
    created Samples.dotUnrolled = created Samples.emptyRewriter ++ newCreated /\
    forall id newOp, In (id, MultiMma newOp) newCreated ->
      verify (fun _ => true) newOp = Ret success.
Proof.
  apply (unroll_preserves_verification (fun _ => true) (Samples.unrollTo [1; 1])
           Samples.dot Samples.emptyRewriter Samples.dotUnrolled);
    vm_compute; reflexivity.
Defined.

(** ** The number of operations the unrolling creates *)

Lemma cacheSet_length (accCache : AccCache) (k : list Z) (v : Value) :
  length (cacheSet accCache k v) =
  match cacheFind accCache k with
  | Some _ => length accCache
  | None => S (length accCache)
  end.
Proof.
  induction accCache as [|[k0 v0] rest IH]; simpl; [reflexivity|].
  destruct (isEqual k0 k); simpl; [reflexivity|].
  rewrite IH. destruct (cacheFind rest k); reflexivity.
Qed.

Lemma cacheSet_key_In (accCache : AccCache) (k key : list Z) (v : Value) :
  In key (map fst (cacheSet accCache k v)) <-> In key (map fst accCache) \/ key = k.
Proof.
  rewrite cacheSet_keys.
  destruct (existsb (fun e => isEqual (fst e) k) accCache) eqn:E.
  - apply existsb_exists in E. destruct E as [e [Hin He]].
    apply isEqual_eq in He. split; [intros H; left; exact H|].
    intros [H| ->]; [exact H|]. rewrite <- He. apply in_map. exact Hin.
  - rewrite in_app_iff. simpl. split.
    + intros [H|[H|[]]]; [left; exact H | right; symmetry; exact H].
    + intros [H|H]; [left; exact H | right; left; symmetry; exact H].
Qed.

Lemma assemble_nextOpId (innerAccShape : list Z) (entries : AccCache) :
  forall (result : Value) (rewriter : PatternRewriter),
  nextOpId (snd (assemble innerAccShape entries result rewriter)) =
  (nextOpId rewriter + length entries)%nat.
Proof.
  induction entries as [|[offsets partialResult] rest IH]; intros result rewriter; simpl.
  - lia.
  - rewrite IH. simpl. lia.
Qed.

Section UnrollCount.

Variable mmaOp : MultiMmaOp.
Variable targetShape : list Z.
Variables lhsPermutationMap rhsPermutationMap accPermutationMap : AffineMap.
Variable innerAccShape : list Z.
Variable dstVecType : ShapedType.

Lemma unrollTiles_count (tiles : list (list Z)) :
  forall (rewriter : PatternRewriter) (accCache : AccCache)
         (newOps : list (MultiMmaOp * Value)) (rewriter' : PatternRewriter)
         (accCache' : AccCache),
  unrollTiles mmaOp targetShape lhsPermutationMap rhsPermutationMap
    accPermutationMap innerAccShape dstVecType tiles (rewriter, accCache) =
    Ret (newOps, (rewriter', accCache')) ->
  (length (created rewriter') + length accCache =
   length (created rewriter) + 3 * length tiles + length accCache')%nat /\
  (nextOpId rewriter' + length accCache =
   nextOpId rewriter + 3 * length tiles + length accCache')%nat /\
  (forall key, In key (map fst accCache') <->
     In key (map fst accCache) \/
     exists offsets, In offsets tiles /\
                     applyPermutationMap accPermutationMap offsets = Ret key).
Proof.
  induction tiles as [|offsets rest IH];
    intros rewriter accCache newOps rewriter' accCache' H.
  - simpl in H. inversion H; subst. simpl. split; [lia|]. split; [lia|].
    intros key. split; [intros Hin; left; exact Hin|].
    intros [Hin|[t [[] _]]]. exact Hin.
  - simpl in H. apply bind_Ret_inv in H.
    destruct H as [[[op1 res1] [rw1 c1]] [Ht H]].
    apply bind_Ret_inv in H. destruct H as [[ops [rw2 c2]] [Hr H]].
    inversion H; subst newOps rewriter' accCache'. clear H.
    apply unrollTile_inv in Ht.
    destruct Ht as [lo [ls [ro [rs [ao [ds [H1 [H2 [H3 [H4 [H5 [H6 Ht]]]]]]]]]]]].
    cbv zeta in Ht.
    destruct (IH rw1 c1 ops rw2 c2 Hr) as [Hlen [Hid Hkeys]].
    assert (Hstep : (length (created rw1) + length accCache =
                     length (created rewriter) + 3 + length c1)%nat /\
                    (nextOpId rw1 + length accCache =
                     nextOpId rewriter + 3 + length c1)%nat /\
                    c1 = cacheSet accCache ao res1).
    { pose proof (cacheSet_length accCache ao res1) as Hcs.
      destruct (cacheFind accCache ao) as [cached|];
        destruct Ht as [_ [_ Hst]]; inversion Hst; subst rw1 c1;
        cbn [created nextOpId]; rewrite length_app, Hcs; simpl;
        (split; [lia|split; [lia|reflexivity]]). }
    destruct Hstep as [Hl1 [Hi1 Hc1]].
    cbn [length]. split; [lia|]. split; [lia|].
    intros key. rewrite Hkeys, Hc1, cacheSet_key_In. split.
    + intros [[Hin|Heq]|[t [Hin Ht']]].
      * left. exact Hin.
      * right. exists offsets. split; [left; reflexivity | rewrite Heq; exact H5].
      * right. exists t. split; [right; exact Hin | exact Ht'].
    + intros [Hin|[t [[Heq|Hin] Ht']]].
      * left. left. exact Hin.
      * subst t. left. right. congruence.
      * right. exists t. split; assumption.
Qed.

End UnrollCount.

(** X13. The cost of a successful unrolling: it creates three operations per
    tile (the slices of the lhs and of the rhs and the operation of the
    tile), two per distinct accumulator offset among the tiles (the slice of
    the accumulator taken at the first tile with the offset, and the final
    insertion of the partial result), and one zero constant; nothing else. *)
Theorem unroll_operation_count (options : UnrollVectorOptions) (mmaOp : MultiMmaOp)
    (rewriter rewriter' : PatternRewriter)
    (shapeFn : MultiMmaOp -> option (list Z)) (targetShape bounds : list Z) :
  nativeShape options = Some shapeFn ->
  shapeFn mmaOp = Some targetShape ->
  getIterationBounds mmaOp = Ret bounds ->
  UnrollMultiMmaPattern options mmaOp rewriter = Ret (success, rewriter') ->
  exists accMap tiles keys newCreated,
    nth_error (getIndexingMapsArray mmaOp) 2 = Some accMap /\
    StaticTileOffsetRange bounds targetShape
      (getUnrollOrder (length (getIteratorTypes mmaOp)) mmaOp options) = Ret tiles /\
    NoDup keys /\
    (forall key, In key keys <->
       exists offsets, In offsets tiles /\
                       applyPermutationMap accMap offsets = Ret key) /\
    created rewriter' = created rewriter ++ newCreated /\
    length newCreated = (3 * length tiles + 2 * length keys + 1)%nat /\
    nextOpId rewriter' =
      (nextOpId rewriter + 3 * length tiles + 2 * length keys + 1)%nat.
Proof.
  intros Hn0 Hs0 Hb0 H. apply unroll_success_inv in H.
  destruct H as [shapeFn' [target' [bounds' [lhsMap [rhsMap [accMap [inner [tiles
    [newOps [rw1 [accCache [Hn [Hs [Hb [Hlen [Hvec [Hl [Hr [Ha [Hi [Ht [Hu H]]]]]]]]]]]]]]]]]]]]]].
  rewrite Hn0 in Hn. inversion Hn; subst shapeFn'.
  rewrite Hs0 in Hs. inversion Hs; subst target'.
  rewrite Hb0 in Hb. inversion Hb; subst bounds'. clear Hn Hs Hb.
  cbv zeta in H.
  destruct (unrollTiles_count _ _ _ _ _ _ _ _ _ _ _ _ _ Hu) as [Hcount [Hid Hkeys]].
  apply unrollTiles_trace in Hu.
  destruct Hu as [trace [loopCreated [_ [_ [Hcache [Hc1 _]]]]]].
  pose proof (assemble_nextOpId inner accCache
                (fst (create rw1 (ConstantZeroOp (getResultType mmaOp))))
                (snd (create rw1 (ConstantZeroOp (getResultType mmaOp))))) as Hnext.
  destruct (assemble inner accCache
              (fst (create rw1 (ConstantZeroOp (getResultType mmaOp))))
              (snd (create rw1 (ConstantZeroOp (getResultType mmaOp)))))
    as [final rwa] eqn:Ea.
  apply assemble_chain in Ea. destruct Ea as [inserts [Hc2 [_ [_ Hmap]]]].
  assert (Hins : length inserts = length accCache).
  { rewrite <- (length_map insertedAt inserts), Hmap, length_map. reflexivity. }
  simpl in H, Hc2, Hnext, Hcount, Hid. subst rewriter'.
  exists accMap, tiles, (map fst accCache),
    (loopCreated ++ (nextOpId rw1, ConstantZeroOp (getResultType mmaOp)) :: inserts).
  split; [exact Ha|]. split; [exact Ht|]. split.
  { rewrite Hcache. apply cacheAfter_NoDup. constructor. }
  split.
  { intros key. rewrite Hkeys. simpl. split.
    - intros [[]|Hex]. exact Hex.
    - intros Hex. right. exact Hex. }
  simpl. split.
  { rewrite Hc2, Hc1, <- !app_assoc. reflexivity. }
  rewrite Hc1, length_app in Hcount.
  rewrite length_app, length_map. simpl. split; lia.
Qed.

(** The sample [dot], unrolled to [1, 1]: four tiles and two accumulator
    offsets, hence seventeen operations. *)
Lemma unroll_operation_count_witness :
  exists (tiles keys : list (list Z)) newCreated,
    StaticTileOffsetRange [2; 2] [1; 1] [0; 1] = Ret tiles /\
    NoDup keys /\
    created Samples.dotUnrolled = created Samples.emptyRewriter ++ newCreated /\
    length newCreated = (3 * length tiles + 2 * length keys + 1)%nat.
Proof.
  destruct (unroll_operation_count (Samples.unrollTo [1; 1]) Samples.dot
              Samples.emptyRewriter Samples.dotUnrolled (fun _ => Some [1; 1])
              [1; 1] [2; 2])
    as [accMap [tiles [keys [newCreated [_ [Ht [Hnd [_ [Hc [Hl _]]]]]]]]]];
    try (vm_compute; reflexivity).
  exists tiles, keys, newCreated.
  split; [exact Ht|]. split; [exact Hnd|]. split; [exact Hc | exact Hl].
Defined.

(* ================================================================== *)
(** * Further properties of the shuffle lowering and of the forall fusion *)

Module RegionsExtras.

Import Regions.
Import RegionsProperties.

(** ** The trip count *)

Lemma wrap64_congruent (a : Z) : exists k, wrap64 a = a + k * 2 ^ 64.
Proof.
  unfold wrap64. exists (- ((a + 2 ^ 63) / 2 ^ 64)).
  pose proof (Z.div_mod (a + 2 ^ 63) (2 ^ 64) ltac:(discriminate)) as H.
  generalize dependent ((a + 2 ^ 63) / 2 ^ 64).
  generalize ((a + 2 ^ 63) mod 2 ^ 64).
  change (2 ^ 64) with 18446744073709551616.
  change (2 ^ 63) with 9223372036854775808.
  intros r q H. lia.
Qed.

Lemma wrap64_mul (a b : Z) : wrap64 (wrap64 a * wrap64 b) = wrap64 (a * b).
Proof.
  destruct (wrap64_congruent a) as [ka Ha]. destruct (wrap64_congruent b) as [kb Hb].
  rewrite Ha, Hb. unfold wrap64. f_equal.
  replace ((a + ka * 2 ^ 64) * (b + kb * 2 ^ 64) + 2 ^ 63)
    with (a * b + 2 ^ 63 + (ka * b + kb * a + ka * kb * 2 ^ 64) * 2 ^ 64) by ring.
  apply Z_mod_plus_full.
Qed.

Lemma wrap64_small (a : Z) : - 2 ^ 63 <= a < 2 ^ 63 -> wrap64 a = a.
Proof.
  unfold wrap64.
  change (2 ^ 64) with 18446744073709551616.
  change (2 ^ 63) with 9223372036854775808.
  intros H. rewrite Z.mod_small; lia.
Qed.

Lemma ceilDiv_one (a : Z) : ceilDiv a 1 = Ret a.
Proof.
  unfold ceilDiv. change (1 >? 0) with true. change (1 =? 0) with false.
  cbn [negb assert bind]. f_equal.
  destruct (negb (a =? 0) && Bool.eqb (a >? 0) true).
  - rewrite Z.quot_1_r. lia.
  - rewrite Z.quot_1_r. lia.
Qed.

Lemma tripCountFrom_normalized (ubs : list Z) :
  forall (lbs steps : list Z) (tripCount : Z),
  Forall (fun lb => lb = 0) lbs -> Forall (fun step => step = 1) steps ->
  length lbs = length ubs -> length steps = length ubs ->
  tripCountFrom (wrap64 tripCount) lbs ubs steps =
  Ret (wrap64 (tripCount * fold_right Z.mul 1 ubs)).
Proof.
  induction ubs as [|ub ubs IH]; intros [|lb lbs] [|step steps] tripCount Hl Hs Hll Hsl;
    try discriminate; simpl.
  - rewrite Z.mul_1_r. reflexivity.
  - inversion Hl; subst. inversion Hs; subst.
    rewrite ceilDiv_one. cbn [bind]. rewrite Z.sub_0_r, wrap64_mul.
    rewrite IH; try assumption; [|simpl in *; lia|simpl in *; lia].
    f_equal. f_equal. ring.
Qed.

Lemma constants_not_dynamic (c : Z) (values : list Z) :
  c <> kDynamic -> Forall (fun v => v = c) values -> isDynamicShape values = false.
Proof.
  intros Hc H. unfold isDynamicShape. induction H as [|v rest Hv H IH]; [reflexivity|].
  simpl. rewrite IH, orb_false_r. subst v. apply isDynamic_false. exact Hc.
Qed.

Lemma tripCount_of_normalized (loop : ForallOp) :
  ranked loop ->
  Forall (fun lb => lb = 0) (getStaticLowerBound loop) ->
  Forall (fun step => step = 1) (getStaticStep loop) ->
  isDynamicShape (getStaticUpperBound loop) = false ->
  getTripCount loop =
  Ret (Some (wrap64 (fold_right Z.mul 1 (getStaticUpperBound loop)))).
Proof.
  intros [Hu Hs] Hl Hst Hub. unfold getTripCount.
  rewrite (constants_not_dynamic 0 _ ltac:(discriminate) Hl).
  rewrite (constants_not_dynamic 1 _ ltac:(discriminate) Hst).
  rewrite Hub. cbn [orb].
  change 1 with (wrap64 1) at 1.
  rewrite tripCountFrom_normalized; try assumption; [|lia|lia].
  cbn [bind]. rewrite Z.mul_1_l. reflexivity.
Qed.

(** X14. For a loop whose lower bounds are all 0 and whose steps are all 1,
    with static upper bounds, the trip count is the product of the upper
    bounds in the 64-bit arithmetic of the code; it is the product itself
    when the product is within the signed 64-bit range. *)
Theorem getTripCount_normalized (loop : ForallOp) :
  ranked loop ->
  Forall (fun lb => lb = 0) (getStaticLowerBound loop) ->
  Forall (fun step => step = 1) (getStaticStep loop) ->
  isDynamicShape (getStaticUpperBound loop) = false ->
  getTripCount loop =
    Ret (Some (wrap64 (fold_right Z.mul 1 (getStaticUpperBound loop)))) /\
  (- 2 ^ 63 <= fold_right Z.mul 1 (getStaticUpperBound loop) < 2 ^ 63 ->
   getTripCount loop = Ret (Some (fold_right Z.mul 1 (getStaticUpperBound loop)))).
Proof.
  intros Hr Hl Hst Hub.
  pose proof (tripCount_of_normalized loop Hr Hl Hst Hub) as H.
  split; [exact H|].
  intros Hrange. rewrite H, wrap64_small by exact Hrange. reflexivity.
Qed.

Lemma getTripCount_normalized_witness : getTripCount producer4 = Ret (Some 4).
Proof.
  refine (proj2 (getTripCount_normalized producer4 _ _ _ _) _).
  - split; reflexivity.
  - repeat constructor.
  - repeat constructor.
  - reflexivity.
  - vm_compute. split; [discriminate | reflexivity].
Defined.

(** ** The comparison of two loops *)

(** X15. The comparison of the worker counts and mapping types does not
    depend on which loop is the producer: it returns the same result, or
    asserts, on the two loops in either order. *)
Theorem compareWorkerCountsAndTypes_sym (producer consumer : ForallOp) :
  compareWorkerCountsAndTypes producer consumer =
  compareWorkerCountsAndTypes consumer producer.
Proof.
  unfold compareWorkerCountsAndTypes.
  destruct (getTripCount producer) as [[p|]|]; destruct (getTripCount consumer) as [[c|]|];
    simpl; try reflexivity.
  rewrite (Z.eqb_sym c p).
  destruct (p =? c); simpl; [|reflexivity].
  assert (Hsym : ArrayAttr_eqb (getMappingAttr consumer) (getMappingAttr producer) =
                 ArrayAttr_eqb (getMappingAttr producer) (getMappingAttr consumer)).
  { destruct (ArrayAttr_eqb (getMappingAttr producer) (getMappingAttr consumer)) eqn:E.
    - apply ArrayAttr_eqb_eq. symmetry. apply ArrayAttr_eqb_eq. exact E.
    - destruct (ArrayAttr_eqb (getMappingAttr consumer) (getMappingAttr producer)) eqn:E';
        [|reflexivity].
      apply ArrayAttr_eqb_eq in E'. symmetry in E'. apply ArrayAttr_eqb_eq in E'.
      congruence. }
  rewrite Hsym.
  destruct (ArrayAttr_eqb (getMappingAttr producer) (getMappingAttr consumer));
    destruct (checkMappingTypes (getMappingAttr producer));
    destruct (checkMappingTypes (getMappingAttr consumer)); reflexivity.
Qed.

(** ** The linear id of the fusion *)







Section LinearIdRange.

Variable getConstantIntValue : Value -> option Z.


End LinearIdRange.


(** ** The failures of the fusion *)

(** X18. Whenever the fusion returns failure, whatever the reason, the
    rewriter is the one it was given: nothing has been created, inlined,
    moved or erased. *)
Theorem fuse_fails_without_rewriting (getConstantIntValue : Value -> option Z)
    (rewriter rewriter' : Rewriter) (producer consumer : ForallOp)
    (consumerChain : list Operation) (d : Diagnostic) :
  fuseForallIntoSlice getConstantIntValue rewriter producer consumer consumerChain =
    Ret (failure d, rewriter') ->
  rewriter' = rewriter /\ d = NoDiagnostic.
Proof.
  unfold fuseForallIntoSlice. intros H.
  destruct (back consumerChain) as [slice|]; [|inversion H; split; reflexivity].
  destruct (negb (isExtractSlice slice)); [inversion H; split; reflexivity|].
  destruct (negb (Nat.eqb (getNumResults producer) 1));
    [inversion H; split; reflexivity|].
  apply bind_Ret_inv in H. destruct H as [compared [_ H]].
  destruct (negb compared); [inversion H; split; reflexivity|].
  apply bind_Ret_inv in H. destruct H as [normalized [_ H]].
  destruct (negb normalized); [inversion H; split; reflexivity|].
  apply bind_Ret_inv in H. destruct H as [rw [_ H]]. discriminate H.
Qed.

Lemma fuse_fails_without_rewriting_witness :
  exists d rewriter',
    fuseForallIntoSlice noConstants consumerRewriter producer4 consumerWarps [slice41] =
      Ret (failure d, rewriter') /\
    rewriter' = consumerRewriter /\ d = NoDiagnostic.
Proof.
  eexists. eexists. split; [vm_compute; reflexivity|].
  apply (fuse_fails_without_rewriting noConstants consumerRewriter consumerRewriter
           producer4 consumerWarps [slice41] NoDiagnostic).
  vm_compute. reflexivity.
Defined.

(** ** What the shuffle lowering creates *)



(** ** Building a shuffle *)

Lemma dispatch_round_trip (ofrs : list OpFoldResult) :
  getMixedValues (snd (dispatchIndexOpFoldResults ofrs))
                 (fst (dispatchIndexOpFoldResults ofrs)) = Ret ofrs <->
  ~ In (Attr kDynamic) ofrs.
Proof.
  induction ofrs as [|ofr rest IH].
  - simpl. split; [intros _ [] | reflexivity].
  - simpl. destruct (dispatchIndexOpFoldResults rest) as [dynamicVec staticVec].
    simpl in IH. destruct ofr as [c|v]; simpl.
    + destruct (isDynamic c) eqn:Ec.
      * apply Z.eqb_eq in Ec. subst c. split.
        -- destruct dynamicVec as [|v dynamicVec]; [discriminate|].
           destruct (getMixedValues staticVec dynamicVec); simpl; discriminate.
        -- intros H. exfalso. apply H. left. reflexivity.
      * apply isDynamic_false in Ec.
        destruct (getMixedValues staticVec dynamicVec) as [mixed|]; simpl.
        -- split.
           ++ intros H. inversion H; subst mixed.
              intros [Heq|Hin]; [inversion Heq; congruence|].
              exact (proj1 IH eq_refl Hin).
           ++ intros H. f_equal. f_equal.
              assert (Hr : Ret mixed = Ret rest).
              { apply IH. intros Hin. apply H. right. exact Hin. }
              inversion Hr. reflexivity.
        -- split; [discriminate|]. intros H.
           assert (Hr : @Abort (list OpFoldResult) = Ret rest).
           { apply IH. intros Hin. apply H. right. exact Hin. }
           discriminate Hr.
    + change (isDynamic kDynamic) with true. cbv iota.
      destruct (getMixedValues staticVec dynamicVec) as [mixed|]; simpl.
      * split.
        -- intros H. inversion H; subst mixed.
           intros [Heq|Hin]; [discriminate Heq|].
           exact (proj1 IH eq_refl Hin).
        -- intros H. f_equal. f_equal.
           assert (Hr : Ret mixed = Ret rest).
           { apply IH. intros Hin. apply H. right. exact Hin. }
           inversion Hr. reflexivity.
      * split; [discriminate|]. intros H.
        assert (Hr : @Abort (list OpFoldResult) = Ret rest).
        { apply IH. intros Hin. apply H. right. exact Hin. }
        discriminate Hr.
Qed.

Lemma getMixedValues_short (staticValues : list Z) :
  forall dynamicValues,
  (length dynamicValues < length (filter isDynamic staticValues))%nat ->
  getMixedValues staticValues dynamicValues = Abort.
Proof.
  induction staticValues as [|value rest IH]; intros dynamicValues H; simpl in *.
  - lia.
  - destruct (isDynamic value); simpl in H.
    + destruct dynamicValues as [|v dynamicValues]; [reflexivity|].
      rewrite IH by (simpl in H; lia). reflexivity.
    + rewrite IH by exact H. reflexivity.
Qed.

Lemma dispatch_markers (ofrs : list OpFoldResult) :
  In (Attr kDynamic) ofrs ->
  (length (fst (dispatchIndexOpFoldResults ofrs)) <
   length (filter isDynamic (snd (dispatchIndexOpFoldResults ofrs))))%nat.
Proof.
  assert (Hle : forall l,
            (length (fst (dispatchIndexOpFoldResults l)) <=
             length (filter isDynamic (snd (dispatchIndexOpFoldResults l))))%nat).
  { induction l as [|ofr rest IH]; simpl; [lia|].
    destruct (dispatchIndexOpFoldResults rest) as [dynamicVec staticVec].
    simpl in IH. destruct ofr as [c|v]; simpl.
    - destruct (isDynamic c); simpl; lia.
    - change (isDynamic kDynamic) with true. simpl. lia. }
  induction ofrs as [|ofr rest IH]; intros Hin; [destruct Hin|].
  simpl. pose proof (Hle rest) as Hrest.
  destruct (dispatchIndexOpFoldResults rest) as [dynamicVec staticVec].
  simpl in IH, Hrest. destruct Hin as [->|Hin].
  - simpl. change (isDynamic kDynamic) with true. simpl. lia.
  - specialize (IH Hin). destruct ofr as [c|v]; simpl.
    + destruct (isDynamic c); simpl; lia.
    + change (isDynamic kDynamic) with true. simpl. lia.
Qed.

Lemma dispatch_read_back (ofrs : list OpFoldResult) :
  (~ In (Attr kDynamic) ofrs ->
   getMixedValues (snd (dispatchIndexOpFoldResults ofrs))
                  (fst (dispatchIndexOpFoldResults ofrs)) = Ret ofrs) /\
  (In (Attr kDynamic) ofrs ->
   getMixedValues (snd (dispatchIndexOpFoldResults ofrs))
                  (fst (dispatchIndexOpFoldResults ofrs)) = Abort).
Proof.
  split.
  - apply dispatch_round_trip.
  - intros Hin. apply getMixedValues_short. apply dispatch_markers. exact Hin.
Qed.

(** X20. A shuffle built from mixed static and dynamic entries has a region
    whose block takes one argument, of the type of the destination, and holds
    no operation. Its offsets, sizes and strides read back as the entries it
    was built from when no static entry is the marker of a dynamic extent;
    when one is, reading them back runs out of dynamic values and asserts. *)
Theorem shuffle_build_round_trip (resultType : ShapedType) (source dest : Value)
    (destType : ShapedType) (offsets sizes strides : list OpFoldResult) :
  let state :=
    ShuffleTensorOp_build resultType source dest destType offsets sizes strides in
  ((~ In (Attr kDynamic) offsets -> stateMixedOffsets state = Ret offsets) /\
   (In (Attr kDynamic) offsets -> stateMixedOffsets state = Abort)) /\
  ((~ In (Attr kDynamic) sizes -> stateMixedSizes state = Ret sizes) /\
   (In (Attr kDynamic) sizes -> stateMixedSizes state = Abort)) /\
  ((~ In (Attr kDynamic) strides -> stateMixedStrides state = Ret strides) /\
   (In (Attr kDynamic) strides -> stateMixedStrides state = Abort)) /\
  stateResultType state = resultType /\
  stateSource state = source /\
  stateDest state = dest /\
  blockArgumentTypes state = [destType] /\
  blockOperations state = [].
Proof.
  cbv zeta. unfold ShuffleTensorOp_build, stateMixedOffsets, stateMixedSizes,
    stateMixedStrides.
  pose proof (dispatch_read_back offsets) as Ho.
  pose proof (dispatch_read_back sizes) as Hs.
  pose proof (dispatch_read_back strides) as Ht.
  destruct (dispatchIndexOpFoldResults offsets) as [dynamicOffsets staticOffsets].
  destruct (dispatchIndexOpFoldResults sizes) as [dynamicSizes staticSizes].
  destruct (dispatchIndexOpFoldResults strides) as [dynamicStrides staticStrides].
  simpl in *.
  split; [exact Ho|]. split; [exact Hs|]. split; [exact Ht|].
  repeat split; reflexivity.
Qed.

(** The entries of the sample [readBack] survive the round trip. *)
Example shuffle_build_readBack :
  stateMixedOffsets
    (ShuffleTensorOp_build tensor4 (OpResult 1 0) (OpResult 2 0) tensor4
       (getMixedOffsets readBack) (getMixedSizes readBack) (getMixedStrides readBack)) =
  Ret (getMixedOffsets readBack).
Proof. vm_compute. reflexivity. Qed.

End RegionsExtras.

(* ================================================================== *)
(** * Properties of the lowering to the intrinsic and of the vectorization *)

Lemma ShapedType_eqb_eq (a b : ShapedType) : Lowering.ShapedType_eqb a b = true <-> a = b.
Proof.
  unfold Lowering.ShapedType_eqb. destruct a as [ca sa ea], b as [cb sb eb]. simpl.
  rewrite !andb_true_iff, isEqual_eq, ElementType_eqb_eq. split.
  - intros [[Hc ->] ->]. destruct ca, cb; try discriminate Hc; reflexivity.
  - intros H. inversion H; subst. split; [split|]; try reflexivity.
    destruct cb; reflexivity.
Qed.

Lemma castToNative_spec (rewriter : Lowering.PatternRewriter) (operand : Value)
    (vectorType : ShapedType) :
  getType (fst (Lowering.castToNative rewriter operand vectorType)) = vectorType /\
  Lowering.replacement (snd (Lowering.castToNative rewriter operand vectorType)) =
    Lowering.replacement rewriter /\
  exists casts,
    Lowering.created (snd (Lowering.castToNative rewriter operand vectorType)) =
      Lowering.created rewriter ++ casts /\
    (length casts <= 1)%nat /\
    (forall id o, In (id, o) casts ->
       o = Lowering.ShapeCastOp vectorType operand /\ getType operand <> vectorType) /\
    (getType operand = vectorType -> casts = []).
Proof.
  unfold Lowering.castToNative.
  destruct (Lowering.ShapedType_eqb (getType operand) vectorType) eqn:E; simpl.
  - apply ShapedType_eqb_eq in E. split; [exact E|]. split; [reflexivity|].
    exists []. rewrite app_nil_r. split; [reflexivity|]. split; [simpl; lia|].
    split; [intros i o []|reflexivity].
  - split; [reflexivity|]. split; [reflexivity|].
    eexists. split; [reflexivity|]. split; [simpl; lia|].
    assert (Hne : getType operand <> vectorType).
    { intros Heq. apply ShapedType_eqb_eq in Heq. congruence. }
    split.
    + intros i o [Hin|[]]. inversion Hin. split; [reflexivity | exact Hne].
    + intros Heq. contradiction.
Qed.

Section LowerProperties.

Variable canBuild : MmaInterfaceAttr -> ShapedType -> Value -> Value -> Value -> bool.

(** X21. A successful lowering applies to an operation with vector semantics
    and no iteration bound. It creates at most one shape cast per operand,
    only for an operand whose type is not the native vector type of its role,
    then the intrinsic, then the shape cast of its result to the type of the
    accumulator, which replaces the operation. The intrinsic builder is
    always handed operands of exactly the native vector types of the kind,
    and the native accumulator type as the result type. *)
Theorem lower_builds_on_native_types (mmaOp : MultiMmaOp)
    (rewriter rewriter' : Lowering.PatternRewriter) :
  Lowering.LowerMultiMmaPattern canBuild mmaOp rewriter = Ret (success, rewriter') ->
  let lhsVectorType := fst (fst (getABCVectorTypes (getKind mmaOp))) in
  let rhsVectorType := snd (fst (getABCVectorTypes (getKind mmaOp))) in
  let accVectorType := snd (getABCVectorTypes (getKind mmaOp)) in
  exists casts k a b c,
    hasTensorSemantics mmaOp = false /\
    getIterationBounds mmaOp = Ret [] /\
    Lowering.created rewriter' =
      Lowering.created rewriter ++ casts ++
      [(k, Lowering.IntrinsicOp (getKind mmaOp) accVectorType a b c);
       (S k, Lowering.ShapeCastOp (getAccType mmaOp)
               (mkValue (OpResult k 0) accVectorType))] /\
    (length casts <= 3)%nat /\
    (forall id o, In (id, o) casts ->
       exists vectorType operand,
         o = Lowering.ShapeCastOp vectorType operand /\
         In operand (getOperands mmaOp) /\ getType operand <> vectorType) /\
    getType a = lhsVectorType /\ getType b = rhsVectorType /\
    getType c = accVectorType /\
    canBuild (getKind mmaOp) accVectorType a b c = true /\
    Lowering.replacement rewriter' =
      Some (mkValue (OpResult (S k) 0) (getAccType mmaOp)).
Proof.
  unfold Lowering.LowerMultiMmaPattern, Lowering.notifyMatchFailure. intros H.
  destruct (hasTensorSemantics mmaOp) eqn:Et; [discriminate|].
  destruct (getIterationBounds mmaOp) as [bounds|] eqn:Eb; simpl in H; [|discriminate].
  destruct bounds as [|b0 bounds]; [|discriminate].
  destruct (getABCVectorTypes (getKind mmaOp)) as [[lhsVT rhsVT] accVT] eqn:Ek.
  cbn [fst snd].
  destruct (castToNative_spec rewriter (getLhs mmaOp) lhsVT)
    as [Ht1 [Hr1 [c1 [Hc1 [Hn1 [He1 _]]]]]].
  destruct (Lowering.castToNative rewriter (getLhs mmaOp) lhsVT) as [aCast rw1].
  destruct (castToNative_spec rw1 (getRhs mmaOp) rhsVT)
    as [Ht2 [Hr2 [c2 [Hc2 [Hn2 [He2 _]]]]]].
  destruct (Lowering.castToNative rw1 (getRhs mmaOp) rhsVT) as [bCast rw2].
  destruct (castToNative_spec rw2 (getAcc mmaOp) accVT)
    as [Ht3 [Hr3 [c3 [Hc3 [Hn3 [He3 _]]]]]].
  destruct (Lowering.castToNative rw2 (getAcc mmaOp) accVT) as [cCast rw3].
  cbn [fst snd] in *.
  unfold Lowering.buildMmaOperation in H. rewrite Ht3 in H.
  destruct (canBuild (getKind mmaOp) accVT aCast bCast cCast) eqn:Ec; [|discriminate].
  unfold Lowering.create, Lowering.replaceOp in H. cbn [fst snd] in H.
  inversion H; subst rewriter'. clear H.
  exists (c1 ++ c2 ++ c3), (Lowering.nextOpId rw3), aCast, bCast, cCast.
  cbn [Lowering.created Lowering.replacement].
  split; [reflexivity|]. split; [reflexivity|]. split.
  { rewrite Hc3, Hc2, Hc1, <- !app_assoc. reflexivity. }
  split; [rewrite !length_app; lia|]. split.
  { intros id o Hin. apply in_app_or in Hin. destruct Hin as [Hin|Hin];
      [|apply in_app_or in Hin; destruct Hin as [Hin|Hin]].
    - destruct (He1 id o Hin) as [-> Hne]. exists lhsVT, (getLhs mmaOp).
      split; [reflexivity|]. split; [left; reflexivity | exact Hne].
    - destruct (He2 id o Hin) as [-> Hne]. exists rhsVT, (getRhs mmaOp).
      split; [reflexivity|]. split; [right; left; reflexivity | exact Hne].
    - destruct (He3 id o Hin) as [-> Hne]. exists accVT, (getAcc mmaOp).
      split; [reflexivity|]. split; [right; right; left; reflexivity | exact Hne]. }
  repeat (split; [assumption || reflexivity|]). reflexivity.
Qed.

(** X22. Unit-dimension folding composes with the lowering: on an operation
    whose accumulator is a vector, the lowering never returns failure on the
    operation the folding re-issues: it reaches the intrinsic builder, where
    it asserts when the builder fails, and succeeds whenever the builder
    does. *)
Theorem fold_then_lower (mmaOp : MultiMmaOp) (rewriter rewriter' : PatternRewriter) :
  container (getAccType mmaOp) = VectorKind ->
  DropMultiMmaUnitDimsPattern mmaOp rewriter = Ret (success, rewriter') ->
  exists extracts k newMmaOp,
    created rewriter' =
      created rewriter ++ extracts ++
      [(k, MultiMma newMmaOp);
       (S k, BroadcastOp (getResultType mmaOp) (resultOf k (MultiMma newMmaOp)))] /\
    forall rewriter2,
      (Lowering.LowerMultiMmaPattern canBuild newMmaOp rewriter2 = Abort \/
       exists rewriter2',
         Lowering.LowerMultiMmaPattern canBuild newMmaOp rewriter2 =
         Ret (success, rewriter2')) /\
      ((forall t a b c, canBuild (getKind mmaOp) t a b c = true) ->
       exists rewriter2',
         Lowering.LowerMultiMmaPattern canBuild newMmaOp rewriter2 =
         Ret (success, rewriter2')).
Proof.
  intros Hacc H. apply fold_success_inv in H.
  destruct H as [bounds [lhsMap [rhsMap [accMap [Ht [Hb [Hne [Ho [Hl [Hr [Ha H]]]]]]]]]]].
  cbv zeta in H.
  destruct (dropLeadUnitDims_log rewriter (getLhs mmaOp) (getNumResults lhsMap))
    as [e1 [Hc1 _]].
  remember (dropLeadUnitDims rewriter (getLhs mmaOp) (getNumResults lhsMap)) as s1.
  destruct (dropLeadUnitDims_log (snd s1) (getRhs mmaOp) (getNumResults rhsMap))
    as [e2 [Hc2 _]].
  remember (dropLeadUnitDims (snd s1) (getRhs mmaOp) (getNumResults rhsMap)) as s2.
  destruct (dropLeadUnitDims_log (snd s2) (getAcc mmaOp) (getNumResults accMap))
    as [e3 [Hc3 _]].
  assert (Hvec : container (getType (fst (dropLeadUnitDims (snd s2) (getAcc mmaOp)
                                            (getNumResults accMap)))) = VectorKind).
  { unfold dropLeadUnitDims. destruct (Nat.eqb (getNumResults accMap) 0);
      [exact Hacc | reflexivity]. }
  remember (dropLeadUnitDims (snd s2) (getAcc mmaOp) (getNumResults accMap)) as s3.
  exists (e1 ++ e2 ++ e3), (nextOpId (snd s3)),
    (build (fst s1) (fst s2) (fst s3)
           [emptyAffineMap; emptyAffineMap; emptyAffineMap] [] (getKind mmaOp)).
  subst rewriter'. unfold create, replaceOp, resultOf. cbn [fst snd created replacement].
  split.
  { rewrite Hc3, Hc2, Hc1, <- !app_assoc. reflexivity. }
  intros rewriter2.
  unfold Lowering.LowerMultiMmaPattern, Lowering.notifyMatchFailure, hasTensorSemantics.
  cbn [build getResultType getKind getLhs getRhs getAcc]. rewrite Hvec.
  change (getIterationBounds
            (build (fst s1) (fst s2) (fst s3)
                   [emptyAffineMap; emptyAffineMap; emptyAffineMap] [] (getKind mmaOp)))
    with (@Ret (list Z) []).
  cbn [bind].
  destruct (getABCVectorTypes (getKind mmaOp)) as [[lhsVT rhsVT] accVT].
  destruct (Lowering.castToNative rewriter2 (fst s1) lhsVT) as [aCast rw1].
  destruct (Lowering.castToNative rw1 (fst s2) rhsVT) as [bCast rw2].
  destruct (Lowering.castToNative rw2 (fst s3) accVT) as [cCast rw3].
  unfold Lowering.buildMmaOperation.
  split.
  - destruct (canBuild (getKind mmaOp) (getType cCast) aCast bCast cCast);
      [right; eexists; reflexivity | left; reflexivity].
  - intros Hall. rewrite Hall. eexists. reflexivity.
Qed.

End LowerProperties.

Lemma lower_builds_on_native_types_witness :
  exists rewriter' casts k a b c,
    Lowering.LowerMultiMmaPattern (fun _ _ _ _ _ => true) foldedUnitMatmul
      Lowering.emptyRewriter = Ret (success, rewriter') /\
    Lowering.created rewriter' =
      casts ++
      [(k, Lowering.IntrinsicOp Samples.mfma
             (snd (getABCVectorTypes Samples.mfma)) a b c);
       (S k, Lowering.ShapeCastOp (getAccType foldedUnitMatmul)
               (mkValue (OpResult k 0) (snd (getABCVectorTypes Samples.mfma))))] /\
    getType a = fst (fst (getABCVectorTypes Samples.mfma)).
Proof.
  eexists.
  match goal with
  | |- context [Lowering.created ?r] =>
      destruct (lower_builds_on_native_types (fun _ _ _ _ _ => true) foldedUnitMatmul
                  Lowering.emptyRewriter r)
        as [casts [k [a [b [c [_ [_ [Hc [_ [_ [Ha _]]]]]]]]]]]
  end; [vm_compute; reflexivity|].
  exists casts, k, a, b, c. split; [vm_compute; reflexivity|].
  split; [exact Hc | exact Ha].
Defined.

Lemma fold_then_lower_witness :
  exists rewriter' extracts k newMmaOp,
    created rewriter' =
      created Samples.emptyRewriter ++ extracts ++
      [(k, MultiMma newMmaOp);
       (S k, BroadcastOp (getResultType Samples.unitMatmul)
                         (resultOf k (MultiMma newMmaOp)))] /\
    exists rewriter2',
      Lowering.LowerMultiMmaPattern (fun _ _ _ _ _ => true) newMmaOp
        Lowering.emptyRewriter = Ret (success, rewriter2').
Proof.
  eexists.
  match goal with
  | |- context [created ?r] =>
      destruct (fold_then_lower (fun _ _ _ _ _ => true) Samples.unitMatmul
                  Samples.emptyRewriter r)
        as [extracts [k [newMmaOp [Hc Hl]]]]
  end; [reflexivity | vm_compute; reflexivity |].
  exists extracts, k, newMmaOp. split; [exact Hc|].
  exact (proj2 (Hl Lowering.emptyRewriter) (fun _ _ _ _ => eq_refl)).
Defined.

(** X23. Whenever the lowering to the intrinsic or the vectorization returns
    failure, the rewriter is the one the function was given: both reject
    before creating anything. *)
Theorem lowering_fails_without_rewriting
    (canBuild : MmaInterfaceAttr -> ShapedType -> Value -> Value -> Value -> bool)
    (createReadOrMaskedRead :
       Lowering.PatternRewriter -> Value -> list Z -> Lowering.Scalar ->
       Value * Lowering.PatternRewriter)
    (mmaOp : MultiMmaOp) (rewriter rewriter' : Lowering.PatternRewriter)
    (d : Diagnostic) :
  Lowering.LowerMultiMmaPattern canBuild mmaOp rewriter = Ret (failure d, rewriter') \/
  Lowering.vectorizeStaticMultiMmaOp createReadOrMaskedRead rewriter mmaOp =
    Ret (failure d, rewriter') ->
  rewriter' = rewriter.
Proof.
  intros [H|H].
  - unfold Lowering.LowerMultiMmaPattern, Lowering.notifyMatchFailure in H.
    destruct (hasTensorSemantics mmaOp); [inversion H; reflexivity|].
    destruct (getIterationBounds mmaOp) as [bounds|]; simpl in H; [|discriminate].
    destruct bounds as [|b bounds]; [|inversion H; reflexivity].
    destruct (getABCVectorTypes (getKind mmaOp)) as [[lhsVT rhsVT] accVT].
    destruct (Lowering.castToNative rewriter (getLhs mmaOp) lhsVT) as [aCast rw1].
    destruct (Lowering.castToNative rw1 (getRhs mmaOp) rhsVT) as [bCast rw2].
    destruct (Lowering.castToNative rw2 (getAcc mmaOp) accVT) as [cCast rw3].
    destruct (Lowering.buildMmaOperation canBuild (getKind mmaOp) rw3 (getType cCast)
                aCast bCast cCast) as [[concrete rw4]|]; [|discriminate].
    unfold Lowering.create in H. discriminate H.
  - unfold Lowering.vectorizeStaticMultiMmaOp, Lowering.notifyMatchFailure in H.
    destruct (negb (hasTensorSemantics mmaOp)); [inversion H; reflexivity|].
    destruct (negb (Lowering.hasStaticShape (getLhsType mmaOp)) ||
              negb (Lowering.hasStaticShape (getRhsType mmaOp)) ||
              negb (Lowering.hasStaticShape (getAccType mmaOp)));
      [inversion H; reflexivity|].
    unfold Lowering.createZero, Lowering.create in H. cbn [fst snd] in H.
    repeat match type of H with
           | context [createReadOrMaskedRead ?r ?s ?sh ?p] =>
               destruct (createReadOrMaskedRead r s sh p)
           end.
    discriminate H.
Qed.

Lemma lowering_fails_without_rewriting_witness :
  exists d rewriter',
    Lowering.LowerMultiMmaPattern (fun _ _ _ _ _ => true) Samples.matmul
      Lowering.emptyRewriter = Ret (failure d, rewriter') /\
    rewriter' = Lowering.emptyRewriter.
Proof.
  eexists. eexists. split; [vm_compute; reflexivity|].
  apply (lowering_fails_without_rewriting (fun _ _ _ _ _ => true) Lowering.sampleRead
           Samples.matmul Lowering.emptyRewriter Lowering.emptyRewriter
           (MatchFailure "must be a single mma operation")).
  left. vm_compute. reflexivity.
Defined.

(** ** The vectorization keeps the operation verified *)

Lemma mapLegal_shape (n : nat) (t t' : ShapedType) (m : AffineMap) :
  getShape t' = getShape t -> mapLegal n t m -> mapLegal n t' m.
Proof.
  intros Hs [H1 [H2 [H3 [H4 H5]]]]. unfold mapLegal, innerDimsStatic in *.
  rewrite Hs. repeat split; assumption.
Qed.

Lemma getIterationBounds_shapes (op op' : MultiMmaOp) :
  getIndexingMapsArray op' = getIndexingMapsArray op ->
  getIteratorTypes op' = getIteratorTypes op ->
  getShape (getLhsType op') = getShape (getLhsType op) ->
  getShape (getResultType op') = getShape (getResultType op) ->
  getIterationBounds op' = getIterationBounds op.
Proof.
  intros Hm Hi Hl Hr. unfold getIterationBounds. rewrite Hi. clear Hi.
  generalize 0%nat. induction (getIteratorTypes op) as [|it rest IH]; intros i.
  - reflexivity.
  - simpl. rewrite IH.
    replace (iterationBound op' i it) with (iterationBound op i it); [reflexivity|].
    unfold iterationBound. rewrite Hm, Hl, Hr. reflexivity.
Qed.

Section VectorizeProperties.

Variable inferContractionDims : list AffineMap -> bool.

Variable createReadOrMaskedRead :
  Lowering.PatternRewriter -> Value -> list Z -> Lowering.Scalar ->
  Value * Lowering.PatternRewriter.

(** The read is a vector of the shape read and of the type of the padding. *)
Hypothesis read_type :
  forall rewriter source readShape padValue,
    getType (fst (createReadOrMaskedRead rewriter source readShape padValue)) =
    mkShapedType VectorKind readShape (Lowering.scalarType padValue).

(** X24. The vectorization keeps the operation verified. On a verified
    operation whose result type is the type of its accumulator, a successful
    vectorization creates, after the padding values and the reads, the
    operation on the vectors read, then a zero index and the write of the
    result into the accumulator, which replaces the operation. The new
    operation has vector semantics, the maps, the iterator kinds and the
    intrinsic kind of the original, the same iteration bounds, and it passes
    the verifier. *)
Theorem vectorize_preserves_verification (mmaOp : MultiMmaOp)
    (rewriter rewriter' : Lowering.PatternRewriter) :
  verify inferContractionDims mmaOp = Ret success ->
  getResultType mmaOp = getAccType mmaOp ->
  Lowering.vectorizeStaticMultiMmaOp createReadOrMaskedRead rewriter mmaOp =
    Ret (success, rewriter') ->
  exists before k newMmaOp,
    Lowering.created rewriter' =
      before ++
      [(k, Lowering.MultiMma newMmaOp);
       (S k, Lowering.ConstantIndexOp 0);
       (S (S k),
        Lowering.TransferWriteOp
          (mkValue (OpResult k 0) (getResultType newMmaOp)) (getAcc mmaOp)
          (repeat (OpResult (S k) 0) (length (getShape (getResultType mmaOp))))
          (repeat true (length (getShape (getResultType mmaOp)))))] /\
    hasTensorSemantics mmaOp = true /\
    hasTensorSemantics newMmaOp = false /\
    getIndexingMapsArray newMmaOp = getIndexingMapsArray mmaOp /\
    getIteratorTypes newMmaOp = getIteratorTypes mmaOp /\
    getKind newMmaOp = getKind mmaOp /\
    getIterationBounds newMmaOp = getIterationBounds mmaOp /\
    verify inferContractionDims newMmaOp = Ret success /\
    Lowering.replacement rewriter' =
      Some (mkValue (OpResult (S (S k)) 0) (getAccType mmaOp)).
Proof.
  intros Hv Hres H. apply verify_sound in Hv.
  unfold Lowering.vectorizeStaticMultiMmaOp, Lowering.notifyMatchFailure in H.
  destruct (hasTensorSemantics mmaOp) eqn:Et; simpl in H; [|discriminate].
  destruct (negb (Lowering.hasStaticShape (getLhsType mmaOp)) ||
            negb (Lowering.hasStaticShape (getRhsType mmaOp)) ||
            negb (Lowering.hasStaticShape (getAccType mmaOp))); [discriminate|].
  unfold Lowering.createZero, Lowering.create in H. cbn [fst snd] in H.
  match type of H with
  | context [createReadOrMaskedRead ?r ?s ?sh ?p] =>
      pose proof (read_type r s sh p) as T1;
      destruct (createReadOrMaskedRead r s sh p) as [lhs rw1]
  end.
  match type of H with
  | context [createReadOrMaskedRead ?r ?s ?sh ?p] =>
      pose proof (read_type r s sh p) as T2;
      destruct (createReadOrMaskedRead r s sh p) as [rhs rw2]
  end.
  match type of H with
  | context [createReadOrMaskedRead ?r ?s ?sh ?p] =>
      pose proof (read_type r s sh p) as T3;
      destruct (createReadOrMaskedRead r s sh p) as [acc rw3]
  end.
  cbn [fst snd Lowering.scalarType] in T1, T2, T3.
  unfold Lowering.replaceOp in H. cbn [fst snd] in H.
  inversion H; subst rewriter'. clear H.
  exists (Lowering.created rw3), (Lowering.nextOpId rw3),
    (build lhs rhs acc (getIndexingMapsArray mmaOp) (getIteratorTypes mmaOp)
           (getKind mmaOp)).
  cbn [Lowering.created Lowering.replacement Lowering.nextOpId].
  split; [rewrite <- !app_assoc; reflexivity|].
  split; [reflexivity|]. split.
  { unfold hasTensorSemantics. cbn [build getResultType]. rewrite T3. reflexivity. }
  split; [reflexivity|]. split; [reflexivity|]. split; [reflexivity|].
  assert (Hb : getIterationBounds
                 (build lhs rhs acc (getIndexingMapsArray mmaOp) (getIteratorTypes mmaOp)
                        (getKind mmaOp)) = getIterationBounds mmaOp).
  { apply getIterationBounds_shapes; try reflexivity.
    - unfold getLhsType. cbn [build getLhs]. rewrite T1. reflexivity.
    - cbn [build getResultType]. rewrite T3, Hres. reflexivity. }
  split; [exact Hb|]. split; [|reflexivity].
  apply verify_complete.
  destruct Hv as [Hlen [Hlegal [Hinfer [[bounds [Hbounds Hshape]] Hty]]]].
  unfold Verified. cbn [build getIndexingMapsArray getIteratorTypes getOperands
                         getLhs getRhs getAcc getKind].
  split; [exact Hlen|]. split.
  { intros i m Hm. destruct (Hlegal i m Hm) as [v [Hv Hl]].
    destruct i as [|[|[|i]]]; simpl in Hv; [| | |destruct i; discriminate];
      injection Hv as <-; eexists; (split; [reflexivity|]);
      (eapply mapLegal_shape; [|exact Hl]).
    - cbn [build getLhs]. rewrite T1. reflexivity.
    - cbn [build getRhs]. rewrite T2. reflexivity.
    - cbn [build getAcc]. rewrite T3. reflexivity. }
  split; [exact Hinfer|]. split.
  { exists bounds. split; [rewrite Hb; exact Hbounds|].
    intros i m v Hm Hv j d size Hr Hs.
    destruct i as [|[|[|i]]]; simpl in Hv; [| | |destruct i; discriminate];
      injection Hv as <-.
    - rewrite T1 in Hs. exact (Hshape 0%nat m (getLhs mmaOp) Hm eq_refl j d size Hr Hs).
    - rewrite T2 in Hs. exact (Hshape 1%nat m (getRhs mmaOp) Hm eq_refl j d size Hr Hs).
    - rewrite T3 in Hs. exact (Hshape 2%nat m (getAcc mmaOp) Hm eq_refl j d size Hr Hs). }
  unfold elementTypesMatch in *. unfold getLhsType, getRhsType, getAccType in *.
  cbn [build getLhs getRhs getAcc getKind]. rewrite Hty, T1, T2, T3.
  cbn [getElementType]. rewrite Hres. reflexivity.
Qed.

End VectorizeProperties.

Lemma vectorize_preserves_verification_witness :
  exists rewriter' k newMmaOp,
    Lowering.vectorizeStaticMultiMmaOp Lowering.sampleRead Lowering.emptyRewriter
      Lowering.tensorMatmul = Ret (success, rewriter') /\
    In (k, Lowering.MultiMma newMmaOp) (Lowering.created rewriter') /\
    hasTensorSemantics newMmaOp = false /\
    verify (fun _ => true) newMmaOp = Ret success.
Proof.
  eexists.
  match goal with
  | |- context [Lowering.created ?r] =>
      destruct (vectorize_preserves_verification (fun _ => true) Lowering.sampleRead
                  ltac:(reflexivity) Lowering.tensorMatmul Lowering.emptyRewriter r)
        as [before [k [newMmaOp [Hc [_ [Hvec [_ [_ [_ [_ [Hv _]]]]]]]]]]]
  end; [vm_compute; reflexivity | reflexivity | vm_compute; reflexivity |].
  exists k, newMmaOp. split; [vm_compute; reflexivity|].
  split; [rewrite Hc; apply in_or_app; right; left; reflexivity|].
  split; [exact Hvec | exact Hv].
Defined.
